(** * VoiceChatLib: a shallow embedding of the session, sampler and motion code

    The development follows the two builds of the library that the repository
    ships: [src/src/voice-chat-lib.js] and the later build kept as
    [src/unnamed/part_000].  Where the two differ, the definitions take a
    [Build] argument and branch on it at the differing statements.

    Conventions of the embedding.
    - A JavaScript number is a [number]: an exact rational, or [NonFinite]
      for the values the code can only obtain from a division by zero
      (NaN and the infinities).  In the definitions that follow the code
      statement by statement, [+], [-], [*] and [/] are those of [Q]: they
      give the exact value of each formula.  Where a property depends on the
      rounding of binary64 arithmetic (the bounds of the smoothing, the order
      of the analyser's sum), the code is given once more with every
      operation rounded ([round64], [smoothStep64], [analyzeChannel64]).
    - [performance.now()], [Date.now()], [Math.random()], the analyser's
      sample buffer, the result of the selector look-ups and the outcome of
      the browser's asynchronous operations are inputs of the functions that
      read them.
    - DOM nodes are shared objects: the page is a store ([document]) and the
      instance holds positions in that store ([voiceEls]).
    - Callbacks ([onStart], [onToggle], [onEnd]) and the calls made on a
      [MediaRecorder] are recorded in the list of [Effect]s a function
      returns, in program order. *)

From Stdlib Require Import QArith Qabs Qround Qminmax Qpower Lqa Lia ZArith List String Bool Permutation.
From Stdlib Require Strings.Byte.
From Stdlib Require Floats.
Import ListNotations.
Open Scope Q_scope.

(** ** Numbers *)

Inductive number : Type :=
| Num (q : Q)
| NonFinite.

(** Equality of numbers up to the representation of the rational. *)
Definition num_eq (x y : number) : Prop :=
  match x, y with
  | Num a, Num b => a == b
  | NonFinite, NonFinite => True
  | _, _ => False
  end.

Infix "=n=" := num_eq (at level 70, no associativity).

Definition lift2 (f : Q -> Q -> Q) (x y : number) : number :=
  match x, y with
  | Num a, Num b => Num (f a b)
  | _, _ => NonFinite
  end.

Definition nadd : number -> number -> number := lift2 Qplus.
Definition nsub : number -> number -> number := lift2 Qminus.
Definition nmul : number -> number -> number := lift2 Qmult.

(** [x / d] for a finite divisor [d]: a zero divisor gives NaN or an
    infinity, a non-finite dividend stays non-finite. *)
Definition ndiv (x : number) (d : Q) : number :=
  match x with
  | Num a => if Qeq_bool d 0 then NonFinite else Num (a / d)
  | NonFinite => NonFinite
  end.

(** [x < q]; every comparison with NaN is false.  The only non-finite value
    the program ever compares is the NaN of [0 / 0]. *)
Definition nltb (x : number) (q : Q) : bool :=
  match x with
  | Num a => match a ?= q with Lt => true | _ => false end
  | NonFinite => false
  end.

Definition Qltb (a b : Q) : bool :=
  match a ?= b with Lt => true | _ => false end.

(** [null] used as a number is [0]. *)
Definition toNumber (t : option Q) : Q :=
  match t with Some q => q | None => 0 end.

(** [!t] for a field holding [null] or a number. *)
Definition falsy (t : option Q) : bool :=
  match t with Some q => Qeq_bool q 0 | None => true end.

(** [Number.prototype.toFixed(digits)], read back by [parseFloat]: the
    decimal with [digits] fractional digits nearest to [x], ties away from
    zero.  The string itself is not kept, only the value it denotes. *)
Definition pow10 (digits : nat) : Q := inject_Z (10 ^ Z.of_nat digits).

Definition roundHalfUp (x : Q) : Z := Qfloor (x + (1 # 2)).

Definition toFixed (digits : nat) (x : Q) : Q :=
  if Qltb x 0
  then - (inject_Z (roundHalfUp (- x * pow10 digits)) / pow10 digits)
  else inject_Z (roundHalfUp (x * pow10 digits)) / pow10 digits.

Definition toFixedN (digits : nat) (x : number) : number :=
  match x with Num a => Num (toFixed digits a) | NonFinite => NonFinite end.

(** ** Configuration *)

Record Config : Type := {
  amplitudeSmoothFactorVar : Q;
  baseRotationDivisor : Q;
  dynamicLerpMin : Q;
  dynamicLerpAudioMultiplier : Q;
  maxAdditionalRotation : Q;
  baseScaleMultiplier : Q
}.

Definition defaultConfig : Config := {|
  amplitudeSmoothFactorVar := 3 # 10;
  baseRotationDivisor := 16;
  dynamicLerpMin := 5 # 100;
  dynamicLerpAudioMultiplier := 1 # 2;
  maxAdditionalRotation := 360;
  baseScaleMultiplier := 2
|}.

(** [this.MAX_DELTA]: assigned once by the constructor, never written again. *)
Definition MAX_DELTA : Q := 100.

(** ** Browser objects *)

Inductive Build : Type :=
| voice_chat_lib   (* src/src/voice-chat-lib.js *)
| part_000.        (* src/unnamed/part_000 *)

Inductive TrackKind : Type := audio | video.

Record Track : Type := {
  kind : TrackKind;
  enabled : bool;
  stopped : bool;
  label : option string
}.

Definition MediaStream : Type := list Track.

Definition isAudio (t : Track) : bool :=
  match kind t with audio => true | video => false end.

Definition getAudioTracks (stream : MediaStream) : list Track :=
  filter isAudio stream.

Definition setEnabled (v : bool) (t : Track) : Track :=
  {| kind := kind t; enabled := v; stopped := stopped t; label := label t |}.

Definition stopTrack (t : Track) : Track :=
  {| kind := kind t; enabled := enabled t; stopped := true; label := label t |}.

(** [stream.getAudioTracks().forEach(track => track.enabled = v)]: the tracks
    are objects of the stream, so the stream sees the assignment. *)
Definition enableAudioTracks (v : bool) (stream : MediaStream) : MediaStream :=
  map (fun t => if isAudio t then setEnabled v t else t) stream.

Inductive ContextState : Type := suspended | running | closed.

Record AudioContext : Type := { ctxState : ContextState }.

Record AnalyserNode : Type := { fftSize : nat }.

Inductive RecorderState : Type := inactive | recording | paused.

Definition RecorderState_eqb (a b : RecorderState) : bool :=
  match a, b with
  | inactive, inactive | recording, recording | paused, paused => true
  | _, _ => false
  end.

Record MediaRecorder : Type := {
  state : RecorderState;
  onstop : bool            (* the handler [end] installs *)
}.

Inductive RecorderMethod : Type := pause | resume | stop.

(** The MediaRecorder API: [None] is the InvalidStateError of a call on an
    inactive recorder. *)
Definition recorderApi (m : RecorderMethod) (st : RecorderState)
  : option RecorderState :=
  match m, st with
  | _, inactive => None
  | pause, _ => Some paused
  | resume, _ => Some recording
  | stop, _ => Some inactive
  end.

Definition invoke (m : RecorderMethod) (r : MediaRecorder) : MediaRecorder :=
  match recorderApi m (state r) with
  | Some st => {| state := st; onstop := onstop r |}
  | None => r
  end.

Record Blob : Type := {
  size : N;
  type : string
}.

Definition newBlob (parts : list Blob) (mime : string) : Blob :=
  {| size := fold_right (fun p acc => (size p + acc)%N) 0%N parts;
     type := mime |}.

Record Button : Type := {
  disabled : bool;
  isOn : bool;             (* class "is--on" *)
  isOff : bool             (* class "is--off" *)
}.

(** A visual element.  [offset], [speed] and [scaleMultiplier] are
    [parseFloat] of the [dataset] entries of the same name (NaN while the
    entry is missing); [transform] holds the two numbers printed into
    [style.transform]. *)
Record Element : Type := {
  initialized : bool;
  offset : number;
  speed : number;
  scaleMultiplier : number;
  transformOrigin : option (Q * Q);
  currentRotation : number;
  currentScale : number;
  transform : option (number * number)
}.

Definition freshElement : Element := {|
  initialized := false;
  offset := NonFinite;
  speed := NonFinite;
  scaleMultiplier := NonFinite;
  transformOrigin := None;
  currentRotation := NonFinite;
  currentScale := NonFinite;
  transform := None
|}.

(** ** Notifications and effects *)

Record Analysis : Type := {
  isMostlySilence : bool;
  avgAmplitude : number
}.

Inductive AnalysisField : Type :=
| analysed (a : Analysis)
| analysisError (err : string).      (* [{ error: err }] *)

(** [audioMeta].  The two readable fields exist in [part_000] only; they are
    kept as the numbers and the unit that the code prints into the string. *)
Record AudioMeta : Type := {
  duration : Q;
  durationReadable : option (Z * Z);          (* min, sec *)
  metaSize : N;
  sizeReadable : option (Q * string);         (* value, unit *)
  mimeType : string
}.

Record Notification : Type := {
  event : string;
  timestamp : Z;
  details : string;
  micOn : option bool;                 (* the field [isMicOn] *)
  microphoneLabel : option string;
  audioBlob : option Blob;
  audioMeta : option AudioMeta;
  audioBinary : option (list Byte.byte);
  audioBase64 : option string;
  fileName : option string;
  analysis : option AnalysisField
}.

Inductive Effect : Type :=
| Callback (n : Notification)
| RecorderCall (m : RecorderMethod) (before : RecorderState)
| CancelAnimationFrame (id : nat)
| Alert (msg : string).

(** ** The instance *)

Record VoiceChat : Type := {
  config : Config;
  audioStream : option MediaStream;
  audioContext : option AudioContext;
  analyser : option AnalyserNode;
  microphone : bool;
  animationId : option nat;
  isMicOn : bool;
  smoothedAmplitude : number;
  startTime : option Q;
  lastFrameTime : option Q;
  voiceEls : list nat;                 (* positions in [document] *)
  toggleBtn : option Button;
  endBtn : option Button;
  micStatus : option string;           (* textContent; voice_chat_lib only *)
  micDevice : option string;           (* textContent; voice_chat_lib only *)
  elementsBound : bool;
  audioStarted : bool;
  domObserver : bool;
  mediaRecorder : option MediaRecorder;
  recordedChunks : list Blob;
  onStart : bool;                      (* [typeof onStart === "function"] *)
  onToggle : bool;
  onEnd : bool;
  toggleBtnBound : bool;
  endBtnBound : bool;
  document : list Element
}.

(** [new VoiceChat(options)] with the options already merged into [cfg], on
    a page whose visual elements are [page]. *)
Definition newVoiceChat (cfg : Config) (page : list Element) : VoiceChat := {|
  config := cfg;
  audioStream := None;
  audioContext := None;
  analyser := None;
  microphone := false;
  animationId := None;
  isMicOn := true;
  smoothedAmplitude := Num 0;
  startTime := None;
  lastFrameTime := None;
  voiceEls := [];
  toggleBtn := None;
  endBtn := None;
  micStatus := None;
  micDevice := None;
  elementsBound := false;
  audioStarted := false;
  domObserver := false;
  mediaRecorder := None;
  recordedChunks := [];
  onStart := false;
  onToggle := false;
  onEnd := false;
  toggleBtnBound := false;
  endBtnBound := false;
  document := page
|}.

(** Writing one node of the page. *)
Fixpoint setNode (page : list Element) (i : nat) (el : Element) : list Element :=
  match page, i with
  | [], _ => []
  | _ :: rest, O => el :: rest
  | e :: rest, S j => e :: setNode rest j el
  end.

(** ** updateMicDisplay *)

Definition showMic (on : bool) (b : Button) : Button :=
  {| disabled := disabled b; isOn := on; isOff := negb on |}.

Definition statusText (on : bool) : string :=
  if on then "Turn off microphone"%string else "Turn on microphone"%string.

Definition updateMicDisplay (bld : Build) (s : VoiceChat) : VoiceChat := {|
  config := config s;
  audioStream := audioStream s;
  audioContext := audioContext s;
  analyser := analyser s;
  microphone := microphone s;
  animationId := animationId s;
  isMicOn := isMicOn s;
  smoothedAmplitude := smoothedAmplitude s;
  startTime := startTime s;
  lastFrameTime := lastFrameTime s;
  voiceEls := voiceEls s;
  toggleBtn := option_map (showMic (isMicOn s)) (toggleBtn s);
  endBtn := endBtn s;
  micStatus :=
    match bld with
    | voice_chat_lib => option_map (fun _ => statusText (isMicOn s)) (micStatus s)
    | part_000 => micStatus s
    end;
  micDevice := micDevice s;
  elementsBound := elementsBound s;
  audioStarted := audioStarted s;
  domObserver := domObserver s;
  mediaRecorder := mediaRecorder s;
  recordedChunks := recordedChunks s;
  onStart := onStart s;
  onToggle := onToggle s;
  onEnd := onEnd s;
  toggleBtnBound := toggleBtnBound s;
  endBtnBound := endBtnBound s;
  document := document s
|}.

(** ** lerp *)

Definition lerp (start end_ factor : number) : number :=
  nadd start (nmul factor (nsub end_ start)).

(** ** updateAnimation *)

Definition sample (b : Byte.byte) : Q := inject_Z (Z.of_N (Byte.to_N b)).

(** The [for] loop over [dataArray]. *)
Definition sumLoop (dataArray : list Byte.byte) : Q :=
  fold_left (fun sum b => sum + Qabs (sample b - 128)) dataArray 0.

Definition lengthQ {A : Type} (l : list A) : Q := inject_Z (Z.of_nat (List.length l)).

Definition amplitudeNormalized (dataArray : list Byte.byte) : number :=
  let sum := sumLoop dataArray in
  let average := ndiv (Num sum) (lengthQ dataArray) in
  ndiv average 128.

Definition smoothStep (cfg : Config) (smoothed normalized : number) : number :=
  nadd (nmul smoothed (Num (1 - amplitudeSmoothFactorVar cfg)))
       (nmul normalized (Num (amplitudeSmoothFactorVar cfg))).

Definition dynamicLerpFactor (cfg : Config) (smoothed : number) : number :=
  nadd (Num (dynamicLerpMin cfg)) (nmul smoothed (Num (dynamicLerpAudioMultiplier cfg))).

(** The body of [voiceEls.forEach]. *)
Definition animate (cfg : Config) (smoothed : number) (effectiveTime : Q)
    (el : Element) : Element :=
  let baseRotation :=
    nadd (offset el)
         (ndiv (nmul (Num effectiveTime) (speed el)) (baseRotationDivisor cfg)) in
  let additionalRotation := nmul smoothed (Num (maxAdditionalRotation cfg)) in
  let targetRotation := nadd baseRotation additionalRotation in
  let targetScale :=
    nadd (Num 1)
         (nmul (nmul smoothed (scaleMultiplier el)) (Num (baseScaleMultiplier cfg))) in
  let rotation := lerp (currentRotation el) targetRotation (dynamicLerpFactor cfg smoothed) in
  let scale := lerp (currentScale el) targetScale (dynamicLerpFactor cfg smoothed) in
  {| initialized := initialized el;
     offset := offset el;
     speed := speed el;
     scaleMultiplier := scaleMultiplier el;
     transformOrigin := transformOrigin el;
     currentRotation := rotation;
     currentScale := scale;
     transform := Some (toFixedN 2 rotation, toFixedN 2 scale) |}.

Definition visit (f : Element -> Element) (page : list Element) (i : nat)
  : list Element :=
  match nth_error page i with
  | Some el => setNode page i (f el)
  | None => page
  end.

Definition forEach (f : Element -> Element) (els : list nat) (page : list Element)
  : list Element :=
  fold_left (visit f) els page.

(** The two readings of the clock that precede the sampling. *)
Definition frameStart (s : VoiceChat) (now : Q) : option Q :=
  let startTime1 := if falsy (lastFrameTime s) then Some now else startTime s in
  let lastFrameTime1 := if falsy (lastFrameTime s) then now else toNumber (lastFrameTime s) in
  let delta := now - lastFrameTime1 in
  if Qltb MAX_DELTA delta then Some now else startTime1.

(** One frame.  [now] is [performance.now()], [dataArray] the buffer as
    [getByteTimeDomainData] filled it, [frame] the id that
    [requestAnimationFrame] returns. *)
Definition updateAnimation (s : VoiceChat) (now : Q) (dataArray : list Byte.byte)
    (frame : nat) : VoiceChat :=
  match analyser s with
  | None => s
  | Some _ =>
    let startTime' := frameStart s now in
    let smoothed := smoothStep (config s) (smoothedAmplitude s)
                      (amplitudeNormalized dataArray) in
    let effectiveTime := now - toNumber startTime' in
    {| config := config s;
       audioStream := audioStream s;
       audioContext := audioContext s;
       analyser := analyser s;
       microphone := microphone s;
       animationId := Some frame;
       isMicOn := isMicOn s;
       smoothedAmplitude := smoothed;
       startTime := startTime';
       lastFrameTime := Some now;
       voiceEls := voiceEls s;
       toggleBtn := toggleBtn s;
       endBtn := endBtn s;
       micStatus := micStatus s;
       micDevice := micDevice s;
       elementsBound := elementsBound s;
       audioStarted := audioStarted s;
       domObserver := domObserver s;
       mediaRecorder := mediaRecorder s;
       recordedChunks := recordedChunks s;
       onStart := onStart s;
       onToggle := onToggle s;
       onEnd := onEnd s;
       toggleBtnBound := toggleBtnBound s;
       endBtnBound := endBtnBound s;
       document := forEach (animate (config s) smoothed effectiveTime)
                     (voiceEls s) (document s) |}
  end.

(** ** initElements *)

(** The body of [if (!el.initialized)]; [r0] .. [r4] are the five values of
    [Math.random()] it draws, [now] the clock read before the loop. *)
Definition bindElement (s : VoiceChat) (now : Q) (r0 r1 r2 r3 r4 : Q)
    (el : Element) : Element :=
  let offset' := toFixed 0 (r0 * 360) in
  let speed' := toFixed 2 (1 + r1 * 2) in
  let scaleMultiplier' := toFixed 2 (1 + r2 * (15 # 10)) in
  let originX := toFixed 0 (45 + r3 * 10) in
  let originY := toFixed 0 (45 + r4 * 10) in
  let current :=
    match audioStarted s, startTime s with
    | true, Some t0 =>
      let effectiveTime := now - t0 in
      let baseRot :=
        nadd (Num offset')
             (ndiv (Num (effectiveTime * speed')) (baseRotationDivisor (config s))) in
      let addRot := nmul (smoothedAmplitude s) (Num (maxAdditionalRotation (config s))) in
      let tarScale :=
        nadd (Num 1)
             (nmul (nmul (smoothedAmplitude s) (Num scaleMultiplier'))
                   (Num (baseScaleMultiplier (config s)))) in
      (nadd baseRot addRot, tarScale)
    | _, _ => (Num 0, Num 1)
    end in
  {| initialized := true;
     offset := Num offset';
     speed := Num speed';
     scaleMultiplier := Num scaleMultiplier';
     transformOrigin := Some (originX, originY);
     currentRotation := fst current;
     currentScale := snd current;
     transform := transform el |}.

(** The [for] loop over [this.voiceEls]; [k] counts the calls of
    [Math.random()] made so far, [rand k] is the value of call [k]. *)
Fixpoint initLoop (s : VoiceChat) (now : Q) (rand : nat -> Q) (k : nat)
    (els : list nat) (page : list Element) : list Element :=
  match els with
  | [] => page
  | i :: rest =>
    match nth_error page i with
    | Some el =>
      if initialized el
      then initLoop s now rand k rest page
      else initLoop s now rand (k + 5) rest
             (setNode page i
                (bindElement s now (rand k) (rand (k + 1)%nat) (rand (k + 2)%nat)
                   (rand (k + 3)%nat) (rand (k + 4)%nat) el))
    | None => initLoop s now rand k rest page
    end
  end.

(** What the selector look-ups of one call return. *)
Record Lookup : Type := {
  foundToggleBtn : option Button;
  foundEndBtn : option Button;
  foundMicStatus : option string;
  foundMicDevice : option string;
  foundVoiceEls : list nat
}.

Definition isSome {A : Type} (o : option A) : bool :=
  match o with Some _ => true | None => false end.

Definition initElements (bld : Build) (s : VoiceChat) (q : Lookup) (now : Q)
    (rand : nat -> Q) : VoiceChat :=
  updateMicDisplay bld {|
    config := config s;
    audioStream := audioStream s;
    audioContext := audioContext s;
    analyser := analyser s;
    microphone := microphone s;
    animationId := animationId s;
    isMicOn := isMicOn s;
    smoothedAmplitude := smoothedAmplitude s;
    startTime := startTime s;
    lastFrameTime := lastFrameTime s;
    voiceEls := foundVoiceEls q;
    toggleBtn := foundToggleBtn q;
    endBtn := foundEndBtn q;
    micStatus :=
      match bld with
      | voice_chat_lib => foundMicStatus q
      | part_000 => micStatus s
      end;
    micDevice :=
      match bld with
      | voice_chat_lib => foundMicDevice q
      | part_000 => micDevice s
      end;
    elementsBound := true;
    audioStarted := audioStarted s;
    domObserver := domObserver s;
    mediaRecorder := mediaRecorder s;
    recordedChunks := recordedChunks s;
    onStart := onStart s;
    onToggle := onToggle s;
    onEnd := onEnd s;
    toggleBtnBound := isSome (foundToggleBtn q) || toggleBtnBound s;
    endBtnBound := isSome (foundEndBtn q) || endBtnBound s;
    document := initLoop s now rand 0 (foundVoiceEls q) (document s)
  |}.

(** ** toggleMic *)

Definition toggleNotice (wall : Z) (on : bool) : Notification := {|
  event := "toggleMic";
  timestamp := wall;
  details := "Microphone toggled";
  micOn := Some on;
  microphoneLabel := None;
  audioBlob := None;
  audioMeta := None;
  audioBinary := None;
  audioBase64 := None;
  fileName := None;
  analysis := None
|}.

Definition fire (handler : bool) (n : Notification) : list Effect :=
  if handler then [Callback n] else [].

(** [if (recorder.state === from) recorder.m()] *)
Definition guarded (from : RecorderState) (m : RecorderMethod) (r : MediaRecorder)
  : MediaRecorder * list Effect :=
  if RecorderState_eqb (state r) from
  then (invoke m r, [RecorderCall m (state r)])
  else (r, []).

Definition setMic (s : VoiceChat) (on : bool) (stream : option MediaStream)
    (rec : option MediaRecorder) : VoiceChat := {|
  config := config s;
  audioStream := stream;
  audioContext := audioContext s;
  analyser := analyser s;
  microphone := microphone s;
  animationId := animationId s;
  isMicOn := on;
  smoothedAmplitude := smoothedAmplitude s;
  startTime := startTime s;
  lastFrameTime := lastFrameTime s;
  voiceEls := voiceEls s;
  toggleBtn := toggleBtn s;
  endBtn := endBtn s;
  micStatus := micStatus s;
  micDevice := micDevice s;
  elementsBound := elementsBound s;
  audioStarted := audioStarted s;
  domObserver := domObserver s;
  mediaRecorder := rec;
  recordedChunks := recordedChunks s;
  onStart := onStart s;
  onToggle := onToggle s;
  onEnd := onEnd s;
  toggleBtnBound := toggleBtnBound s;
  endBtnBound := endBtnBound s;
  document := document s
|}.

(** The two branches on [this.mediaRecorder], before the display is
    refreshed and the callback fired. *)
Definition flipMic (s : VoiceChat) : VoiceChat * list Effect :=
  match mediaRecorder s with
  | Some r =>
    if isMicOn s
    then
      let (r', calls) := guarded recording pause r in
      (setMic s false (option_map (enableAudioTracks false) (audioStream s)) (Some r'),
       calls)
    else
      let (r', calls) := guarded paused resume r in
      (setMic s true (option_map (enableAudioTracks true) (audioStream s)) (Some r'),
       calls)
  | None =>
    match audioStream s with
    | Some stream =>
      if (0 <? List.length (getAudioTracks stream))%nat
      then (setMic s (negb (isMicOn s))
              (Some (enableAudioTracks (negb (isMicOn s)) stream)) None, [])
      else (s, [])
    | None => (s, [])
    end
  end.

(** [wall] is [Date.now()]. *)
Definition toggleMic (bld : Build) (s : VoiceChat) (wall : Z)
  : VoiceChat * list Effect :=
  let (s1, calls) := flipMic s in
  let s2 := updateMicDisplay bld s1 in
  (s2, calls ++ fire (onToggle s2) (toggleNotice wall (isMicOn s2))).

(** ** analyzeAudio *)

(** What the browser makes of the clip: the file read, the construction of
    the offline context and the decoding can each fail; otherwise the
    samples of channel 0 are available. *)
Inductive Decoding : Type :=
| readerError (err : string)
| contextError (err : string)
| decodeError (err : string)
| audioBuffer (channelData : list Q).

Inductive Settled : Type :=
| resolved (a : Analysis)
| rejected (err : string).

(** The success callback of [decodeAudioData]. *)
Definition analyzeChannel (channelData : list Q) : Analysis :=
  let sum := fold_left (fun sum x => sum + Qabs x) channelData 0 in
  let avg := ndiv (Num sum) (lengthQ channelData) in
  {| isMostlySilence := nltb avg (2 # 100); avgAmplitude := avg |}.

Definition analyzeAudio (d : Decoding) : Settled :=
  match d with
  | readerError err => rejected err
  | contextError err => rejected err
  | decodeError err => rejected err
  | audioBuffer channelData => resolved (analyzeChannel channelData)
  end.

(** ** end *)

Definition truthyId (id : option nat) : list nat :=
  match id with
  | Some (S n) => [S n]
  | _ => []
  end.

Definition setDisabled (v : bool) (b : Button) : Button :=
  {| disabled := v; isOn := isOn b; isOff := isOff b |}.

Definition isActive (r : MediaRecorder) : bool :=
  RecorderState_eqb (state r) recording || RecorderState_eqb (state r) paused.

Definition noAudioNotice (wall : Z) : Notification := {|
  event := "end";
  timestamp := wall;
  details := "VoiceChat session ended (no audio recorded)";
  micOn := None;
  microphoneLabel := None;
  audioBlob := None;
  audioMeta := None;
  audioBinary := None;
  audioBase64 := None;
  fileName := None;
  analysis := None
|}.

(** [end()].  With an active recorder the notification is left to the
    handler of the recorder's stop event, [recorderStopped] below. *)
Definition end_ (bld : Build) (s : VoiceChat) (wall : Z) : VoiceChat * list Effect :=
  let cancel := map CancelAnimationFrame (truthyId (animationId s)) in
  let active := match mediaRecorder s with Some r => isActive r | None => false end in
  ({| config := config s;
      audioStream := option_map (map stopTrack) (audioStream s);
      audioContext := option_map (fun _ => {| ctxState := closed |}) (audioContext s);
      analyser := analyser s;
      microphone := microphone s;
      animationId := animationId s;
      isMicOn := isMicOn s;
      smoothedAmplitude := smoothedAmplitude s;
      startTime := startTime s;
      lastFrameTime := lastFrameTime s;
      voiceEls := voiceEls s;
      toggleBtn := option_map (setDisabled true) (toggleBtn s);
      endBtn := option_map (setDisabled true) (endBtn s);
      micStatus :=
        match bld with
        | voice_chat_lib => option_map (fun _ => "Voice Chat Ended"%string) (micStatus s)
        | part_000 => micStatus s
        end;
      micDevice :=
        match bld with
        | voice_chat_lib => option_map (fun _ => EmptyString) (micDevice s)
        | part_000 => micDevice s
        end;
      elementsBound := elementsBound s;
      audioStarted := audioStarted s;
      domObserver := domObserver s;
      mediaRecorder :=
        match mediaRecorder s with
        | Some r =>
          if isActive r
          then Some (invoke stop {| state := state r; onstop := true |})
          else Some r
        | None => None
        end;
      recordedChunks := recordedChunks s;
      onStart := onStart s;
      onToggle := onToggle s;
      onEnd := onEnd s;
      toggleBtnBound := toggleBtnBound s;
      endBtnBound := endBtnBound s;
      document := document s |},
   cancel ++
   match mediaRecorder s with
   | Some r =>
     if isActive r then [RecorderCall stop (state r)]
     else fire (onEnd s) (noAudioNotice wall)
   | None => fire (onEnd s) (noAudioNotice wall)
   end).

(** [mediaRecorder.ondataavailable]. *)
Definition dataAvailable (s : VoiceChat) (data : option Blob) : VoiceChat :=
  match data with
  | Some d =>
    if (0 <? size d)%N then
      {| config := config s;
         audioStream := audioStream s;
         audioContext := audioContext s;
         analyser := analyser s;
         microphone := microphone s;
         animationId := animationId s;
         isMicOn := isMicOn s;
         smoothedAmplitude := smoothedAmplitude s;
         startTime := startTime s;
         lastFrameTime := lastFrameTime s;
         voiceEls := voiceEls s;
         toggleBtn := toggleBtn s;
         endBtn := endBtn s;
         micStatus := micStatus s;
         micDevice := micDevice s;
         elementsBound := elementsBound s;
         audioStarted := audioStarted s;
         domObserver := domObserver s;
         mediaRecorder := mediaRecorder s;
         recordedChunks := recordedChunks s ++ [d];
         onStart := onStart s;
         onToggle := onToggle s;
         onEnd := onEnd s;
         toggleBtnBound := toggleBtnBound s;
         endBtnBound := endBtnBound s;
         document := document s |}
    else s
  | None => s
  end.

(** [formatDuration] and [formatBytes] of [part_000], as the numbers and the
    unit they print. *)
Definition formatDuration (ms : Q) : Z * Z :=
  let totalSec := Qfloor (ms / 1000) in
  (Qfloor (inject_Z totalSec / 60), Z.rem totalSec 60).

Definition formatBytes (bytes : N) : Q * string :=
  let b := inject_Z (Z.of_N bytes) in
  if (bytes <? 1024)%N then (b, "Bytes"%string)
  else if (bytes <? 1048576)%N then (toFixed 1 (b / 1024), "KB"%string)
  else if (bytes <? 1073741824)%N then (toFixed 1 (b / 1048576), "MB"%string)
  else (toFixed 1 (b / 1073741824), "GB"%string).

(** What the handler of the stop event reads from the browser in [part_000]:
    the random part of the file name, the two [FileReader] results ([None]:
    the read fails and [onload] never runs) and the decoding that
    [analyzeAudio] sees. *)
Record StopIO : Type := {
  randomName : string;
  readBinary : option (list Byte.byte);
  readDataURL : option string;
  decoding : Decoding
}.

Definition clipNotice (wall : Z) (text : string) (blob : Blob) (meta : AudioMeta)
    (binary : option (list Byte.byte)) (base64 name : option string)
    (a : option AnalysisField) : Notification := {|
  event := "end";
  timestamp := wall;
  details := text;
  micOn := None;
  microphoneLabel := None;
  audioBlob := Some blob;
  audioMeta := Some meta;
  audioBinary := binary;
  audioBase64 := base64;
  fileName := name;
  analysis := a
|}.

(** [mediaRecorder.onstop] as [end] installs it; [now] is
    [performance.now()], [wall] is [Date.now()]. *)
Definition recorderStopped (bld : Build) (s : VoiceChat) (now : Q) (wall : Z)
    (io : StopIO) : list Effect :=
  let blob := newBlob (recordedChunks s) "audio/webm" in
  let durationMs := now - toNumber (startTime s) in
  match bld with
  | voice_chat_lib =>
    let meta := {| duration := durationMs; durationReadable := None;
                   metaSize := size blob; sizeReadable := None;
                   mimeType := type blob |} in
    fire (onEnd s)
      (clipNotice wall "VoiceChat session ended" blob meta None None None None)
  | part_000 =>
    let name := ("voice-chat-" ++ randomName io ++ ".webm")%string in
    let meta := {| duration := durationMs;
                   durationReadable := Some (formatDuration durationMs);
                   metaSize := size blob;
                   sizeReadable := Some (formatBytes (size blob));
                   mimeType := type blob |} in
    match readBinary io, readDataURL io with
    | Some binary, Some base64 =>
      match analyzeAudio (decoding io) with
      | resolved a =>
        fire (onEnd s)
          (clipNotice wall "VoiceChat session ended" blob meta
             (Some binary) (Some base64) (Some name) (Some (analysed a)))
      | rejected err =>
        fire (onEnd s)
          (clipNotice wall "VoiceChat session ended (audio analysis failed)" blob meta
             (Some binary) (Some base64) (Some name) (Some (analysisError err)))
      end
    | _, _ => []
    end
  end.

(** ** reset *)

Definition reset (bld : Build) (s : VoiceChat) : VoiceChat * list Effect :=
  let stillRunning :=
    match mediaRecorder s with
    | Some r => negb (RecorderState_eqb (state r) inactive)
    | None => false
    end in
  ({| config := config s;
      audioStream := None;
      audioContext := None;
      analyser := analyser s;
      microphone := microphone s;
      animationId := match truthyId (animationId s) with
                     | [] => animationId s
                     | _ => None
                     end;
      isMicOn := true;
      smoothedAmplitude := smoothedAmplitude s;
      startTime := None;
      lastFrameTime := None;
      voiceEls := match bld with
                  | voice_chat_lib => voiceEls s
                  | part_000 => []
                  end;
      toggleBtn := match bld with
                   | voice_chat_lib => option_map (setDisabled false) (toggleBtn s)
                   | part_000 => None
                   end;
      endBtn := match bld with
                | voice_chat_lib => option_map (setDisabled false) (endBtn s)
                | part_000 => None
                end;
      micStatus :=
        match bld with
        | voice_chat_lib => option_map (fun _ => "Turn off microphone"%string) (micStatus s)
        | part_000 => micStatus s
        end;
      micDevice :=
        match bld with
        | voice_chat_lib => option_map (fun _ => EmptyString) (micDevice s)
        | part_000 => micDevice s
        end;
      elementsBound := match bld with
                       | voice_chat_lib => elementsBound s
                       | part_000 => false
                       end;
      audioStarted := false;
      domObserver := domObserver s;
      mediaRecorder := if stillRunning then None else mediaRecorder s;
      recordedChunks := [];
      onStart := onStart s;
      onToggle := onToggle s;
      onEnd := onEnd s;
      toggleBtnBound := match bld with
                        | voice_chat_lib => toggleBtnBound s
                        | part_000 => toggleBtnBound s && negb (isSome (toggleBtn s))
                        end;
      endBtnBound := match bld with
                     | voice_chat_lib => endBtnBound s
                     | part_000 => endBtnBound s && negb (isSome (endBtn s))
                     end;
      document := document s |},
   map CancelAnimationFrame (truthyId (animationId s)) ++
   match mediaRecorder s with
   | Some r => if stillRunning then [RecorderCall stop (state r)] else []
   | None => []
   end).

(** ** initAudio and start *)

(** Whether the page can record: no [window.MediaRecorder], a constructor
    that throws, a [start()] that throws, or a recorder that records. *)
Inductive Recording : Type :=
| unsupported
| constructorThrows
| startThrows
| recorderStarted.

Definition firstLabel (stream : MediaStream) : option string :=
  match getAudioTracks stream with
  | t :: _ => match label t with
              | Some EmptyString => None
              | l => l
              end
  | [] => None
  end.

Definition startNotice (bld : Build) (wall : Z) (on : bool) (stream : MediaStream)
  : Notification := {|
  event := "start";
  timestamp := wall;
  details := "VoiceChat audio and recording successfully started";
  micOn := match bld with voice_chat_lib => None | part_000 => Some on end;
  microphoneLabel :=
    match bld with
    | voice_chat_lib => None
    | part_000 =>
      Some match firstLabel stream with Some l => l | None => "(unknown)"%string end
    end;
  audioBlob := None;
  audioMeta := None;
  audioBinary := None;
  audioBase64 := None;
  fileName := None;
  analysis := None
|}.

(** The state the [then] callback of [getUserMedia] builds before it runs
    the first frame; [now0] is its reading of [performance.now()]. *)
Definition attachAudio (bld : Build) (s : VoiceChat) (stream : MediaStream) (now0 : Q)
  : VoiceChat :=
  updateMicDisplay bld {|
    config := config s;
    audioStream := Some stream;
    audioContext := Some {| ctxState := running |};
    analyser := Some {| fftSize := 256 |};
    microphone := true;
    animationId := animationId s;
    isMicOn := isMicOn s;
    smoothedAmplitude := smoothedAmplitude s;
    startTime := Some now0;
    lastFrameTime := Some now0;
    voiceEls := voiceEls s;
    toggleBtn := toggleBtn s;
    endBtn := endBtn s;
    micStatus := micStatus s;
    micDevice :=
      match bld with
      | voice_chat_lib =>
        match firstLabel stream with
        | Some l => option_map (fun _ => ("Communications - " ++ l)%string) (micDevice s)
        | None =>
          option_map (fun _ => "Communications - Microphone (unknown)"%string) (micDevice s)
        end
      | part_000 => micDevice s
      end;
    elementsBound := elementsBound s;
    audioStarted := audioStarted s;
    domObserver := domObserver s;
    mediaRecorder := mediaRecorder s;
    recordedChunks := recordedChunks s;
    onStart := onStart s;
    onToggle := onToggle s;
    onEnd := onEnd s;
    toggleBtnBound := toggleBtnBound s;
    endBtnBound := endBtnBound s;
    document := document s
  |}.

(** After the first frame: [audioStarted], then the recorder. *)
Definition startRecording (s : VoiceChat) (rec : Recording) : VoiceChat := {|
  config := config s;
  audioStream := audioStream s;
  audioContext := audioContext s;
  analyser := analyser s;
  microphone := microphone s;
  animationId := animationId s;
  isMicOn := isMicOn s;
  smoothedAmplitude := smoothedAmplitude s;
  startTime := startTime s;
  lastFrameTime := lastFrameTime s;
  voiceEls := voiceEls s;
  toggleBtn := toggleBtn s;
  endBtn := endBtn s;
  micStatus := micStatus s;
  micDevice := micDevice s;
  elementsBound := elementsBound s;
  audioStarted := true;
  domObserver := domObserver s;
  mediaRecorder :=
    match rec with
    | unsupported | constructorThrows => mediaRecorder s
    | startThrows => Some {| state := inactive; onstop := false |}
    | recorderStarted => Some {| state := recording; onstop := false |}
    end;
  recordedChunks := match rec with unsupported => recordedChunks s | _ => [] end;
  onStart := onStart s;
  onToggle := onToggle s;
  onEnd := onEnd s;
  toggleBtnBound := toggleBtnBound s;
  endBtnBound := endBtnBound s;
  document := document s
|}.

(** The [then] callback of [getUserMedia]: [now0] and [now1] are its two
    readings of [performance.now()], the second one inside the first frame. *)
Definition audioGranted (bld : Build) (s : VoiceChat) (stream : MediaStream)
    (now0 now1 : Q) (dataArray : list Byte.byte) (frame : nat) (rec : Recording)
    (wall : Z) : VoiceChat * list Effect :=
  let s1 := attachAudio bld s stream now0 in
  let s2 := updateAnimation s1 now1 dataArray frame in
  let s3 := startRecording s2 rec in
  (s3, fire (onStart s3) (startNotice bld wall (isMicOn s3) stream)).

(** The [catch] callback. *)
Definition audioDenied (s : VoiceChat) : VoiceChat * list Effect :=
  (s, [Alert "Could not access the microphone. Check your permissions."]).

Definition observeDOM (s : VoiceChat) : VoiceChat := {|
  config := config s;
  audioStream := audioStream s;
  audioContext := audioContext s;
  analyser := analyser s;
  microphone := microphone s;
  animationId := animationId s;
  isMicOn := isMicOn s;
  smoothedAmplitude := smoothedAmplitude s;
  startTime := startTime s;
  lastFrameTime := lastFrameTime s;
  voiceEls := voiceEls s;
  toggleBtn := toggleBtn s;
  endBtn := endBtn s;
  micStatus := micStatus s;
  micDevice := micDevice s;
  elementsBound := elementsBound s;
  audioStarted := audioStarted s;
  domObserver := true;
  mediaRecorder := mediaRecorder s;
  recordedChunks := recordedChunks s;
  onStart := onStart s;
  onToggle := onToggle s;
  onEnd := onEnd s;
  toggleBtnBound := toggleBtnBound s;
  endBtnBound := endBtnBound s;
  document := document s
|}.

(** [start()]: the state it leaves, and whether it called [initAudio], that
    is, whether a [getUserMedia] request is now pending. *)
Definition start (bld : Build) (s : VoiceChat) (q : Lookup) (now : Q)
    (rand : nat -> Q) : VoiceChat * bool :=
  let s1 := initElements bld (observeDOM s) q now rand in
  (s1, negb (audioStarted s1)).

(** ** Runs of the program used in the statements *)

(** A sequence of frames, each with its clock reading, buffer and frame id. *)
Definition runFrames (s : VoiceChat) (frames : list (Q * list Byte.byte * nat))
  : VoiceChat :=
  fold_left (fun st f => updateAnimation st (fst (fst f)) (snd (fst f)) (snd f))
            frames s.

(** [analyser.frequencyBinCount], the length of the array a frame allocates. *)
Definition frequencyBinCount (a : AnalyserNode) : nat := (fftSize a / 2)%nat.

(** The page assigns its callbacks to the three public properties. *)
Definition assignCallbacks (s : VoiceChat) (start_ toggle_ end__ : bool) : VoiceChat := {|
  config := config s;
  audioStream := audioStream s;
  audioContext := audioContext s;
  analyser := analyser s;
  microphone := microphone s;
  animationId := animationId s;
  isMicOn := isMicOn s;
  smoothedAmplitude := smoothedAmplitude s;
  startTime := startTime s;
  lastFrameTime := lastFrameTime s;
  voiceEls := voiceEls s;
  toggleBtn := toggleBtn s;
  endBtn := endBtn s;
  micStatus := micStatus s;
  micDevice := micDevice s;
  elementsBound := elementsBound s;
  audioStarted := audioStarted s;
  domObserver := domObserver s;
  mediaRecorder := mediaRecorder s;
  recordedChunks := recordedChunks s;
  onStart := start_;
  onToggle := toggle_;
  onEnd := end__;
  toggleBtnBound := toggleBtnBound s;
  endBtnBound := endBtnBound s;
  document := document s
|}.

(** Capturing: audio has started and the stream has an audio track. *)
Definition capturing (s : VoiceChat) : bool :=
  audioStarted s &&
  match audioStream s with
  | Some stream => (0 <? List.length (getAudioTracks stream))%nat
  | None => false
  end.

(** The flag flips whenever there is a recorder or an audio track. *)
Definition canFlip (s : VoiceChat) : bool :=
  isSome (mediaRecorder s)
  || match audioStream s with
     | Some stream => (0 <? List.length (getAudioTracks stream))%nat
     | None => false
     end.

(** The recorder follows the flag: recording while the microphone is on,
    paused while it is off. *)
Definition inLockstep (s : VoiceChat) : bool :=
  match mediaRecorder s with
  | Some r => RecorderState_eqb (state r) (if isMicOn s then recording else paused)
  | None => true
  end.

Definition recorderCalls (fx : list Effect) : list (RecorderMethod * RecorderState) :=
  flat_map (fun e => match e with RecorderCall m st => [(m, st)] | _ => [] end) fx.

Definition callbacks (fx : list Effect) : list Notification :=
  flat_map (fun e => match e with Callback n => [n] | _ => [] end) fx.

(** The fields of the session, that is, all but the two that only display
    the microphone flag ([toggleBtn], [micStatus]). *)
Definition sameSession (a b : VoiceChat) : Prop :=
  config a = config b
  /\ audioStream a = audioStream b
  /\ audioContext a = audioContext b
  /\ analyser a = analyser b
  /\ microphone a = microphone b
  /\ animationId a = animationId b
  /\ isMicOn a = isMicOn b
  /\ smoothedAmplitude a = smoothedAmplitude b
  /\ startTime a = startTime b
  /\ lastFrameTime a = lastFrameTime b
  /\ voiceEls a = voiceEls b
  /\ endBtn a = endBtn b
  /\ micDevice a = micDevice b
  /\ elementsBound a = elementsBound b
  /\ audioStarted a = audioStarted b
  /\ domObserver a = domObserver b
  /\ mediaRecorder a = mediaRecorder b
  /\ recordedChunks a = recordedChunks b
  /\ onStart a = onStart b
  /\ onToggle a = onToggle b
  /\ onEnd a = onEnd b
  /\ toggleBtnBound a = toggleBtnBound b
  /\ endBtnBound a = endBtnBound b
  /\ document a = document b.

(** The display already shows the flag. *)
Definition displayCurrent (bld : Build) (s : VoiceChat) : Prop :=
  toggleBtn s = option_map (showMic (isMicOn s)) (toggleBtn s)
  /\ match bld with
     | voice_chat_lib =>
       micStatus s = option_map (fun _ => statusText (isMicOn s)) (micStatus s)
     | part_000 => True
     end.

(** An end notification without a clip. *)
Definition withoutClip (n : Notification) : Prop :=
  event n = "end"%string
  /\ audioBlob n = None
  /\ audioMeta n = None
  /\ details n = "VoiceChat session ended (no audio recorded)"%string.

(** The start time a granted request leaves after its first frame, from its
    two readings of the clock. *)
Definition firstBaseline (now0 now1 : Q) : option Q :=
  if Qeq_bool now0 0 then Some now1
  else if Qltb MAX_DELTA (now1 - now0) then Some now1
  else Some now0.

(** A clip of [n] samples that alternate between [x] and [- x]. *)
Fixpoint alternating (n : nat) (x : Q) : list Q :=
  match n with
  | O => []
  | S k => x :: alternating k (- x)
  end.

(** A concrete session: default configuration, a page of two elements and
    the two buttons, one microphone track, callbacks assigned. *)
Definition demoLookup : Lookup := {|
  foundToggleBtn := Some {| disabled := false; isOn := false; isOff := false |};
  foundEndBtn := Some {| disabled := false; isOn := false; isOff := false |};
  foundMicStatus := None;
  foundMicDevice := None;
  foundVoiceEls := [0%nat; 1%nat]
|}.

Definition demoStream : MediaStream :=
  [{| kind := audio; enabled := true; stopped := false; label := Some "Built-in"%string |}].

Definition demoRandom (k : nat) : Q := inject_Z (Z.of_nat (k mod 7)) / 36.

Definition demoIdle : VoiceChat :=
  assignCallbacks (newVoiceChat defaultConfig [freshElement; freshElement]) true true true.

Definition demoBuffer : list Byte.byte := [Byte.x80; Byte.x90; Byte.x70; Byte.xff].

Definition demoCapturing (bld : Build) : VoiceChat :=
  fst (audioGranted bld (fst (start bld demoIdle demoLookup 1000 demoRandom)) demoStream
         1200 1201 demoBuffer 1 recorderStarted 1700000000000).

(** The page gains a node that no call has bound yet. *)
Definition insertNode (s : VoiceChat) : VoiceChat := {|
  config := config s;
  audioStream := audioStream s;
  audioContext := audioContext s;
  analyser := analyser s;
  microphone := microphone s;
  animationId := animationId s;
  isMicOn := isMicOn s;
  smoothedAmplitude := smoothedAmplitude s;
  startTime := startTime s;
  lastFrameTime := lastFrameTime s;
  voiceEls := voiceEls s;
  toggleBtn := toggleBtn s;
  endBtn := endBtn s;
  micStatus := micStatus s;
  micDevice := micDevice s;
  elementsBound := elementsBound s;
  audioStarted := audioStarted s;
  domObserver := domObserver s;
  mediaRecorder := mediaRecorder s;
  recordedChunks := recordedChunks s;
  onStart := onStart s;
  onToggle := onToggle s;
  onEnd := onEnd s;
  toggleBtnBound := toggleBtnBound s;
  endBtnBound := endBtnBound s;
  document := document s ++ [freshElement]
|}.

(** A session that has only heard silence, on a page that has just gained a
    third element; the observer then looks the elements up again. *)
Definition demoSilence : list Byte.byte := [Byte.x80; Byte.x80; Byte.x80; Byte.x80].

Definition demoQuiet (bld : Build) : VoiceChat :=
  insertNode
    (fst (audioGranted bld (fst (start bld demoIdle demoLookup 1000 demoRandom))
            demoStream 1200 1201 demoSilence 1 recorderStarted 1700000000000)).

Definition demoRelookup : Lookup := {|
  foundToggleBtn := foundToggleBtn demoLookup;
  foundEndBtn := foundEndBtn demoLookup;
  foundMicStatus := None;
  foundMicDevice := None;
  foundVoiceEls := [0%nat; 1%nat; 2%nat]
|}.

Definition demoElement (bld : Build) : Element :=
  nth 0 (document (demoCapturing bld)) freshElement.

(** What the stop handler reads when the clip is empty: both reads succeed,
    and an offline context of length 0 cannot be constructed. *)
Definition demoStopIO : StopIO := {|
  randomName := "k3j9x0ab";
  readBinary := Some [];
  readDataURL := Some "data:audio/webm;base64,"%string;
  decoding := contextError "NotSupportedError"
|}.

Definition emptyClip : Blob := {| size := 0; type := "audio/webm" |}.

(** One event of the page: a call of a public method, a browser callback,
    or a change the page makes.  A frame reads an array of
    [frequencyBinCount] bytes. *)
Inductive step (bld : Build) : VoiceChat -> VoiceChat -> Prop :=
| step_start (s : VoiceChat) (q : Lookup) (now : Q) (rand : nat -> Q) :
    step bld s (fst (start bld s q now rand))
| step_granted (s : VoiceChat) (stream : MediaStream) (now0 now1 : Q)
    (dataArray : list Byte.byte) (frame : nat) (rec : Recording) (wall : Z) :
    List.length dataArray = frequencyBinCount {| fftSize := 256 |} ->
    step bld s (fst (audioGranted bld s stream now0 now1 dataArray frame rec wall))
| step_denied (s : VoiceChat) :
    step bld s (fst (audioDenied s))
| step_frame (s : VoiceChat) (a : AnalyserNode) (now : Q)
    (dataArray : list Byte.byte) (frame : nat) :
    analyser s = Some a ->
    List.length dataArray = frequencyBinCount a ->
    step bld s (updateAnimation s now dataArray frame)
| step_rebind (s : VoiceChat) (q : Lookup) (now : Q) (rand : nat -> Q) :
    step bld s (initElements bld s q now rand)
| step_toggle (s : VoiceChat) (wall : Z) :
    step bld s (fst (toggleMic bld s wall))
| step_end (s : VoiceChat) (wall : Z) :
    step bld s (fst (end_ bld s wall))
| step_data (s : VoiceChat) (data : option Blob) :
    step bld s (dataAvailable s data)
| step_reset (s : VoiceChat) :
    step bld s (fst (reset bld s))
| step_insert (s : VoiceChat) :
    step bld s (insertNode s)
| step_callbacks (s : VoiceChat) (start_ toggle_ end__ : bool) :
    step bld s (assignCallbacks s start_ toggle_ end__).

(** The states an instance created with configuration [cfg] can be in. *)
Inductive reachable (bld : Build) (cfg : Config) : VoiceChat -> Prop :=
| reach_new (page : list Element) : reachable bld cfg (newVoiceChat cfg page)
| reach_step (s s' : VoiceChat) :
    reachable bld cfg s -> step bld s s' -> reachable bld cfg s'.

Definition wellFormed (cfg : Config) (s : VoiceChat) : Prop :=
  config s = cfg
  /\ (forall a, analyser s = Some a -> fftSize a = 256%nat)
  /\ (exists r, smoothedAmplitude s = Num r /\ 0 <= r <= 1).

(** A session whose audio has started has a start time. *)
Definition timed (s : VoiceChat) : Prop :=
  audioStarted s = true -> exists t0, startTime s = Some t0.

(** ** The formulas of the specification *)

Module Spec.

Definition sum (l : list Q) : Q := fold_right Qplus 0 l.

(** mean(l); NaN for the empty list, as [0 / 0]. *)
Definition mean (l : list Q) : number := ndiv (Num (sum l)) (lengthQ l).

(** average = mean(|sample - 128|) *)
Definition average (buffer : list Byte.byte) : number :=
  mean (map (fun b => Qabs (sample b - 128)) buffer).

(** normalized = average / 128 *)
Definition normalized (buffer : list Byte.byte) : number :=
  ndiv (average buffer) 128.

(** smoothed = smoothed * (1 - alpha) + normalized * alpha *)
Definition smoothed (alpha : Q) (prior input : number) : number :=
  nadd (nmul prior (nsub (Num 1) (Num alpha))) (nmul input (Num alpha)).

(** lerp(a, b, t) = a + t * (b - a) *)
Definition lerp (a b t : number) : number := nadd a (nmul t (nsub b a)).

(** targetRotation =
    offset + effectiveTime * speed / rotationDivisor
           + smoothedAmplitude * maxAdditionalRotation *)
Definition targetRotation (cfg : Config) (amplitude : number) (effectiveTime : Q)
    (offset speed : number) : number :=
  nadd (nadd offset
             (ndiv (nmul (Num effectiveTime) speed) (baseRotationDivisor cfg)))
       (nmul amplitude (Num (maxAdditionalRotation cfg))).

(** targetScale = 1 + smoothedAmplitude * scaleMultiplier * baseScaleMultiplier *)
Definition targetScale (cfg : Config) (amplitude scaleMultiplier : number) : number :=
  nadd (Num 1)
       (nmul (nmul amplitude scaleMultiplier) (Num (baseScaleMultiplier cfg))).

(** lerpFactor = dynamicLerpMin + smoothedAmplitude * dynamicLerpAudioMultiplier *)
Definition lerpFactor (cfg : Config) (amplitude : number) : number :=
  nadd (Num (dynamicLerpMin cfg))
       (nmul amplitude (Num (dynamicLerpAudioMultiplier cfg))).

(** currentRotation = lerp(currentRotation, targetRotation, lerpFactor); same
    for scale: [el'] is [el] after the update. *)
Definition moved (cfg : Config) (amplitude : number) (effectiveTime : Q)
    (el el' : Element) : Prop :=
  currentRotation el'
  = lerp (currentRotation el)
      (targetRotation cfg amplitude effectiveTime (offset el) (speed el))
      (lerpFactor cfg amplitude)
  /\ currentScale el'
     = lerp (currentScale el)
         (targetScale cfg amplitude (scaleMultiplier el))
         (lerpFactor cfg amplitude).

(** meanAmplitude: mean absolute amplitude of the first channel *)
Definition meanAmplitude (channel : list Q) : number := mean (map Qabs channel).

(** isMostlySilence = meanAmplitude < 0.02 *)
Definition isMostlySilence (channel : list Q) : bool :=
  nltb (meanAmplitude channel) (2 # 100).

End Spec.

(** ** Notions used by the further properties *)

(** [(1 - alpha) ^ n] *)
Fixpoint decay (alpha : Q) (n : nat) : Q :=
  match n with
  | O => 1
  | S k => (1 - alpha) * decay alpha k
  end.

(** A clock that never runs backwards over the frames, starting at [t]. *)
Fixpoint clockAdvances (t : Q) (frames : list (Q * list Byte.byte * nat)) : Prop :=
  match frames with
  | [] => True
  | f :: rest => t <= fst (fst f) /\ clockAdvances (fst (fst f)) rest
  end.

(** The ranges of the random parameters of a bound element. *)
Definition parametersInRange (el : Element) : Prop :=
  exists o sp sm ox oy,
    offset el = Num o /\ 0 <= o <= 360 /\ (exists z, o == inject_Z z)
    /\ speed el = Num sp /\ 1 <= sp <= 3
    /\ scaleMultiplier el = Num sm /\ 1 <= sm <= 5 # 2
    /\ transformOrigin el = Some (ox, oy) /\ 45 <= ox <= 55 /\ 45 <= oy <= 55.

(** [Math.random()] returns a number in [0, 1). *)
Definition unitRandom (rand : nat -> Q) : Prop := forall k, 0 <= rand k < 1.

(** [toggleMic()] called once for every [Date.now()] reading of [walls]. *)
Fixpoint toggleRun (bld : Build) (s : VoiceChat) (walls : list Z)
  : VoiceChat * list Effect :=
  match walls with
  | [] => (s, [])
  | wall :: rest =>
    let (s1, fx1) := toggleMic bld s wall in
    let (s2, fx2) := toggleRun bld s1 rest in
    (s2, fx1 ++ fx2)
  end.

(** The [dataavailable] events of a recorder, in the order they fire. *)
Definition dataEvents (s : VoiceChat) (datas : list (option Blob)) : VoiceChat :=
  fold_left dataAvailable datas s.

(** The bytes those events deliver. *)
Definition delivered (datas : list (option Blob)) : N :=
  fold_right (fun d acc => (match d with Some b => size b | None => 0 end + acc)%N)
             0%N datas.

(** ** The configuration object, the options and the singleton *)

(** What an element key is bound to: a selector, a node or a list of nodes. *)
Inductive ElementParam : Type :=
| selector (text : string)
| element (node : nat)
| elementList (nodes : list nat).

(** An object with string keys, in the order the keys were added. *)
Definition Obj (A : Type) : Type := list (string * A).

(** [o[k]] *)
Fixpoint get {A : Type} (k : string) (o : Obj A) : option A :=
  match o with
  | [] => None
  | (k', v) :: rest => if String.eqb k k' then Some v else get k rest
  end.

(** [o[k] = v] *)
Fixpoint assign {A : Type} (k : string) (v : A) (o : Obj A) : Obj A :=
  match o with
  | [] => [(k, v)]
  | (k', v') :: rest =>
    if String.eqb k k' then (k, v) :: rest else (k', v') :: assign k v rest
  end.

(** The own properties of an options object: its numeric properties, and the
    object under the key "elements" when it has one.  The code stores
    whatever value a property holds; properties that hold something other
    than a number are not modelled. *)
Record Options : Type := {
  settings : Obj Q;
  elementsOption : option (Obj ElementParam)
}.

(** [this.config] *)
Record ConfigObject : Type := {
  tunables : Obj Q;
  elements : Obj ElementParam
}.

(** The outer [for ... in] loop; a numeric property named "elements" enters
    the inner loop, which has nothing to iterate over. *)
Definition assignSettings (from to : Obj Q) : Obj Q :=
  fold_left (fun acc kv =>
               if String.eqb (fst kv) "elements" then acc
               else assign (fst kv) (snd kv) acc)
            from to.

(** The inner [for ... in] loop. *)
Definition assignElements (from to : Obj ElementParam) : Obj ElementParam :=
  fold_left (fun acc kv => assign (fst kv) (snd kv) acc) from to.

Definition mergeOptions (c : ConfigObject) (o : Options) : ConfigObject := {|
  tunables := assignSettings (settings o) (tunables c);
  elements := match elementsOption o with
              | Some e => assignElements e (elements c)
              | None => elements c
              end
|}.

Definition defaultTunables : Obj Q := [
  ("amplitudeSmoothFactorVar"%string, 3 # 10);
  ("baseRotationDivisor"%string, 16);
  ("dynamicLerpMin"%string, 5 # 100);
  ("dynamicLerpAudioMultiplier"%string, 1 # 2);
  ("maxAdditionalRotation"%string, 360);
  ("baseScaleMultiplier"%string, 2)
].

Definition defaultElements (bld : Build) : Obj ElementParam :=
  match bld with
  | voice_chat_lib =>
    [("toggleBtn"%string, selector "#toggleMicBtn");
     ("endBtn"%string, selector "#endChatBtn");
     ("micStatus"%string, selector "#micStatus");
     ("micDevice"%string, selector "#micDevice");
     ("voiceEls"%string, selector ".a-cue-voice-el")]
  | part_000 =>
    [("toggleBtn"%string, selector "#toggleMicBtn");
     ("endBtn"%string, selector "#endChatBtn");
     ("voiceEls"%string, selector ".a-cue-voice-el")]
  end.

Definition defaultObject (bld : Build) : ConfigObject :=
  {| tunables := defaultTunables; elements := defaultElements bld |}.

(** The six tunables the animation reads, when all of them are defined. *)
Definition readConfig (c : ConfigObject) : option Config :=
  match get "amplitudeSmoothFactorVar" (tunables c),
        get "baseRotationDivisor" (tunables c),
        get "dynamicLerpMin" (tunables c),
        get "dynamicLerpAudioMultiplier" (tunables c),
        get "maxAdditionalRotation" (tunables c),
        get "baseScaleMultiplier" (tunables c) with
  | Some a, Some b, Some c1, Some d, Some e, Some f =>
    Some {| amplitudeSmoothFactorVar := a;
            baseRotationDivisor := b;
            dynamicLerpMin := c1;
            dynamicLerpAudioMultiplier := d;
            maxAdditionalRotation := e;
            baseScaleMultiplier := f |}
  | _, _, _, _, _, _ => None
  end.

Definition withConfig (s : VoiceChat) (cfg : Config) : VoiceChat := {|
  config := cfg;
  audioStream := audioStream s;
  audioContext := audioContext s;
  analyser := analyser s;
  microphone := microphone s;
  animationId := animationId s;
  isMicOn := isMicOn s;
  smoothedAmplitude := smoothedAmplitude s;
  startTime := startTime s;
  lastFrameTime := lastFrameTime s;
  voiceEls := voiceEls s;
  toggleBtn := toggleBtn s;
  endBtn := endBtn s;
  micStatus := micStatus s;
  micDevice := micDevice s;
  elementsBound := elementsBound s;
  audioStarted := audioStarted s;
  domObserver := domObserver s;
  mediaRecorder := mediaRecorder s;
  recordedChunks := recordedChunks s;
  onStart := onStart s;
  onToggle := onToggle s;
  onEnd := onEnd s;
  toggleBtnBound := toggleBtnBound s;
  endBtnBound := endBtnBound s;
  document := document s
|}.

(** The instance with its whole configuration object; [session] reads the
    six tunables from it.  (No tunable ever goes missing, so the second case
    of [refresh] does not arise.) *)
Record Instance : Type := {
  configObject : ConfigObject;
  session : VoiceChat
}.

Definition refresh (s : VoiceChat) (c : ConfigObject) : VoiceChat :=
  match readConfig c with
  | Some cfg => withConfig s cfg
  | None => s
  end.

(** [new VoiceChat(options)] on a page whose visual elements are [page]. *)
Definition construct (bld : Build) (o : Options) (page : list Element) : Instance :=
  let c := mergeOptions (defaultObject bld) o in
  {| configObject := c;
     session := refresh (newVoiceChat defaultConfig page) c |}.

Definition setOptions (i : Instance) (o : Options) : Instance :=
  let c := mergeOptions (configObject i) o in
  {| configObject := c; session := refresh (session i) c |}.

Definition noOptions : Options := {| settings := []; elementsOption := None |}.

(** [VoiceChatLib.getInstance(options)]; [instance] is the module's variable,
    and the instance returned is also its new value. *)
Definition getInstance (bld : Build) (instance : option Instance)
    (options : option Options) (page : list Element) : Instance :=
  match instance with
  | None =>
    construct bld (match options with Some o => o | None => noOptions end) page
  | Some i =>
    match options with
    | Some o => setOptions i o
    | None => i
    end
  end.

(** The keys of an object are distinct. *)
Definition distinctKeys {A : Type} (o : Obj A) : Prop := NoDup (map fst o).

(** Successive [setOptions] calls. *)
Definition setOptionsAll (i : Instance) (os : list Options) : Instance :=
  fold_left setOptions os i.

(** Successive [getInstance] calls on one page, each with or without options;
    the module's variable is threaded through. *)
Definition getInstanceAll (bld : Build) (instance : option Instance)
    (calls : list (option Options)) (page : list Element) : option Instance :=
  fold_left (fun inst options => Some (getInstance bld inst options page))
            calls instance.

(** The options given in a series of calls. *)
Definition given (calls : list (option Options)) : list Options :=
  flat_map (fun options => match options with Some o => [o] | None => [] end) calls.

(** ** Binary64 arithmetic

    The numbers of the program are binary64 values: every [+], [-], [*] and
    [/] returns the exact result rounded to the nearest value with 53
    significant bits (ties to the even one), on a grid no finer than
    [2^-1074], and an infinity from [2^1024] on.  The definitions below write
    this rounding out over the rationals; the smoothing assignment of
    [updateAnimation] and the loop of [analyzeAudio] are then given once more
    with every operation rounded. *)

(** [2^z] *)
Definition pow2 (z : Z) : Q := 2 ^ z.

(** The exponent [e] with [2^e <= x < 2^(e+1)], for [x > 0]. *)
Definition ilog2 (x : Q) : Z :=
  let e := (Z.log2 (Qnum x) - Z.log2 (Zpos (Qden x)))%Z in
  if Qle_bool (pow2 e) x then e else (e - 1)%Z.

(** The exponent of the unit in the last place of [x]. *)
Definition ulpExponent (x : Q) : Z := Z.max (ilog2 (Qabs x) - 52) (-1074).

(** The nearest integer, the even one of two that are equally near. *)
Definition roundTiesToEven (x : Q) : Z :=
  let f := Qfloor x in
  match Qcompare (x - inject_Z f) (1 # 2) with
  | Lt => f
  | Gt => (f + 1)%Z
  | Eq => if Z.even f then f else (f + 1)%Z
  end.

(** The binary64 value nearest to [x], short of overflow. *)
Definition round64 (x : Q) : Q :=
  inject_Z (roundTiesToEven (x / pow2 (ulpExponent x))) * pow2 (ulpExponent x).

(** The result of an operation as the program holds it. *)
Definition fl (x : number) : number :=
  match x with
  | Num q =>
    let r := round64 q in
    if Qle_bool (pow2 1024) (Qabs r) then NonFinite else Num r
  | NonFinite => NonFinite
  end.

(** [average] and [amplitudeNormalized] of [updateAnimation].  The sum of
    the loop is a whole number below [2^53] for every buffer of fewer than
    [2^46] bytes, so its additions are exact. *)
Definition amplitudeNormalized64 (dataArray : list Byte.byte) : number :=
  let sum := sumLoop dataArray in
  let average := fl (ndiv (Num sum) (lengthQ dataArray)) in
  fl (ndiv average 128).

(** The smoothing assignment of [updateAnimation]:
    [smoothed * (1 - alpha) + (normalized * alpha)], where [alpha] is the
    binary64 value of the configured factor. *)
Definition smoothStep64 (cfg : Config) (smoothed normalized : number) : number :=
  let alpha := fl (Num (amplitudeSmoothFactorVar cfg)) in
  fl (nadd (fl (nmul smoothed (fl (nsub (Num 1) alpha))))
           (fl (nmul normalized alpha))).

(** The smoothed amplitude after one more frame on the buffer [dataArray]. *)
Definition sampler64 (cfg : Config) (dataArray : list Byte.byte) (smoothed : number)
  : number :=
  smoothStep64 cfg smoothed (amplitudeNormalized64 dataArray).

(** The success callback of [decodeAudioData]: the samples are binary32
    values, which binary64 holds exactly, [Math.abs] is exact, and the sum is
    rounded after every addition, in the order of the array. *)
Definition analyzeChannel64 (channelData : list Q) : Analysis :=
  let sum := fold_left (fun sum x => fl (nadd sum (Num (Qabs x)))) channelData (Num 0) in
  let avg := fl (ndiv sum (lengthQ channelData)) in
  {| isMostlySilence := nltb avg (round64 (2 # 100)); avgAmplitude := avg |}.

(** A clip of eight binary32 samples, and the same samples in another order. *)
Definition quietClip : list Q :=
  [5368709 * pow2 (-25); 16106127 * pow2 (-52); pow2 (-54);
   pow2 (-57); pow2 (-57); pow2 (-57); pow2 (-57); 0].

Definition quietClipReordered : list Q :=
  [16106127 * pow2 (-52); pow2 (-54); pow2 (-57); pow2 (-57); pow2 (-57);
   5368709 * pow2 (-25); pow2 (-57); 0].

(** *** The kernel's binary64 numbers

    Rocq's primitive floating-point numbers are binary64 as well; they are
    used to check [round64] against an implementation. *)

(** The rational that a finite primitive float denotes. *)
Definition float_value (f : PrimFloat.float) : option Q :=
  match FloatOps.Prim2SF f with
  | SpecFloat.S754_zero _ => Some 0
  | SpecFloat.S754_finite s m e =>
    Some ((if s then -1 else 1) * inject_Z (Zpos m) * pow2 e)
  | _ => None
  end.

Definition float_of_Z (z : Z) : PrimFloat.float := PrimFloat.of_uint63 (Uint63.of_Z z).

Definition agrees (f : PrimFloat.float) (x : Q) : bool :=
  match float_value f with
  | Some v => Qeq_bool v x
  | None => false
  end.

Definition upTo (n : nat) : list Z := map Z.of_nat (seq 0 n).

(** [n / d] for [0 <= n < 24] and [1 <= d <= 24]. *)
Definition checkedQuotients : bool :=
  forallb (fun n =>
    forallb (fun d =>
      agrees (PrimFloat.div (float_of_Z n) (float_of_Z (d + 1)))
             (round64 (inject_Z n / inject_Z (d + 1))))
      (upTo 24))
    (upTo 24).

(** Products, sums and differences (negative ones among them) of the
    binary64 values of [n / 10] and [m / 7], and products that fall among the
    subnormal numbers. *)
Definition checkedOperations : bool :=
  forallb (fun n =>
    forallb (fun m =>
      let fu := PrimFloat.div (float_of_Z n) (float_of_Z 10) in
      let fv := PrimFloat.div (float_of_Z m) (float_of_Z 7) in
      let u := round64 (inject_Z n / 10) in
      let v := round64 (inject_Z m / 7) in
      agrees (PrimFloat.mul fu fv) (round64 (u * v))
      && agrees (PrimFloat.add fu fv) (round64 (u + v))
      && agrees (PrimFloat.sub fu fv) (round64 (u - v))
      && agrees (PrimFloat.mul fu (FloatOps.Z.ldexp fv (-1070)))
                (round64 (u * round64 (v * pow2 (-1070)))))
      (upTo 12))
    (upTo 12).

(** The smoothing assignment on primitive floats, at prior = input = 3/16384
    and the default factor 0.3. *)
Definition smoothing64_example : PrimFloat.float :=
  let p := PrimFloat.div (float_of_Z 3) (float_of_Z 16384) in
  let alpha := PrimFloat.div (float_of_Z 3) (float_of_Z 10) in
  PrimFloat.add (PrimFloat.mul p (PrimFloat.sub (float_of_Z 1) alpha))
                (PrimFloat.mul p alpha).

(** The loop of [analyzeAudio] on primitive floats. *)
Definition analyze64_example (channelData : list PrimFloat.float) : PrimFloat.float :=
  PrimFloat.div
    (fold_left (fun sum x => PrimFloat.add sum (PrimFloat.abs x)) channelData
               (float_of_Z 0))
    (float_of_Z (Z.of_nat (List.length channelData))).

Definition float_sample (m e : Z) : PrimFloat.float := FloatOps.Z.ldexp (float_of_Z m) e.

Definition quietClipFloats : list PrimFloat.float :=
  [float_sample 5368709 (-25); float_sample 16106127 (-52); float_sample 1 (-54);
   float_sample 1 (-57); float_sample 1 (-57); float_sample 1 (-57);
   float_sample 1 (-57); float_of_Z 0].

Definition quietClipReorderedFloats : list PrimFloat.float :=
  [float_sample 16106127 (-52); float_sample 1 (-54); float_sample 1 (-57);
   float_sample 1 (-57); float_sample 1 (-57); float_sample 5368709 (-25);
   float_sample 1 (-57); float_of_Z 0].

(** * Properties *)

(** ** Arithmetic of [number] *)

Lemma num_eq_refl (x : number) : x =n= x.
Proof. destruct x; simpl; [reflexivity | exact I]. Qed.

Lemma num_eq_sym (x y : number) : x =n= y -> y =n= x.
Proof. destruct x, y; simpl; auto. intro H; symmetry; exact H. Qed.

Lemma num_eq_trans (x y z : number) : x =n= y -> y =n= z -> x =n= z.
Proof.
  destruct x, y, z; simpl; auto; try contradiction.
  intros H1 H2; rewrite H1; exact H2.
Qed.

Lemma lift2_compat (f : Q -> Q -> Q) :
  (forall a a' b b', a == a' -> b == b' -> f a b == f a' b') ->
  forall x x' y y', x =n= x' -> y =n= y' -> lift2 f x y =n= lift2 f x' y'.
Proof.
  intros Hf x x' y y' Hx Hy.
  destruct x, x', y, y'; simpl in *; auto; contradiction.
Qed.

Lemma nadd_compat (x x' y y' : number) :
  x =n= x' -> y =n= y' -> nadd x y =n= nadd x' y'.
Proof. apply lift2_compat. intros a a' b b' Ha Hb. rewrite Ha, Hb. reflexivity. Qed.

Lemma nmul_compat (x x' y y' : number) :
  x =n= x' -> y =n= y' -> nmul x y =n= nmul x' y'.
Proof. apply lift2_compat. intros a a' b b' Ha Hb. rewrite Ha, Hb. reflexivity. Qed.

Lemma ndiv_compat (x x' : number) (d : Q) : x =n= x' -> ndiv x d =n= ndiv x' d.
Proof.
  destruct x, x'; simpl; try (intros; contradiction); auto.
  intro H. destruct (Qeq_bool d 0); simpl; [exact I | rewrite H; reflexivity].
Qed.

Lemma lengthQ_nonzero {A : Type} (l : list A) : l <> [] -> Qeq_bool (lengthQ l) 0 = false.
Proof.
  intro H. destruct l as [|a l]; [contradiction|].
  destruct (Qeq_bool (lengthQ (a :: l)) 0) eqn:E; [|reflexivity].
  apply Qeq_bool_eq in E. unfold lengthQ, Qeq in E. simpl in E. lia.
Qed.

Lemma lengthQ_map {A B : Type} (f : A -> B) (l : list A) :
  lengthQ (map f l) = lengthQ l.
Proof. unfold lengthQ. rewrite length_map. reflexivity. Qed.

(** ** The sampling loop *)

Lemma fold_left_sum {A : Type} (f : A -> Q) (l : list A) (acc : Q) :
  fold_left (fun sum a => sum + f a) l acc == acc + Spec.sum (map f l).
Proof.
  revert acc. induction l as [|a l IH]; intro acc; simpl.
  - ring.
  - rewrite IH. ring.
Qed.

Lemma sumLoop_is_sum (dataArray : list Byte.byte) :
  sumLoop dataArray == Spec.sum (map (fun b => Qabs (sample b - 128)) dataArray).
Proof. unfold sumLoop. rewrite fold_left_sum. ring. Qed.

Lemma amplitudeNormalized_spec (dataArray : list Byte.byte) :
  amplitudeNormalized dataArray =n= Spec.normalized dataArray.
Proof.
  unfold amplitudeNormalized, Spec.normalized, Spec.average, Spec.mean.
  apply ndiv_compat. rewrite lengthQ_map.
  apply ndiv_compat. simpl. apply sumLoop_is_sum.
Qed.

Lemma updateAnimation_smoothed (s : VoiceChat) (now : Q) (dataArray : list Byte.byte)
    (frame : nat) :
  analyser s <> None ->
  smoothedAmplitude (updateAnimation s now dataArray frame)
  = smoothStep (config s) (smoothedAmplitude s) (amplitudeNormalized dataArray).
Proof.
  intro H. unfold updateAnimation.
  destruct (analyser s); [reflexivity | contradiction].
Qed.

(** C1.  On every frame that has an analyser, for the buffer of unsigned
    bytes the frame reads, the smoothed amplitude becomes
    smoothed * (1 - alpha) + normalized * alpha, where
    normalized = average / 128, average = mean(|sample - 128|) and alpha is
    the configured smoothing factor; the default factor is 0.3. *)
Theorem sampler_updates_smoothed_amplitude (s : VoiceChat) (now : Q)
    (dataArray : list Byte.byte) (frame : nat) :
  analyser s <> None ->
  smoothedAmplitude (updateAnimation s now dataArray frame)
    =n= Spec.smoothed (amplitudeSmoothFactorVar (config s)) (smoothedAmplitude s)
          (Spec.normalized dataArray)
  /\ Spec.normalized dataArray = ndiv (Spec.average dataArray) 128
  /\ Spec.average dataArray
     = Spec.mean (map (fun b => Qabs (sample b - 128)) dataArray)
  /\ amplitudeSmoothFactorVar defaultConfig == 3 # 10.
Proof.
  intro H. repeat split; try reflexivity.
  rewrite (updateAnimation_smoothed s now dataArray frame H).
  unfold smoothStep, Spec.smoothed.
  apply nadd_compat.
  - apply num_eq_refl.
  - apply nmul_compat; [apply amplitudeNormalized_spec | apply num_eq_refl].
Qed.

Lemma sampler_updates_smoothed_amplitude_witness :
  analyser (demoCapturing part_000) <> None /\
  smoothedAmplitude (updateAnimation (demoCapturing part_000) 1217 demoBuffer 2)
    =n= Spec.smoothed (3 # 10) (smoothedAmplitude (demoCapturing part_000))
          (Spec.normalized demoBuffer).
Proof.
  assert (H : analyser (demoCapturing part_000) <> None) by (vm_compute; discriminate).
  split; [exact H |].
  exact (proj1 (sampler_updates_smoothed_amplitude (demoCapturing part_000) 1217
                  demoBuffer 2 H)).
Defined.

(** The same update written out for a buffer that is not empty and a finite
    prior value. *)
Lemma sampler_closed_form (s : VoiceChat) (now : Q) (dataArray : list Byte.byte)
    (frame : nat) (prior : Q) :
  analyser s <> None -> dataArray <> [] -> smoothedAmplitude s = Num prior ->
  smoothedAmplitude (updateAnimation s now dataArray frame)
  = Num (prior * (1 - amplitudeSmoothFactorVar (config s))
         + sumLoop dataArray / lengthQ dataArray / 128
           * amplitudeSmoothFactorVar (config s)).
Proof.
  intros Ha Hne Hp. rewrite (updateAnimation_smoothed s now dataArray frame Ha).
  unfold smoothStep, amplitudeNormalized. rewrite Hp. simpl.
  rewrite (lengthQ_nonzero dataArray Hne). reflexivity.
Qed.

(** ** Boundedness of the smoothing *)

Lemma smoothStep_finite (cfg : Config) (p x : Q) :
  smoothStep cfg (Num p) (Num x)
  = Num (p * (1 - amplitudeSmoothFactorVar cfg) + x * amplitudeSmoothFactorVar cfg).
Proof. reflexivity. Qed.

Lemma convex_between (a p x : Q) :
  0 < a <= 1 -> Qmin p x <= p * (1 - a) + x * a <= Qmax p x.
Proof.
  intros [Ha0 Ha1].
  destruct (Qlt_le_dec p x) as [Hlt | Hle].
  - rewrite (Q.min_l p x), (Q.max_r p x) by lra. split; nra.
  - rewrite (Q.min_r p x), (Q.max_l p x) by lra. split; nra.
Qed.

Lemma convex_unit (a p x : Q) :
  0 < a <= 1 -> 0 <= p <= 1 -> 0 <= x <= 1 -> 0 <= p * (1 - a) + x * a <= 1.
Proof. intros [Ha0 Ha1] [Hp0 Hp1] [Hx0 Hx1]. split; nra. Qed.

Lemma smoothing_run_unit (cfg : Config) (inputs : list Q) (p : Q) :
  0 < amplitudeSmoothFactorVar cfg <= 1 ->
  0 <= p <= 1 ->
  (forall x, In x inputs -> 0 <= x <= 1) ->
  exists r, fold_left (smoothStep cfg) (map Num inputs) (Num p) = Num r
            /\ 0 <= r <= 1.
Proof.
  intros Ha. revert p. induction inputs as [|x inputs IH]; intros p Hp Hin; simpl.
  - exists p. split; [reflexivity | exact Hp].
  - apply IH.
    + apply convex_unit; [exact Ha | exact Hp | apply Hin; left; reflexivity].
    + intros y Hy. apply Hin. right. exact Hy.
Qed.

Lemma in_prefix {A : Type} (k : nat) (l : list A) (x : A) :
  In x (firstn k l) -> In x l.
Proof.
  revert l. induction k as [|k IH]; intros [|a l]; simpl; try tauto.
  intros [H | H]; [left; exact H | right; apply IH; exact H].
Qed.

(** The exact value of the smoothing formula.  For a smoothing factor alpha
    in (0, 1] it lies between min(prior, input) and max(prior, input); hence,
    from 0 and with every input in [0, 1], it is in [0, 1] after every update
    of a sequence.  (What the code stores is this value rounded to binary64:
    see [smoothStep64].) *)
Lemma smoothing_formula_is_convex (cfg : Config) :
  0 < amplitudeSmoothFactorVar cfg <= 1 ->
  (forall prior input : Q,
     exists r, smoothStep cfg (Num prior) (Num input) = Num r
               /\ Qmin prior input <= r <= Qmax prior input)
  /\
  (forall inputs : list Q,
     (forall x, In x inputs -> 0 <= x <= 1) ->
     forall k : nat,
       exists r, fold_left (smoothStep cfg) (map Num (firstn k inputs)) (Num 0) = Num r
                 /\ 0 <= r <= 1).
Proof.
  intro Ha. split.
  - intros p x. eexists. split; [apply smoothStep_finite | apply convex_between; exact Ha].
  - intros inputs Hin k. apply smoothing_run_unit; [exact Ha | lra |].
    intros x Hx. apply Hin. apply (in_prefix k inputs x Hx).
Qed.

(** The inputs the program itself produces are in [0, 1]. *)

Lemma sample_range (b : Byte.byte) : 0 <= sample b <= 255.
Proof.
  unfold sample. pose proof (Byte.to_N_bounded b) as H.
  split; unfold Qle; simpl; lia.
Qed.

Lemma deviation_range (b : Byte.byte) : 0 <= Qabs (sample b - 128) <= 128.
Proof.
  split; [apply Qabs_nonneg |].
  apply Qabs_Qle_condition. pose proof (sample_range b). lra.
Qed.

Lemma lengthQ_cons {A : Type} (a : A) (l : list A) : lengthQ (a :: l) == lengthQ l + 1.
Proof.
  unfold lengthQ. cbn [List.length]. rewrite Nat2Z.inj_succ. unfold Z.succ.
  rewrite inject_Z_plus. reflexivity.
Qed.

Lemma lengthQ_nonneg {A : Type} (l : list A) : 0 <= lengthQ l.
Proof. unfold lengthQ, Qle. simpl. lia. Qed.

Lemma deviation_sum_range (l : list Byte.byte) :
  0 <= Spec.sum (map (fun b => Qabs (sample b - 128)) l) <= 128 * lengthQ l.
Proof.
  induction l as [|b l IH].
  - split; unfold Qle; simpl; lia.
  - rewrite lengthQ_cons. cbn [map Spec.sum fold_right].
    change (fold_right Qplus 0 (map (fun b0 => Qabs (sample b0 - 128)) l))
      with (Spec.sum (map (fun b0 => Qabs (sample b0 - 128)) l)).
    pose proof (deviation_range b). lra.
Qed.

Lemma amplitudeNormalized_unit (dataArray : list Byte.byte) :
  dataArray <> [] ->
  exists x, amplitudeNormalized dataArray = Num x /\ 0 <= x <= 1.
Proof.
  intro Hne. unfold amplitudeNormalized. simpl.
  rewrite (lengthQ_nonzero dataArray Hne). simpl.
  eexists. split; [reflexivity |].
  pose proof (deviation_sum_range dataArray) as [H0 H1].
  rewrite <- sumLoop_is_sum in H0, H1.
  assert (Hn : 0 < lengthQ dataArray).
  { destruct dataArray as [|b l]; [contradiction |].
    rewrite lengthQ_cons. pose proof (lengthQ_nonneg l). lra. }
  split.
  - apply Qle_shift_div_l; [lra |]. apply Qle_shift_div_l; [exact Hn | lra].
  - apply Qle_shift_div_r; [lra |]. apply Qle_shift_div_r; [exact Hn | lra].
Qed.

Lemma updateAnimation_keeps (s : VoiceChat) (now : Q) (dataArray : list Byte.byte)
    (frame : nat) :
  analyser (updateAnimation s now dataArray frame) = analyser s
  /\ config (updateAnimation s now dataArray frame) = config s.
Proof. unfold updateAnimation. destruct (analyser s) eqn:E; simpl; auto. Qed.

(** From a smoothed amplitude in [0, 1], in particular from the 0 of a new
    instance, any run of frames over non-empty buffers keeps it in [0, 1]. *)
Lemma frames_keep_amplitude_in_unit (frames : list (Q * list Byte.byte * nat)) :
  forall (s : VoiceChat) (p : Q),
    analyser s <> None ->
    0 < amplitudeSmoothFactorVar (config s) <= 1 ->
    smoothedAmplitude s = Num p -> 0 <= p <= 1 ->
    (forall f, In f frames -> snd (fst f) <> []) ->
    exists r, smoothedAmplitude (runFrames s frames) = Num r /\ 0 <= r <= 1.
Proof.
  induction frames as [|[[now dataArray] frame] frames IH]; intros s p Han Ha Hs Hp Hne.
  - exists p. split; [exact Hs | exact Hp].
  - simpl.
    destruct (updateAnimation_keeps s now dataArray frame) as [Ka Kc].
    destruct (amplitudeNormalized_unit dataArray) as [x [Hx Hx01]].
    { apply (Hne (now, dataArray, frame)). left. reflexivity. }
    apply (IH _ (p * (1 - amplitudeSmoothFactorVar (config s))
                 + x * amplitudeSmoothFactorVar (config s))).
    + rewrite Ka. exact Han.
    + rewrite Kc. exact Ha.
    + rewrite (updateAnimation_smoothed s now dataArray frame Han), Hs, Hx.
      reflexivity.
    + apply convex_unit; assumption.
    + intros f Hf. apply Hne. right. exact Hf.
Qed.

(** ** The page as a store *)

Lemma setNode_same (page : list Element) (i : nat) (el old : Element) :
  nth_error page i = Some old -> nth_error (setNode page i el) i = Some el.
Proof.
  revert i. induction page as [|e page IH]; intros [|i] H; simpl in *;
    try discriminate; auto.
Qed.

Lemma setNode_other (page : list Element) (i j : nat) (el : Element) :
  i <> j -> nth_error (setNode page i el) j = nth_error page j.
Proof.
  revert i j. induction page as [|e page IH]; intros [|i] [|j] H; simpl;
    try reflexivity; try contradiction.
  apply IH. intro E. apply H. rewrite E. reflexivity.
Qed.

Lemma setNode_length (page : list Element) (i : nat) (el : Element) :
  List.length (setNode page i el) = List.length page.
Proof.
  revert i. induction page as [|e page IH]; intros [|i]; simpl; auto.
Qed.

Lemma visit_other (f : Element -> Element) (page : list Element) (i j : nat) :
  i <> j -> nth_error (visit f page i) j = nth_error page j.
Proof.
  intro H. unfold visit. destruct (nth_error page i); [|reflexivity].
  apply setNode_other. exact H.
Qed.

Lemma visit_same (f : Element -> Element) (page : list Element) (i : nat)
    (el : Element) :
  nth_error page i = Some el -> nth_error (visit f page i) i = Some (f el).
Proof.
  intro H. unfold visit. rewrite H. apply (setNode_same page i (f el) el H).
Qed.

Lemma forEach_untouched (f : Element -> Element) (els : list nat) :
  forall (page : list Element) (j : nat),
    ~ In j els -> nth_error (forEach f els page) j = nth_error page j.
Proof.
  unfold forEach. induction els as [|i els IH]; intros page j Hj; simpl.
  - reflexivity.
  - rewrite IH.
    + apply visit_other. intro E. apply Hj. left. exact E.
    + intro H. apply Hj. right. exact H.
Qed.

(** A node that [voiceEls] holds once is visited once. *)
Lemma forEach_visits_once (f : Element -> Element) (els : list nat) :
  forall (page : list Element) (i : nat) (el : Element),
    NoDup els -> In i els -> nth_error page i = Some el ->
    nth_error (forEach f els page) i = Some (f el).
Proof.
  induction els as [|j els IH]; intros page i el Hnd Hin Hel.
  - contradiction.
  - inversion Hnd as [|j' els' Hnotin Hnd']; subst.
    destruct (Nat.eq_dec j i) as [E | NE].
    + subst j. change (forEach f (i :: els) page) with (forEach f els (visit f page i)).
      rewrite (forEach_untouched f els _ i Hnotin).
      apply visit_same. exact Hel.
    + change (forEach f (j :: els) page) with (forEach f els (visit f page j)).
      apply IH.
      * exact Hnd'.
      * destruct Hin as [E | H]; [contradiction | exact H].
      * rewrite (visit_other f page j i NE). exact Hel.
Qed.

(** ** The motion mapper *)

(** One visit of the loop body, against the formulas. *)
Lemma animate_spec (cfg : Config) (amplitude : number) (effectiveTime : Q)
    (el : Element) :
  let el' := animate cfg amplitude effectiveTime el in
  currentRotation el'
  = Spec.lerp (currentRotation el)
      (Spec.targetRotation cfg amplitude effectiveTime (offset el) (speed el))
      (Spec.lerpFactor cfg amplitude)
  /\ currentScale el'
     = Spec.lerp (currentScale el)
         (Spec.targetScale cfg amplitude (scaleMultiplier el))
         (Spec.lerpFactor cfg amplitude)
  /\ offset el' = offset el /\ speed el' = speed el
  /\ scaleMultiplier el' = scaleMultiplier el
  /\ transformOrigin el' = transformOrigin el
  /\ initialized el' = initialized el.
Proof. repeat split. Qed.

Lemma updateAnimation_document (s : VoiceChat) (now : Q) (dataArray : list Byte.byte)
    (frame : nat) :
  analyser s <> None ->
  let s' := updateAnimation s now dataArray frame in
  document s'
  = forEach (animate (config s) (smoothedAmplitude s')
               (now - toNumber (startTime s')))
      (voiceEls s) (document s).
Proof.
  intro H. unfold updateAnimation. destruct (analyser s); [reflexivity | contradiction].
Qed.

(** C3.  On every frame that has an analyser the motion mapper visits the
    elements the instance holds, and every visit moves the element as
    follows, with the smoothed amplitude of this frame and
    effectiveTime = now - startTime:
    targetRotation = offset + effectiveTime * speed / rotationDivisor
                     + smoothedAmplitude * maxAdditionalRotation,
    targetScale = 1 + smoothedAmplitude * scaleMultiplier * baseScaleMultiplier,
    lerpFactor = dynamicLerpMin + smoothedAmplitude * dynamicLerpAudioMultiplier,
    currentRotation becomes lerp(currentRotation, targetRotation, lerpFactor)
    and currentScale becomes lerp(currentScale, targetScale, lerpFactor),
    where lerp(a, b, t) = a + t * (b - a).  An element that the instance holds
    once, as a selector look-up returns it, is moved exactly so by the frame. *)
Theorem motion_mapper_moves_each_element (s : VoiceChat) (now : Q)
    (dataArray : list Byte.byte) (frame : nat) :
  analyser s <> None ->
  let s' := updateAnimation s now dataArray frame in
  let amplitude := smoothedAmplitude s' in
  let effectiveTime := now - toNumber (startTime s') in
  document s'
  = forEach (animate (config s) amplitude effectiveTime) (voiceEls s) (document s)
  /\ (forall el : Element,
        Spec.moved (config s) amplitude effectiveTime el
          (animate (config s) amplitude effectiveTime el))
  /\ (forall (i : nat) (el : Element),
        NoDup (voiceEls s) -> In i (voiceEls s) -> nth_error (document s) i = Some el ->
        exists el', nth_error (document s') i = Some el'
                    /\ Spec.moved (config s) amplitude effectiveTime el el')
  /\ (forall a b t : Q,
        Spec.lerp (Num a) (Num b) (Num t) = Num (a + t * (b - a))
        /\ lerp (Num a) (Num b) (Num t) = Num (a + t * (b - a))).
Proof.
  intros Han s' amplitude effectiveTime.
  assert (Hdoc : document s'
                 = forEach (animate (config s) amplitude effectiveTime)
                     (voiceEls s) (document s)).
  { apply (updateAnimation_document s now dataArray frame Han). }
  split; [exact Hdoc |]. split; [| split].
  - intro el. split; reflexivity.
  - intros i el Hnd Hin Hel.
    exists (animate (config s) amplitude effectiveTime el). split.
    + rewrite Hdoc. apply forEach_visits_once; assumption.
    + split; reflexivity.
  - intros a b t. split; reflexivity.
Qed.

Lemma motion_mapper_moves_each_element_witness :
  analyser (demoCapturing part_000) <> None
  /\ NoDup (voiceEls (demoCapturing part_000))
  /\ In 0%nat (voiceEls (demoCapturing part_000))
  /\ nth_error (document (demoCapturing part_000)) 0 = Some (demoElement part_000)
  /\ exists el',
       nth_error (document (updateAnimation (demoCapturing part_000) 1217 demoBuffer 2)) 0
       = Some el'.
Proof.
  assert (Ha : analyser (demoCapturing part_000) <> None) by (vm_compute; discriminate).
  assert (Hv : voiceEls (demoCapturing part_000) = [0; 1]%nat) by (vm_compute; reflexivity).
  assert (Hnd : NoDup (voiceEls (demoCapturing part_000))).
  { rewrite Hv. repeat constructor; simpl; intuition discriminate. }
  assert (Hin : In 0%nat (voiceEls (demoCapturing part_000))).
  { rewrite Hv. left. reflexivity. }
  assert (Hel : nth_error (document (demoCapturing part_000)) 0
                = Some (demoElement part_000)) by (vm_compute; reflexivity).
  repeat (split; [assumption |]).
  destruct (motion_mapper_moves_each_element (demoCapturing part_000) 1217 demoBuffer 2 Ha)
    as [_ [_ [Honce _]]].
  destruct (Honce 0%nat (demoElement part_000) Hnd Hin Hel) as [el' [H _]].
  exists el'. exact H.
Defined.

(** An element held twice is visited twice in a frame. *)
Lemma forEach_visits_twice (f : Element -> Element) (page : list Element) (i : nat)
    (el : Element) :
  nth_error page i = Some el ->
  nth_error (forEach f [i; i] page) i = Some (f (f el)).
Proof.
  intro H. unfold forEach. simpl.
  apply visit_same. apply visit_same. exact H.
Qed.

(** ** Binding elements *)

Section InitLoop.

Variables (s : VoiceChat) (now : Q) (rand : nat -> Q).

Lemma initLoop_keeps_initialized (els : list nat) :
  forall (page : list Element) (k i : nat) (el : Element),
    nth_error page i = Some el -> initialized el = true ->
    nth_error (initLoop s now rand k els page) i = Some el.
Proof.
  induction els as [|j els IH]; intros page k i el Hel Hinit; simpl.
  - exact Hel.
  - destruct (nth_error page j) as [e |] eqn:Ej; [| apply IH; assumption].
    destruct (initialized e) eqn:Ee; [apply IH; assumption |].
    apply IH; [| exact Hinit].
    rewrite setNode_other; [exact Hel |].
    intro E. subst j. rewrite Hel in Ej. inversion Ej; subst e.
    rewrite Hinit in Ee. discriminate.
Qed.

Lemma initLoop_untouched (els : list nat) :
  forall (page : list Element) (k j : nat),
    ~ In j els -> nth_error (initLoop s now rand k els page) j = nth_error page j.
Proof.
  induction els as [|i els IH]; intros page k j Hj; simpl.
  - reflexivity.
  - assert (Hne : i <> j) by (intro E; apply Hj; left; exact E).
    assert (Hrest : ~ In j els) by (intro H; apply Hj; right; exact H).
    destruct (nth_error page i) as [e |]; [| apply IH; exact Hrest].
    destruct (initialized e); [apply IH; exact Hrest |].
    rewrite IH by exact Hrest. apply setNode_other. exact Hne.
Qed.

Lemma initLoop_length (els : list nat) :
  forall (page : list Element) (k : nat),
    List.length (initLoop s now rand k els page) = List.length page.
Proof.
  induction els as [|i els IH]; intros page k; simpl.
  - reflexivity.
  - destruct (nth_error page i) as [e |]; [| apply IH].
    destruct (initialized e); [apply IH |].
    rewrite IH. apply setNode_length.
Qed.

(** A node found uninitialised is bound exactly once, by the loop body. *)
Lemma initLoop_binds (els : list nat) :
  forall (page : list Element) (k i : nat) (el : Element),
    nth_error page i = Some el -> initialized el = false -> In i els ->
    exists k',
      nth_error (initLoop s now rand k els page) i
      = Some (bindElement s now (rand k') (rand (k' + 1)%nat) (rand (k' + 2)%nat)
                (rand (k' + 3)%nat) (rand (k' + 4)%nat) el).
Proof.
  induction els as [|j els IH]; intros page k i el Hel Hinit Hin.
  - contradiction.
  - simpl. destruct (Nat.eq_dec j i) as [E | NE].
    + subst j. rewrite Hel, Hinit. exists k.
      apply initLoop_keeps_initialized; [| reflexivity].
      apply (setNode_same page i _ el Hel).
    + assert (Hrest : In i els) by (destruct Hin as [E | H]; [contradiction | exact H]).
      destruct (nth_error page j) as [e |] eqn:Ej; [| apply IH; assumption].
      destruct (initialized e); [apply IH; assumption |].
      apply IH; [| exact Hinit | exact Hrest].
      rewrite setNode_other; [exact Hel | exact NE].
Qed.

Lemma initLoop_all_initialized (els : list nat) :
  forall (page : list Element) (k : nat),
    (forall i el, In i els -> nth_error page i = Some el -> initialized el = true) ->
    initLoop s now rand k els page = page.
Proof.
  induction els as [|j els IH]; intros page k Hall; simpl.
  - reflexivity.
  - destruct (nth_error page j) as [e |] eqn:Ej.
    + rewrite (Hall j e (or_introl eq_refl) Ej).
      apply IH. intros i el Hi. apply Hall. right. exact Hi.
    + apply IH. intros i el Hi. apply Hall. right. exact Hi.
Qed.

Lemma initLoop_initializes (els : list nat) (page : list Element) (k i : nat)
    (el' : Element) :
  In i els -> nth_error (initLoop s now rand k els page) i = Some el' ->
  initialized el' = true.
Proof.
  intros Hin Hel'.
  destruct (nth_error page i) as [el |] eqn:Hel.
  - destruct (initialized el) eqn:Hinit.
    + rewrite (initLoop_keeps_initialized els page k i el Hel Hinit) in Hel'.
      inversion Hel'; subst. exact Hinit.
    + destruct (initLoop_binds els page k i el Hel Hinit Hin) as [k' Hk'].
      rewrite Hk' in Hel'. inversion Hel'; subst. reflexivity.
  - apply nth_error_None in Hel. rewrite <- (initLoop_length els page k) in Hel.
    apply nth_error_None in Hel. rewrite Hel in Hel'. discriminate.
Qed.

End InitLoop.

Lemma initElements_document (bld : Build) (s : VoiceChat) (q : Lookup) (now : Q)
    (rand : nat -> Q) :
  document (initElements bld s q now rand)
  = initLoop s now rand 0 (foundVoiceEls q) (document s).
Proof. reflexivity. Qed.

(** What the loop body stores when audio runs is what the motion mapper
    targets for the new element at that moment. *)
Lemma bindElement_predicts (s : VoiceChat) (now t0 r0 r1 r2 r3 r4 : Q) (el : Element) :
  audioStarted s = true -> startTime s = Some t0 ->
  let el' := bindElement s now r0 r1 r2 r3 r4 el in
  initialized el' = true
  /\ currentRotation el'
     = Spec.targetRotation (config s) (smoothedAmplitude s) (now - t0)
         (offset el') (speed el')
  /\ currentScale el'
     = Spec.targetScale (config s) (smoothedAmplitude s) (scaleMultiplier el')
  /\ exists v, speed el' = Num v.
Proof.
  intros Ha Ht. unfold bindElement. rewrite Ha, Ht. cbn.
  repeat split. eexists. reflexivity.
Qed.

Lemma nonzero_divisor (d : Q) : ~ d == 0 -> Qeq_bool d 0 = false.
Proof.
  intro H. destruct (Qeq_bool d 0) eqn:E; [| reflexivity].
  apply Qeq_bool_eq in E. contradiction.
Qed.

Lemma targetRotation_at_rest (cfg : Config) (amplitude off spd : number)
    (effectiveTime v : Q) :
  amplitude =n= Num 0 -> effectiveTime == 0 -> off =n= Num 10 -> spd = Num v ->
  ~ baseRotationDivisor cfg == 0 ->
  Spec.targetRotation cfg amplitude effectiveTime off spd =n= Num 10.
Proof.
  intros Ha Ht Ho Hv Hd. subst spd.
  destruct amplitude as [a |], off as [o |]; simpl in Ha, Ho; try contradiction.
  unfold Spec.targetRotation. simpl. rewrite (nonzero_divisor _ Hd). simpl.
  rewrite Ha, Ht, Ho. unfold Qdiv. ring.
Qed.

(** With a rotation divisor of zero the division is [0 / 0] or [x / 0] and
    the target rotation is not a finite number. *)
Lemma targetRotation_zero_divisor (cfg : Config) (amplitude off spd : number)
    (effectiveTime : Q) :
  baseRotationDivisor cfg == 0 ->
  Spec.targetRotation cfg amplitude effectiveTime off spd = NonFinite.
Proof.
  intro Hd. unfold Spec.targetRotation.
  assert (E : ndiv (nmul (Num effectiveTime) spd) (baseRotationDivisor cfg) = NonFinite).
  { unfold ndiv. destruct (nmul (Num effectiveTime) spd); [| reflexivity].
    rewrite (Qeq_eq_bool _ _ Hd). reflexivity. }
  rewrite E. destruct off; reflexivity.
Qed.

(** C4.  An element first seen while audio runs is bound with the rotation
    and the scale that the motion mapper targets for it at that moment,
    computed from the elapsed time and the current smoothed amplitude; with
    smoothed amplitude 0, elapsed time 0 and offset 10 (and a rotation divisor
    that is not zero) the rotation it is bound with is the offset, 10. *)
Theorem new_element_is_bound_at_predicted_values (bld : Build) (s : VoiceChat)
    (q : Lookup) (now t0 : Q) (rand : nat -> Q) (i : nat) (el : Element) :
  audioStarted s = true ->
  startTime s = Some t0 ->
  In i (foundVoiceEls q) ->
  nth_error (document s) i = Some el ->
  initialized el = false ->
  exists el',
    nth_error (document (initElements bld s q now rand)) i = Some el'
    /\ initialized el' = true
    /\ currentRotation el'
       = Spec.targetRotation (config s) (smoothedAmplitude s) (now - t0)
           (offset el') (speed el')
    /\ currentScale el'
       = Spec.targetScale (config s) (smoothedAmplitude s) (scaleMultiplier el')
    /\ (smoothedAmplitude s =n= Num 0 -> now - t0 == 0 -> offset el' =n= Num 10 ->
        ~ baseRotationDivisor (config s) == 0 ->
        currentRotation el' =n= Num 10).
Proof.
  intros Ha Ht Hin Hel Hinit.
  destruct (initLoop_binds s now rand (foundVoiceEls q) (document s) 0 i el
              Hel Hinit Hin) as [k Hk].
  eexists. rewrite initElements_document. split; [exact Hk |].
  destruct (bindElement_predicts s now t0 (rand k) (rand (k + 1)%nat)
              (rand (k + 2)%nat) (rand (k + 3)%nat) (rand (k + 4)%nat) el Ha Ht)
    as [Hi [Hr [Hs [v Hv]]]].
  repeat (split; [assumption |]).
  intros Hz Het Hoff Hd. rewrite Hr.
  apply (targetRotation_at_rest _ _ _ _ _ v); assumption.
Qed.

Lemma new_element_is_bound_at_predicted_values_witness :
  exists el',
    nth_error (document (initElements part_000 (demoQuiet part_000) demoRelookup 1200
                           (fun _ => 1 # 36))) 2 = Some el'
    /\ currentRotation el' =n= Num 10
    /\ currentScale el' =n= Num 1.
Proof.
  destruct (new_element_is_bound_at_predicted_values part_000 (demoQuiet part_000)
              demoRelookup 1200 1200 (fun _ => 1 # 36) 2 freshElement)
    as [el' [Hn [_ [_ [Hs Hz]]]]].
  - vm_compute. reflexivity.
  - vm_compute. reflexivity.
  - simpl. tauto.
  - vm_compute. reflexivity.
  - reflexivity.
  - exists el'. split; [exact Hn |].
    vm_compute in Hn. injection Hn as <-. split.
    + apply Hz.
      * vm_compute. reflexivity.
      * vm_compute. reflexivity.
      * vm_compute. reflexivity.
      * vm_compute. discriminate.
    + vm_compute. reflexivity.
Defined.

(** C5.  Binding is idempotent per element: an element already marked
    initialised comes out of [initElements] unchanged, with the same offset,
    speed, scale multiplier, transform origin, rotation and scale; and a
    second call over the same elements changes no element of the page. *)
Theorem rebinding_leaves_initialized_elements (bld : Build) (s : VoiceChat) (q : Lookup)
    (now : Q) (rand : nat -> Q) :
  (forall (i : nat) (el : Element),
     nth_error (document s) i = Some el -> initialized el = true ->
     nth_error (document (initElements bld s q now rand)) i = Some el)
  /\
  (forall (now' : Q) (rand' : nat -> Q),
     document (initElements bld (initElements bld s q now rand) q now' rand')
     = document (initElements bld s q now rand)).
Proof.
  split.
  - intros i el Hel Hinit. rewrite initElements_document.
    apply initLoop_keeps_initialized; assumption.
  - intros now' rand'.
    rewrite (initElements_document bld (initElements bld s q now rand)).
    apply initLoop_all_initialized.
    intros i el Hin Hel. rewrite initElements_document in Hel.
    apply (initLoop_initializes s now rand _ _ _ _ _ Hin Hel).
Qed.

Lemma rebinding_leaves_initialized_elements_witness :
  nth_error (document (initElements part_000 (demoQuiet part_000) demoRelookup 1300
                         demoRandom)) 0
  = Some (nth 0 (document (demoQuiet part_000)) freshElement).
Proof.
  apply (proj1 (rebinding_leaves_initialized_elements part_000 (demoQuiet part_000)
                  demoRelookup 1300 demoRandom)).
  - vm_compute. reflexivity.
  - vm_compute. reflexivity.
Defined.

(** ** toggleMic *)

Lemma toggleMic_unfold (bld : Build) (s : VoiceChat) (wall : Z) :
  toggleMic bld s wall
  = (updateMicDisplay bld (fst (flipMic s)),
     snd (flipMic s)
     ++ fire (onToggle (fst (flipMic s))) (toggleNotice wall (isMicOn (fst (flipMic s))))).
Proof. unfold toggleMic. destruct (flipMic s). reflexivity. Qed.

Lemma recorderCalls_app (a b : list Effect) :
  recorderCalls (a ++ b) = recorderCalls a ++ recorderCalls b.
Proof. unfold recorderCalls. apply flat_map_app. Qed.

Lemma recorderCalls_fire (h : bool) (n : Notification) : recorderCalls (fire h n) = [].
Proof. destruct h; reflexivity. Qed.

Lemma recorderCalls_toggleMic (bld : Build) (s : VoiceChat) (wall : Z) :
  recorderCalls (snd (toggleMic bld s wall)) = recorderCalls (snd (flipMic s)).
Proof.
  rewrite toggleMic_unfold. simpl.
  rewrite recorderCalls_app, recorderCalls_fire. apply app_nil_r.
Qed.

Lemma audio_tracks_after_enable (v : bool) (stream : MediaStream) :
  List.length (getAudioTracks (enableAudioTracks v stream))
  = List.length (getAudioTracks stream).
Proof.
  unfold getAudioTracks, enableAudioTracks.
  induction stream as [|t stream IH]; simpl; [reflexivity |].
  destruct (isAudio t) eqn:E.
  - unfold isAudio at 1. simpl. fold (isAudio t). rewrite E. simpl. rewrite IH. reflexivity.
  - rewrite E. exact IH.
Qed.

Lemma capturing_canFlip (s : VoiceChat) : capturing s = true -> canFlip s = true.
Proof.
  unfold capturing, canFlip. intro H. apply andb_true_iff in H as [_ H].
  rewrite H. apply orb_true_r.
Qed.

Lemma updateMicDisplay_session (bld : Build) (s : VoiceChat) :
  sameSession (updateMicDisplay bld s) s.
Proof. unfold sameSession. repeat split. Qed.

Lemma updateMicDisplay_canFlip (bld : Build) (s : VoiceChat) :
  canFlip (updateMicDisplay bld s) = canFlip s.
Proof. reflexivity. Qed.

Lemma updateMicDisplay_inLockstep (bld : Build) (s : VoiceChat) :
  inLockstep (updateMicDisplay bld s) = inLockstep s.
Proof. reflexivity. Qed.

Lemma flipMic_flips (s : VoiceChat) :
  canFlip s = true ->
  isMicOn (fst (flipMic s)) = negb (isMicOn s) /\ canFlip (fst (flipMic s)) = true.
Proof.
  unfold canFlip, flipMic. intro H.
  destruct (mediaRecorder s) as [r |] eqn:Er.
  - destruct (isMicOn s) eqn:Em.
    + destruct (guarded recording pause r). simpl. auto.
    + destruct (guarded paused resume r). simpl. auto.
  - simpl in H. destruct (audioStream s) as [stream |] eqn:Es; [| discriminate].
    rewrite H. simpl. split; [reflexivity |].
    rewrite audio_tracks_after_enable. exact H.
Qed.

Lemma flipMic_calls (s : VoiceChat) (m : RecorderMethod) (st : RecorderState) :
  In (m, st) (recorderCalls (snd (flipMic s))) ->
  (m = pause /\ st = recording) \/ (m = resume /\ st = paused).
Proof.
  unfold flipMic.
  destruct (mediaRecorder s) as [[rs ro] |].
  - destruct (isMicOn s); destruct rs; simpl; intro H; try contradiction;
      destruct H as [H | []]; inversion H; auto.
  - destruct (audioStream s) as [stream |]; [| intros []].
    destruct (0 <? List.length (getAudioTracks stream))%nat; intros [].
Qed.

Lemma flipMic_lockstep (s : VoiceChat) (r : MediaRecorder) :
  mediaRecorder s = Some r -> inLockstep s = true ->
  recorderCalls (snd (flipMic s))
  = [if isMicOn s then (pause, recording) else (resume, paused)]
  /\ mediaRecorder (fst (flipMic s))
     = Some {| state := if isMicOn s then paused else recording; onstop := onstop r |}
  /\ inLockstep (fst (flipMic s)) = true.
Proof.
  unfold inLockstep, flipMic. intros Er Hl. rewrite Er in *.
  destruct r as [rs ro]. destruct (isMicOn s); destruct rs; simpl in *;
    try discriminate; auto.
Qed.

(** C6.  While capturing, one call of toggleMic() flips the microphone flag
    and a second call restores it; every pause() the two calls make finds the
    recorder recording and every resume() finds it paused, so that no call
    finds the recorder already in the state it asks for; and with a recorder
    that follows the flag, the two calls make one pause() and one resume()
    and leave the recorder as it was. *)
Theorem toggling_twice_restores_the_microphone (bld : Build) (s : VoiceChat)
    (wall1 wall2 : Z) :
  capturing s = true ->
  let first := toggleMic bld s wall1 in
  let second := toggleMic bld (fst first) wall2 in
  let calls := recorderCalls (snd first ++ snd second) in
  isMicOn (fst first) = negb (isMicOn s)
  /\ isMicOn (fst second) = isMicOn s
  /\ (forall m st, In (m, st) calls ->
        ((m = pause /\ st = recording) \/ (m = resume /\ st = paused))
        /\ exists st', recorderApi m st = Some st' /\ st' <> st)
  /\ (forall r, mediaRecorder s = Some r -> inLockstep s = true ->
        mediaRecorder (fst second) = Some r
        /\ calls = if isMicOn s
                   then [(pause, recording); (resume, paused)]
                   else [(resume, paused); (pause, recording)]).
Proof.
  intros Hc first second calls.
  pose proof (capturing_canFlip s Hc) as Hf.
  destruct (flipMic_flips s Hf) as [F1 C1].
  assert (E1 : fst first = updateMicDisplay bld (fst (flipMic s))).
  { unfold first. rewrite toggleMic_unfold. reflexivity. }
  assert (E2 : fst second = updateMicDisplay bld (fst (flipMic (fst first)))).
  { unfold second. rewrite toggleMic_unfold. reflexivity. }
  assert (C1' : canFlip (fst first) = true).
  { rewrite E1, updateMicDisplay_canFlip. exact C1. }
  destruct (flipMic_flips (fst first) C1') as [F2 _].
  assert (M1 : isMicOn (fst first) = negb (isMicOn s)) by (rewrite E1; exact F1).
  assert (Ecalls : calls = recorderCalls (snd (flipMic s))
                           ++ recorderCalls (snd (flipMic (fst first)))).
  { unfold calls, first, second. rewrite recorderCalls_app.
    rewrite !recorderCalls_toggleMic. reflexivity. }
  split; [exact M1 |]. split.
  { rewrite E2. change (isMicOn (fst (flipMic (fst first))) = isMicOn s).
    rewrite F2, M1. apply negb_involutive. }
  split.
  - intros m st Hin. rewrite Ecalls in Hin. apply in_app_or in Hin.
    assert (H : (m = pause /\ st = recording) \/ (m = resume /\ st = paused)).
    { destruct Hin as [Hin | Hin]; eapply flipMic_calls; exact Hin. }
    split; [exact H |].
    destruct H as [[-> ->] | [-> ->]]; simpl; eexists; split;
      try reflexivity; discriminate.
  - intros r Er Hl.
    destruct (flipMic_lockstep s r Er Hl) as [K1 [R1 L1]].
    assert (R1' : mediaRecorder (fst first)
                  = Some {| state := if isMicOn s then paused else recording;
                            onstop := onstop r |}).
    { rewrite E1. exact R1. }
    assert (L1' : inLockstep (fst first) = true).
    { rewrite E1, updateMicDisplay_inLockstep. exact L1. }
    destruct (flipMic_lockstep (fst first) _ R1' L1') as [K2 [R2 _]].
    split.
    + rewrite E2. change (mediaRecorder (fst (flipMic (fst first))) = Some r).
      rewrite R2, M1. unfold inLockstep in Hl. rewrite Er in Hl.
      destruct r as [rs ro]. destruct (isMicOn s); destruct rs; simpl in *;
        try discriminate; reflexivity.
    + rewrite Ecalls, K1, K2, M1. destruct (isMicOn s); reflexivity.
Qed.

Lemma toggling_twice_restores_the_microphone_witness :
  capturing (demoCapturing part_000) = true
  /\ isMicOn (fst (toggleMic part_000
                     (fst (toggleMic part_000 (demoCapturing part_000) 1)) 2))
     = isMicOn (demoCapturing part_000)
  /\ mediaRecorder (fst (toggleMic part_000
                           (fst (toggleMic part_000 (demoCapturing part_000) 1)) 2))
     = Some {| state := recording; onstop := false |}.
Proof.
  assert (H : capturing (demoCapturing part_000) = true) by (vm_compute; reflexivity).
  split; [exact H |].
  destruct (toggling_twice_restores_the_microphone part_000 (demoCapturing part_000)
              1 2 H) as [_ [Hflag [_ Hrec]]].
  split; [exact Hflag |].
  apply (Hrec {| state := recording; onstop := false |}).
  - vm_compute. reflexivity.
  - vm_compute. reflexivity.
Defined.

Lemma flipMic_nothing_to_flip (s : VoiceChat) :
  mediaRecorder s = None ->
  (audioStream s = None
   \/ exists stream, audioStream s = Some stream /\ getAudioTracks stream = []) ->
  flipMic s = (s, []).
Proof.
  intros Hr Hs. unfold flipMic. rewrite Hr.
  destruct Hs as [Hs | [stream [Hs Ht]]]; rewrite Hs; [reflexivity |].
  rewrite Ht. reflexivity.
Qed.

Lemma updateMicDisplay_current (bld : Build) (s : VoiceChat) :
  displayCurrent bld s -> updateMicDisplay bld s = s.
Proof.
  intros [Hb Hm]. destruct s. unfold updateMicDisplay. simpl in *.
  destruct bld; f_equal; symmetry; assumption.
Qed.

(** C10.  Without a recorder and without a stream that has an audio track,
    toggleMic() does not flip the microphone flag, yet it still notifies: the
    assigned toggle callback is called with a toggleMic notification that
    carries the unchanged flag.  The call changes no field of the session: it
    only refreshes the display of the flag, which leaves the whole instance
    as it was when the display was already current. *)
Theorem toggle_without_recorder_or_track (bld : Build) (s : VoiceChat) (wall : Z) :
  mediaRecorder s = None ->
  (audioStream s = None
   \/ exists stream, audioStream s = Some stream /\ getAudioTracks stream = []) ->
  let result := toggleMic bld s wall in
  isMicOn (fst result) = isMicOn s
  /\ snd result = fire (onToggle s) (toggleNotice wall (isMicOn s))
  /\ (onToggle s = true -> snd result = [Callback (toggleNotice wall (isMicOn s))])
  /\ event (toggleNotice wall (isMicOn s)) = "toggleMic"%string
  /\ micOn (toggleNotice wall (isMicOn s)) = Some (isMicOn s)
  /\ fst result = updateMicDisplay bld s
  /\ sameSession (fst result) s
  /\ (displayCurrent bld s -> fst result = s).
Proof.
  intros Hr Hs result. unfold result.
  rewrite toggleMic_unfold, (flipMic_nothing_to_flip s Hr Hs). simpl.
  repeat split.
  - intro H. rewrite H. reflexivity.
  - apply updateMicDisplay_current.
Qed.

Lemma toggle_without_recorder_or_track_witness :
  mediaRecorder demoIdle = None
  /\ audioStream demoIdle = None
  /\ toggleMic part_000 demoIdle 5
     = (demoIdle, [Callback (toggleNotice 5 true)]).
Proof.
  assert (Hr : mediaRecorder demoIdle = None) by reflexivity.
  assert (Hs : audioStream demoIdle = None) by reflexivity.
  split; [exact Hr |]. split; [exact Hs |].
  destruct (toggle_without_recorder_or_track part_000 demoIdle 5 Hr (or_introl Hs))
    as [_ [_ [Hcb [_ [_ [_ [_ Hsame]]]]]]].
  rewrite (surjective_pairing (toggleMic part_000 demoIdle 5)).
  rewrite Hsame, Hcb.
  - reflexivity.
  - reflexivity.
  - split; reflexivity.
Defined.

(** ** end *)

Lemma callbacks_app (a b : list Effect) : callbacks (a ++ b) = callbacks a ++ callbacks b.
Proof. unfold callbacks. apply flat_map_app. Qed.

Lemma callbacks_cancel (ids : list nat) : callbacks (map CancelAnimationFrame ids) = [].
Proof. induction ids as [|i ids IH]; [reflexivity | exact IH]. Qed.

Lemma callbacks_fire (h : bool) (n : Notification) :
  callbacks (fire h n) = if h then [n] else [].
Proof. destruct h; reflexivity. Qed.

Lemma end_callbacks (bld : Build) (s : VoiceChat) (wall : Z) :
  callbacks (snd (end_ bld s wall))
  = match mediaRecorder s with
    | Some r => if isActive r then [] else if onEnd s then [noAudioNotice wall] else []
    | None => if onEnd s then [noAudioNotice wall] else []
    end.
Proof.
  unfold end_. simpl. rewrite callbacks_app, callbacks_cancel. simpl.
  destruct (mediaRecorder s) as [r |]; [destruct (isActive r) |];
    try apply callbacks_fire; reflexivity.
Qed.

Lemma recorderStopped_carries_clip (bld : Build) (s : VoiceChat) (now : Q) (wall : Z)
    (io : StopIO) (n : Notification) :
  In n (callbacks (recorderStopped bld s now wall io)) ->
  audioBlob n = Some (newBlob (recordedChunks s) "audio/webm")
  /\ exists meta, audioMeta n = Some meta.
Proof.
  unfold recorderStopped. destruct bld.
  - rewrite callbacks_fire. destruct (onEnd s); [| intros []].
    intros [<- | []]. simpl. split; [reflexivity | eexists; reflexivity].
  - destruct (readBinary io); [| intros []].
    destruct (readDataURL io); [| intros []].
    destruct (analyzeAudio (decoding io)); rewrite callbacks_fire;
      (destruct (onEnd s); [| intros []]);
      intros [<- | []]; simpl; (split; [reflexivity | eexists; reflexivity]).
Qed.

(** C7, as the code has it.  When no recorder is active at the call (none
    was created, or it is inactive), end() calls the end callback once, with
    a notification that has no audioBlob and no audioMeta and whose details
    say that no audio was recorded.  When a recorder is active, end() itself
    calls nothing: the notification is left to the recorder's stop handler
    and always carries audioBlob and audioMeta, whatever was recorded. *)
Theorem end_without_active_recorder_has_no_clip (bld : Build) (s : VoiceChat) (wall : Z) :
  onEnd s = true ->
  ((mediaRecorder s = None
    \/ exists r, mediaRecorder s = Some r /\ state r = inactive) ->
   callbacks (snd (end_ bld s wall)) = [noAudioNotice wall]
   /\ withoutClip (noAudioNotice wall)
   /\ timestamp (noAudioNotice wall) = wall)
  /\
  (forall r, mediaRecorder s = Some r -> state r <> inactive ->
     callbacks (snd (end_ bld s wall)) = []
     /\ In (stop, state r) (recorderCalls (snd (end_ bld s wall)))
     /\ forall s' now wall' io n,
          In n (callbacks (recorderStopped bld s' now wall' io)) ->
          audioBlob n <> None /\ audioMeta n <> None).
Proof.
  intro He. split.
  - intro Hr. rewrite end_callbacks.
    split; [| split; [repeat split | reflexivity]].
    destruct Hr as [Hr | [r [Hr Hst]]]; rewrite Hr; [rewrite He; reflexivity |].
    unfold isActive. rewrite Hst. simpl. rewrite He. reflexivity.
  - intros r Hr Hst. rewrite end_callbacks, Hr.
    assert (Ha : isActive r = true).
    { unfold isActive. destruct (state r); simpl; try reflexivity. contradiction. }
    rewrite Ha. split; [reflexivity |]. split.
    + unfold end_. simpl. rewrite Hr, Ha. rewrite recorderCalls_app.
      apply in_or_app. right. left. reflexivity.
    + intros s' now wall' io n Hin.
      destruct (recorderStopped_carries_clip bld s' now wall' io n Hin) as [Hb [m Hm]].
      rewrite Hb, Hm. split; discriminate.
Qed.

Lemma end_without_active_recorder_has_no_clip_witness :
  onEnd demoIdle = true
  /\ mediaRecorder demoIdle = None
  /\ callbacks (snd (end_ part_000 demoIdle 9)) = [noAudioNotice 9].
Proof.
  assert (He : onEnd demoIdle = true) by reflexivity.
  assert (Hr : mediaRecorder demoIdle = None) by reflexivity.
  split; [exact He |]. split; [exact Hr |].
  exact (proj1 (proj1 (end_without_active_recorder_has_no_clip part_000 demoIdle 9 He)
                  (or_introl Hr))).
Defined.

(** C7, as the specification has it, fails: a capturing session whose
    recorder is active has no recorded fragment when end() is called, end()
    then calls no callback at all, and the notification that the stop handler
    delivers afterwards carries an (empty) audioBlob, in both builds, also
    when the recorder had nothing to deliver. *)
Lemma end_with_no_fragments_still_delivers_a_clip :
  recordedChunks (demoCapturing part_000) = []
  /\ onEnd (demoCapturing part_000) = true
  /\ ~ (exists n, In n (callbacks (snd (end_ part_000 (demoCapturing part_000) 9)))
                  /\ withoutClip n)
  /\ recordedChunks
       (dataAvailable (fst (end_ part_000 (demoCapturing part_000) 9)) (Some emptyClip))
     = []
  /\ (exists n,
        callbacks (recorderStopped part_000
                     (dataAvailable (fst (end_ part_000 (demoCapturing part_000) 9))
                        (Some emptyClip))
                     5000 10 demoStopIO) = [n]
        /\ audioBlob n = Some emptyClip
        /\ details n = "VoiceChat session ended (audio analysis failed)"%string)
  /\ (exists n,
        callbacks (recorderStopped voice_chat_lib
                     (dataAvailable (fst (end_ voice_chat_lib
                                            (demoCapturing voice_chat_lib) 9))
                        (Some emptyClip))
                     5000 10 demoStopIO) = [n]
        /\ audioBlob n = Some emptyClip
        /\ details n = "VoiceChat session ended"%string).
Proof.
  split; [vm_compute; reflexivity |]. split; [vm_compute; reflexivity |]. split.
  - intros [n [Hin _]]. vm_compute in Hin. exact Hin.
  - split; [vm_compute; reflexivity |].
    split; vm_compute; eexists; (split; [reflexivity |]); split; reflexivity.
Qed.

(** ** The analyser of the clip *)

Lemma nltb_compat (x y : number) (q : Q) : x =n= y -> nltb x q = nltb y q.
Proof.
  destruct x as [a |], y as [b |]; simpl; try contradiction; try reflexivity.
  intro H. rewrite H. reflexivity.
Qed.

Lemma nltb_lt (m q : Q) : nltb (Num m) q = true <-> m < q.
Proof.
  simpl. rewrite Qlt_alt. destruct (m ?= q); split; intro H; try reflexivity;
    discriminate.
Qed.

Lemma analyzeChannel_spec (channelData : list Q) :
  avgAmplitude (analyzeChannel channelData) =n= Spec.meanAmplitude channelData
  /\ isMostlySilence (analyzeChannel channelData) = Spec.isMostlySilence channelData.
Proof.
  assert (H : avgAmplitude (analyzeChannel channelData)
              =n= Spec.meanAmplitude channelData).
  { unfold analyzeChannel, Spec.meanAmplitude, Spec.mean. simpl.
    rewrite lengthQ_map. apply (ndiv_compat (Num _) (Num _)). simpl.
    rewrite fold_left_sum. ring. }
  split; [exact H |].
  unfold Spec.isMostlySilence. apply nltb_compat. exact H.
Qed.

Lemma mean_of_total (l : list Q) (c : Q) :
  l <> [] -> Spec.sum l == lengthQ l * c -> Spec.mean l =n= Num c.
Proof.
  intros Hne Hsum. unfold Spec.mean. simpl.
  pose proof (lengthQ_nonzero l Hne) as Hz. rewrite Hz. simpl.
  rewrite Hsum. field. apply Qeq_bool_neq. exact Hz.
Qed.

Lemma alternating_length (n : nat) (x : Q) : List.length (alternating n x) = n.
Proof.
  revert x. induction n as [|n IH]; intro x; simpl; [reflexivity |].
  rewrite IH. reflexivity.
Qed.

Lemma alternating_total (n : nat) (x : Q) :
  Spec.sum (map Qabs (alternating n x)) == lengthQ (alternating n x) * Qabs x.
Proof.
  revert x. induction n as [|n IH]; intro x.
  - unfold lengthQ. simpl. ring.
  - cbn [alternating map]. rewrite lengthQ_cons. cbn [Spec.sum fold_right].
    change (fold_right Qplus 0 (map Qabs (alternating n (- x))))
      with (Spec.sum (map Qabs (alternating n (- x)))).
    rewrite IH, Qabs_opp. ring.
Qed.

Lemma silence_total (n : nat) :
  Spec.sum (map Qabs (repeat 0 n)) == lengthQ (repeat 0 n) * 0.
Proof.
  induction n as [|n IH].
  - unfold lengthQ. simpl. ring.
  - cbn [repeat map]. rewrite lengthQ_cons. cbn [Spec.sum fold_right].
    change (fold_right Qplus 0 (map Qabs (repeat 0 n)))
      with (Spec.sum (map Qabs (repeat 0 n))).
    rewrite IH. simpl. ring.
Qed.

Lemma nonempty_of_positive_length {A : Type} (l : list A) :
  (0 < List.length l)%nat -> l <> [].
Proof. destruct l; simpl; [lia | discriminate]. Qed.

(** C8.  The analyser resolves with the mean absolute amplitude of the first
    channel and with isMostlySilence true exactly when that mean is below
    0.02.  For a clip of zeros the mean is 0 and isMostlySilence is true; for
    a clip that alternates between +0.5 and -0.5 the mean is 0.5 and
    isMostlySilence is false (clips of at least one sample). *)
Theorem analyser_classifies_by_mean_amplitude :
  (forall channelData : list Q,
     analyzeAudio (audioBuffer channelData) = resolved (analyzeChannel channelData)
     /\ avgAmplitude (analyzeChannel channelData) =n= Spec.meanAmplitude channelData
     /\ isMostlySilence (analyzeChannel channelData) = Spec.isMostlySilence channelData
     /\ (forall m, avgAmplitude (analyzeChannel channelData) =n= Num m ->
           (isMostlySilence (analyzeChannel channelData) = true <-> m < 2 # 100)))
  /\ (forall n : nat, (0 < n)%nat ->
        avgAmplitude (analyzeChannel (repeat 0 n)) =n= Num 0
        /\ isMostlySilence (analyzeChannel (repeat 0 n)) = true)
  /\ (forall n : nat, (0 < n)%nat ->
        avgAmplitude (analyzeChannel (alternating n (1 # 2))) =n= Num (1 # 2)
        /\ isMostlySilence (analyzeChannel (alternating n (1 # 2))) = false).
Proof.
  split; [| split].
  - intro channelData. destruct (analyzeChannel_spec channelData) as [Ha Hs].
    split; [reflexivity |]. split; [exact Ha |]. split; [exact Hs |].
    intros m Hm.
    change (isMostlySilence (analyzeChannel channelData))
      with (nltb (avgAmplitude (analyzeChannel channelData)) (2 # 100)).
    rewrite (nltb_compat _ _ (2 # 100) Hm). apply nltb_lt.
  - intros n Hn. destruct (analyzeChannel_spec (repeat 0 n)) as [Ha Hs].
    assert (Hm : Spec.meanAmplitude (repeat 0 n) =n= Num 0).
    { apply mean_of_total; [| rewrite lengthQ_map; apply silence_total].
      apply nonempty_of_positive_length. rewrite length_map, repeat_length. exact Hn. }
    split; [apply (num_eq_trans _ _ _ Ha Hm) |].
    rewrite Hs. unfold Spec.isMostlySilence.
    rewrite (nltb_compat _ _ (2 # 100) Hm). reflexivity.
  - intros n Hn. destruct (analyzeChannel_spec (alternating n (1 # 2))) as [Ha Hs].
    assert (Hm : Spec.meanAmplitude (alternating n (1 # 2)) =n= Num (1 # 2)).
    { apply mean_of_total; [| rewrite lengthQ_map; apply alternating_total].
      apply nonempty_of_positive_length. rewrite length_map, alternating_length.
      exact Hn. }
    split; [apply (num_eq_trans _ _ _ Ha Hm) |].
    rewrite Hs. unfold Spec.isMostlySilence.
    rewrite (nltb_compat _ _ (2 # 100) Hm). reflexivity.
Qed.

Lemma analyser_classifies_by_mean_amplitude_witness :
  (avgAmplitude (analyzeChannel (repeat 0 3)) =n= Num 0
   /\ isMostlySilence (analyzeChannel (repeat 0 3)) = true)
  /\ (avgAmplitude (analyzeChannel (alternating 4 (1 # 2))) =n= Num (1 # 2)
      /\ isMostlySilence (analyzeChannel (alternating 4 (1 # 2))) = false).
Proof.
  split.
  - apply (proj1 (proj2 analyser_classifies_by_mean_amplitude) 3%nat). lia.
  - apply (proj2 (proj2 analyser_classifies_by_mean_amplitude) 4%nat). lia.
Defined.

(** A clip without samples: [0 / 0] is NaN, and NaN is not below 0.02. *)
Lemma analyser_on_empty_channel :
  analyzeChannel [] = {| isMostlySilence := false; avgAmplitude := NonFinite |}.
Proof. reflexivity. Qed.

(** ** reset, then start *)

Lemma no_gap_at_the_same_reading (x : Q) : Qltb MAX_DELTA (x - x) = false.
Proof.
  unfold Qltb. destruct (MAX_DELTA ?= x - x) eqn:E; try reflexivity.
  apply Qlt_alt in E. unfold MAX_DELTA in E. lra.
Qed.

Lemma granted_baseline (bld : Build) (s : VoiceChat) (stream : MediaStream)
    (now0 now1 : Q) (dataArray : list Byte.byte) (frame : nat) (rec : Recording)
    (wall : Z) :
  let s' := fst (audioGranted bld s stream now0 now1 dataArray frame rec wall) in
  startTime s' = firstBaseline now0 now1 /\ lastFrameTime s' = Some now1.
Proof.
  unfold audioGranted, firstBaseline. simpl. unfold frameStart. simpl.
  split; [| reflexivity].
  destruct (Qeq_bool now0 0); [| reflexivity].
  rewrite no_gap_at_the_same_reading. reflexivity.
Qed.

(** C9.  After reset(), from any state, no recorded fragment is buffered, the
    microphone flag is true and the start time and the last frame time are
    cleared; a start() that follows requests the microphone again, and once
    it is granted the start time and the last frame time come from the clock
    readings of the new session alone, whatever the prior session left. *)
Theorem reset_clears_the_session (bld : Build) (s : VoiceChat) :
  let cleared := fst (reset bld s) in
  recordedChunks cleared = []
  /\ isMicOn cleared = true
  /\ startTime cleared = None
  /\ lastFrameTime cleared = None
  /\ forall (q : Lookup) (now : Q) (rand : nat -> Q) (stream : MediaStream)
       (now0 now1 : Q) (dataArray : list Byte.byte) (frame : nat) (rec : Recording)
       (wall : Z),
       let started := start bld cleared q now rand in
       let fresh :=
         fst (audioGranted bld (fst started) stream now0 now1 dataArray frame rec wall) in
       snd started = true
       /\ startTime (fst started) = None
       /\ startTime fresh = firstBaseline now0 now1
       /\ lastFrameTime fresh = Some now1.
Proof.
  cbv zeta. do 4 (split; [reflexivity |]).
  intros q now rand stream now0 now1 dataArray frame rec wall.
  split; [reflexivity |]. split; [reflexivity |].
  exact (granted_baseline bld _ stream now0 now1 dataArray frame rec wall).
Qed.

(** The baseline in the common case: a clock that has advanced past 0 and a
    first frame that follows within [MAX_DELTA]. *)
Lemma firstBaseline_common (now0 now1 : Q) :
  ~ now0 == 0 -> now1 - now0 <= MAX_DELTA -> firstBaseline now0 now1 = Some now0.
Proof.
  intros Hz Hd. unfold firstBaseline. rewrite (nonzero_divisor now0 Hz).
  unfold Qltb. destruct (MAX_DELTA ?= now1 - now0) eqn:E; try reflexivity.
  apply Qlt_alt in E. lra.
Qed.

(** ** Invariants of the reachable states *)

Lemma frameStart_keeps_number (s : VoiceChat) (now : Q) :
  (exists t0, startTime s = Some t0) -> exists t1, frameStart s now = Some t1.
Proof.
  intros [t0 Ht]. unfold frameStart. rewrite Ht.
  destruct (falsy (lastFrameTime s));
    match goal with |- context [if ?c then _ else _] => destruct c end;
    eexists; reflexivity.
Qed.

Lemma flipMic_keeps (s : VoiceChat) :
  config (fst (flipMic s)) = config s
  /\ analyser (fst (flipMic s)) = analyser s
  /\ smoothedAmplitude (fst (flipMic s)) = smoothedAmplitude s
  /\ audioStarted (fst (flipMic s)) = audioStarted s
  /\ startTime (fst (flipMic s)) = startTime s.
Proof.
  unfold flipMic. destruct (mediaRecorder s) as [r |].
  - destruct (isMicOn s);
      match goal with |- context [guarded ?a ?b ?c] => destruct (guarded a b c) end;
      repeat split.
  - destruct (audioStream s) as [stream |]; [| repeat split].
    destruct (0 <? List.length (getAudioTracks stream))%nat; repeat split.
Qed.

Lemma updateAnimation_wellFormed (cfg : Config) (s : VoiceChat) (a : AnalyserNode)
    (now : Q) (dataArray : list Byte.byte) (frame : nat) :
  0 < amplitudeSmoothFactorVar cfg <= 1 ->
  analyser s = Some a ->
  List.length dataArray = frequencyBinCount a ->
  wellFormed cfg s -> wellFormed cfg (updateAnimation s now dataArray frame).
Proof.
  intros Ha Hs Hlen [Hc [Hf [r [Hr Hr01]]]].
  assert (Hne : dataArray <> []).
  { intro E. subst dataArray. unfold frequencyBinCount in Hlen.
    rewrite (Hf a Hs) in Hlen. discriminate. }
  destruct (amplitudeNormalized_unit dataArray Hne) as [x [Hx Hx01]].
  unfold updateAnimation. rewrite Hs. unfold wellFormed. simpl.
  split; [exact Hc |]. split; [rewrite <- Hs; exact Hf |].
  rewrite Hr, Hx, Hc. eexists. split; [reflexivity |].
  apply convex_unit; assumption.
Qed.

Lemma step_wellFormed (bld : Build) (cfg : Config) (s s' : VoiceChat) :
  0 < amplitudeSmoothFactorVar cfg <= 1 ->
  step bld s s' -> wellFormed cfg s -> wellFormed cfg s'.
Proof.
  intros Ha Hstep Hw.
  destruct Hstep as [s q now rand | s stream now0 now1 dataArray frame rec wall Hlen
                    | s | s a now dataArray frame Hs Hlen | s q now rand | s wall
                    | s wall | s data | s | s | s x y z];
    try exact Hw.
  - unfold audioGranted. simpl.
    assert (H1 : wellFormed cfg (attachAudio bld s stream now0)).
    { destruct Hw as [Hc [Hf Hr]]. unfold wellFormed. simpl.
      split; [exact Hc |]. split; [| exact Hr].
      intros a E. inversion E. reflexivity. }
    exact (updateAnimation_wellFormed cfg (attachAudio bld s stream now0)
             {| fftSize := 256 |} now1 dataArray frame Ha eq_refl Hlen H1).
  - apply (updateAnimation_wellFormed cfg s a); assumption.
  - rewrite toggleMic_unfold. simpl.
    destruct Hw as [Hc [Hf Hr]]. destruct (flipMic_keeps s) as [Kc [Ka [Ks _]]].
    unfold wellFormed. simpl. rewrite Kc, Ka, Ks. repeat split; assumption.
  - unfold dataAvailable. destruct data as [d |]; [| exact Hw].
    destruct (0 <? size d)%N; exact Hw.
Qed.

(** In every reachable state of an instance whose smoothing factor is in
    (0, 1], the analyser reads 128 bytes per frame and the smoothed amplitude
    is in [0, 1]. *)
Lemma reachable_wellFormed (bld : Build) (cfg : Config) (s : VoiceChat) :
  0 < amplitudeSmoothFactorVar cfg <= 1 ->
  reachable bld cfg s -> wellFormed cfg s.
Proof.
  intros Ha Hr. induction Hr as [page | s s' Hr IH Hstep].
  - unfold wellFormed. simpl. split; [reflexivity |]. split; [discriminate |].
    exists 0. split; [reflexivity | lra].
  - apply (step_wellFormed bld cfg s s' Ha Hstep IH).
Qed.

Lemma step_timed (bld : Build) (s s' : VoiceChat) : step bld s s' -> timed s -> timed s'.
Proof.
  intros Hstep Ht.
  destruct Hstep as [s q now rand | s stream now0 now1 dataArray frame rec wall Hlen
                    | s | s a now dataArray frame Hs Hlen | s q now rand | s wall
                    | s wall | s data | s | s | s x y z];
    try exact Ht.
  - intros _. unfold audioGranted. simpl.
    apply frameStart_keeps_number. simpl. eexists. reflexivity.
  - unfold timed, updateAnimation. rewrite Hs. simpl.
    intro Hst. apply frameStart_keeps_number. apply Ht. exact Hst.
  - rewrite toggleMic_unfold. unfold timed. simpl.
    destruct (flipMic_keeps s) as [_ [_ [_ [Ka Kt]]]]. rewrite Ka, Kt. exact Ht.
  - unfold dataAvailable. destruct data as [d |]; [| exact Ht].
    destruct (0 <? size d)%N; exact Ht.
  - unfold timed. simpl. discriminate.
Qed.

(** In every reachable state, "audio started" implies that the start time is
    a number: the guard of the mid-session branch of [initElements] then
    reduces to [audioStarted]. *)
Lemma reachable_timed (bld : Build) (cfg : Config) (s : VoiceChat) :
  reachable bld cfg s -> timed s.
Proof.
  intro Hr. induction Hr as [page | s s' Hr IH Hstep].
  - unfold timed. simpl. discriminate.
  - apply (step_timed bld s s' Hstep IH).
Qed.

(** ** No jump after a mid-session binding *)

(** An element whose rotation already is the target keeps it on a frame at
    the same time and amplitude, whatever the lerp factor. *)
Lemma frame_at_target_keeps_rotation (cfg : Config) (amplitude : number)
    (effectiveTime r f : Q) (el : Element) :
  currentRotation el = Num r ->
  Spec.targetRotation cfg amplitude effectiveTime (offset el) (speed el) = Num r ->
  dynamicLerpFactor cfg amplitude = Num f ->
  currentRotation (animate cfg amplitude effectiveTime el) =n= Num r.
Proof.
  intros Hc Ht Hf.
  destruct (animate_spec cfg amplitude effectiveTime el) as [Hr _].
  rewrite Hr, Hc, Ht. unfold Spec.lerpFactor. fold (dynamicLerpFactor cfg amplitude).
  rewrite Hf. simpl. ring.
Qed.

(** * Further properties of the code *)

(** ** The extremes of the normalized amplitude *)

Lemma byte_of_sample (b : Byte.byte) : sample b == 128 -> b = Byte.x80.
Proof.
  unfold sample. intro H.
  assert (E : Byte.to_N b = 128%N).
  { unfold Qeq in H. simpl in H. lia. }
  pose proof (Byte.of_to_N b) as Hb. rewrite E in Hb.
  vm_compute in Hb. inversion Hb. reflexivity.
Qed.

Lemma deviation_zero (b : Byte.byte) : Qabs (sample b - 128) == 0 <-> b = Byte.x80.
Proof.
  split.
  - intro H. apply byte_of_sample.
    destruct (Qlt_le_dec (sample b - 128) 0) as [Hn | Hp].
    + rewrite Qabs_neg in H by lra. lra.
    + rewrite Qabs_pos in H by lra. lra.
  - intros ->. vm_compute. reflexivity.
Qed.

Lemma deviation_sum_zero (l : list Byte.byte) :
  Spec.sum (map (fun b => Qabs (sample b - 128)) l) == 0
  <-> forall b, In b l -> b = Byte.x80.
Proof.
  induction l as [|a l IH].
  - split; [intros _ b [] | intros _; reflexivity].
  - cbn [map Spec.sum fold_right].
    change (fold_right Qplus 0 (map (fun b => Qabs (sample b - 128)) l))
      with (Spec.sum (map (fun b => Qabs (sample b - 128)) l)).
    pose proof (deviation_range a) as [Ha _].
    pose proof (deviation_sum_range l) as [Hl _].
    split.
    + intros H b [<- | Hb].
      * apply deviation_zero. lra.
      * apply IH; [lra | exact Hb].
    + intro H.
      assert (E1 : Qabs (sample a - 128) == 0)
        by (apply deviation_zero; apply H; left; reflexivity).
      assert (E2 : Spec.sum (map (fun b => Qabs (sample b - 128)) l) == 0)
        by (apply IH; intros b Hb; apply H; right; exact Hb).
      rewrite E1, E2. reflexivity.
Qed.

Lemma amplitudeNormalized_closed (dataArray : list Byte.byte) :
  dataArray <> [] ->
  amplitudeNormalized dataArray = Num (sumLoop dataArray / lengthQ dataArray / 128)
  /\ 0 < lengthQ dataArray.
Proof.
  intro Hne. split.
  - unfold amplitudeNormalized. simpl. rewrite (lengthQ_nonzero dataArray Hne). reflexivity.
  - destruct dataArray as [|b l]; [contradiction |].
    rewrite lengthQ_cons. pose proof (lengthQ_nonneg l). lra.
Qed.

(** X2.  For a buffer that is not empty the normalized amplitude is 0 exactly
    when every byte is the centre value 128, and it is 1 when every byte
    is 0. *)
Theorem normalized_amplitude_extremes (dataArray : list Byte.byte) :
  dataArray <> [] ->
  (amplitudeNormalized dataArray =n= Num 0
   <-> forall b, In b dataArray -> b = Byte.x80)
  /\ ((forall b, In b dataArray -> b = Byte.x00) ->
      amplitudeNormalized dataArray =n= Num 1).
Proof.
  intro Hne. destruct (amplitudeNormalized_closed dataArray Hne) as [E Hn].
  rewrite E. simpl. split.
  - rewrite <- deviation_sum_zero, <- sumLoop_is_sum. split.
    + intro H.
      assert (H1 : sumLoop dataArray / lengthQ dataArray == 0).
      { setoid_replace (sumLoop dataArray / lengthQ dataArray)
          with (sumLoop dataArray / lengthQ dataArray / 128 * 128) by (field; lra).
        rewrite H. ring. }
      setoid_replace (sumLoop dataArray)
        with (sumLoop dataArray / lengthQ dataArray * lengthQ dataArray) by (field; lra).
      rewrite H1. ring.
    + intro H. rewrite H. field. lra.
  - intro Hall.
    assert (Hs : sumLoop dataArray == 128 * lengthQ dataArray).
    { rewrite sumLoop_is_sum. clear E Hn Hne.
      induction dataArray as [|a l IH].
      - unfold lengthQ. simpl. ring.
      - rewrite lengthQ_cons. cbn [map Spec.sum fold_right].
        change (fold_right Qplus 0 (map (fun b => Qabs (sample b - 128)) l))
          with (Spec.sum (map (fun b => Qabs (sample b - 128)) l)).
        rewrite IH by (intros b Hb; apply Hall; right; exact Hb).
        rewrite (Hall a (or_introl eq_refl)).
        assert (E0 : Qabs (sample Byte.x00 - 128) == 128) by (vm_compute; reflexivity).
        rewrite E0. ring. }
    rewrite Hs. field. lra.
Qed.

Lemma normalized_amplitude_extremes_witness :
  amplitudeNormalized demoSilence =n= Num 0.
Proof.
  assert (Hne : demoSilence <> []) by discriminate.
  apply (proj1 (normalized_amplitude_extremes demoSilence Hne)).
  intros b [<- | [<- | [<- | [<- | []]]]]; reflexivity.
Defined.

(** ** The time base of the animation *)

Lemma Qltb_true (a b : Q) : a < b -> Qltb a b = true.
Proof.
  intro H. unfold Qltb. destruct (a ?= b) eqn:E; try reflexivity.
  - apply Qeq_alt in E. lra.
  - apply Qgt_alt in E. lra.
Qed.

Lemma Qltb_false (a b : Q) : b <= a -> Qltb a b = false.
Proof.
  intro H. unfold Qltb. destruct (a ?= b) eqn:E; try reflexivity.
  apply Qlt_alt in E. lra.
Qed.

Lemma updateAnimation_times (s : VoiceChat) (now : Q) (dataArray : list Byte.byte)
    (frame : nat) :
  analyser s <> None ->
  startTime (updateAnimation s now dataArray frame) = frameStart s now
  /\ lastFrameTime (updateAnimation s now dataArray frame) = Some now.
Proof.
  intro H. unfold updateAnimation. destruct (analyser s); [split; reflexivity | contradiction].
Qed.

(** X3.  On a frame with an analyser the last frame time becomes the clock
    reading.  If no frame was timed before (the last frame time is null or 0),
    or if more than MAX_DELTA = 100 ms have passed since the last frame, the
    start time is moved to the clock reading, so the effective time of this
    frame is 0; otherwise the start time is kept. *)
Theorem frame_gap_restarts_the_time_base (s : VoiceChat) (now : Q)
    (dataArray : list Byte.byte) (frame : nat) :
  analyser s <> None ->
  let s' := updateAnimation s now dataArray frame in
  lastFrameTime s' = Some now
  /\ (falsy (lastFrameTime s) = true ->
      startTime s' = Some now /\ now - toNumber (startTime s') == 0)
  /\ (forall t, lastFrameTime s = Some t -> ~ t == 0 ->
        (MAX_DELTA < now - t ->
         startTime s' = Some now /\ now - toNumber (startTime s') == 0)
        /\ (now - t <= MAX_DELTA -> startTime s' = startTime s)).
Proof.
  intros Han s'. destruct (updateAnimation_times s now dataArray frame Han) as [Hs Hl].
  split; [exact Hl |]. unfold s'. rewrite Hs. unfold frameStart. split.
  - intro Hf. rewrite Hf, no_gap_at_the_same_reading. simpl. split; [reflexivity | ring].
  - intros t Ht Hz. rewrite Ht. simpl. rewrite (nonzero_divisor t Hz). split.
    + intro Hgap. rewrite (Qltb_true _ _ Hgap). simpl. split; [reflexivity | ring].
    + intro Hgap. rewrite (Qltb_false _ _ Hgap). reflexivity.
Qed.

Lemma frame_gap_restarts_the_time_base_witness :
  startTime (updateAnimation (demoCapturing part_000) 1500 demoBuffer 2) = Some 1500
  /\ startTime (updateAnimation (demoCapturing part_000) 1217 demoBuffer 2)
     = startTime (demoCapturing part_000).
Proof.
  assert (Ha : analyser (demoCapturing part_000) <> None) by (vm_compute; discriminate).
  assert (Hl : lastFrameTime (demoCapturing part_000) = Some 1201)
    by (vm_compute; reflexivity).
  assert (Hz : ~ 1201 == 0) by (intro H; discriminate H).
  split.
  - destruct (frame_gap_restarts_the_time_base (demoCapturing part_000) 1500 demoBuffer 2 Ha)
      as [_ [_ H]].
    apply (proj1 (H 1201 Hl Hz)). unfold MAX_DELTA. lra.
  - destruct (frame_gap_restarts_the_time_base (demoCapturing part_000) 1217 demoBuffer 2 Ha)
      as [_ [_ H]].
    apply (proj2 (H 1201 Hl Hz)). unfold MAX_DELTA. lra.
Defined.

Lemma frameStart_cases (s : VoiceChat) (now t0 : Q) :
  startTime s = Some t0 -> frameStart s now = Some now \/ frameStart s now = Some t0.
Proof.
  intro H. unfold frameStart. rewrite H.
  destruct (falsy (lastFrameTime s));
    match goal with |- context [if ?c then _ else _] => destruct c end; auto.
Qed.

(** X4.  With a clock that never runs backwards, over any run of frames the
    start time stays at or before the last frame time (and never moves
    back), so the effective time [now - startTime] that the frames use is
    never negative. *)
Theorem effective_time_is_never_negative (frames : list (Q * list Byte.byte * nat)) :
  forall (s : VoiceChat) (t0 t : Q),
    analyser s <> None ->
    startTime s = Some t0 -> lastFrameTime s = Some t -> t0 <= t ->
    clockAdvances t frames ->
    exists t0' t',
      startTime (runFrames s frames) = Some t0'
      /\ lastFrameTime (runFrames s frames) = Some t'
      /\ t0 <= t0' /\ t0' <= t' /\ t <= t'
      /\ 0 <= t' - toNumber (startTime (runFrames s frames)).
Proof.
  induction frames as [|[[now d] frame] frames IH]; intros s t0 t Han Hs Hl Hle Hclock.
  - exists t0, t. simpl. rewrite Hs. simpl. repeat split; try assumption; lra.
  - simpl in Hclock. destruct Hclock as [Hnow Hrest]. simpl.
    destruct (updateAnimation_times s now d frame Han) as [Es El].
    destruct (updateAnimation_keeps s now d frame) as [Ka _].
    assert (Han' : analyser (updateAnimation s now d frame) <> None)
      by (rewrite Ka; exact Han).
    destruct (frameStart_cases s now t0 Hs) as [E | E]; rewrite E in Es.
    + destruct (IH _ now now Han' Es El (Qle_refl now) Hrest)
        as [a [b [H1 [H2 [H3 [H4 [H5 H6]]]]]]].
      exists a, b. repeat split; try assumption; lra.
    + destruct (IH _ t0 now Han' Es El) as [a [b [H1 [H2 [H3 [H4 [H5 H6]]]]]]];
        [lra | exact Hrest |].
      exists a, b. repeat split; try assumption; lra.
Qed.

Lemma effective_time_is_never_negative_witness :
  exists t0' t',
    startTime (runFrames (demoCapturing part_000)
                 [(1217, demoBuffer, 2%nat); (1400, demoBuffer, 3%nat)]) = Some t0'
    /\ lastFrameTime (runFrames (demoCapturing part_000)
                        [(1217, demoBuffer, 2%nat); (1400, demoBuffer, 3%nat)]) = Some t'
    /\ t0' <= t'.
Proof.
  assert (Ha : analyser (demoCapturing part_000) <> None) by (vm_compute; discriminate).
  assert (Hs : startTime (demoCapturing part_000) = Some 1200) by (vm_compute; reflexivity).
  assert (Hl : lastFrameTime (demoCapturing part_000) = Some 1201)
    by (vm_compute; reflexivity).
  destruct (effective_time_is_never_negative
              [(1217, demoBuffer, 2%nat); (1400, demoBuffer, 3%nat)]
              (demoCapturing part_000) 1200 1201 Ha Hs Hl)
    as [a [b [H1 [H2 [_ [H4 _]]]]]].
  - lra.
  - simpl. repeat split; lra.
  - exists a, b. repeat split; assumption.
Defined.

(** ** The random parameters of a bound element *)

Lemma pow10_pos (d : nat) : 0 < pow10 d.
Proof.
  unfold pow10, Qlt. simpl. rewrite Z.mul_1_r.
  apply Z.pow_pos_nonneg; lia.
Qed.

Lemma integer_below_half (z m : Z) : inject_Z z <= inject_Z m + (1 # 2) -> (z <= m)%Z.
Proof. unfold Qle, Qplus, inject_Z. simpl. lia. Qed.

Lemma roundHalfUp_bounds (y : Q) (m n : Z) :
  inject_Z m <= y -> y <= inject_Z n -> (m <= roundHalfUp y <= n)%Z.
Proof.
  intros Hm Hn. unfold roundHalfUp. split.
  - rewrite <- (Qfloor_Z m). apply Qfloor_resp_le. lra.
  - apply integer_below_half.
    apply Qle_trans with (y + (1 # 2)); [apply Qfloor_le | lra].
Qed.

Lemma inject_Z_le (a b : Z) : (a <= b)%Z -> inject_Z a <= inject_Z b.
Proof. intro H. rewrite <- Zle_Qle. exact H. Qed.

(** Rounding a non-negative number that lies between two decimals of
    [digits] digits gives a decimal between them. *)
Lemma toFixed_bounds (digits : nat) (x : Q) (m n : Z) :
  0 <= x ->
  inject_Z m / pow10 digits <= x -> x <= inject_Z n / pow10 digits ->
  inject_Z m / pow10 digits <= toFixed digits x <= inject_Z n / pow10 digits
  /\ exists z, toFixed digits x = inject_Z z / pow10 digits.
Proof.
  intros Hx Hm Hn. pose proof (pow10_pos digits) as Hp.
  unfold toFixed. rewrite (Qltb_false x 0 Hx).
  destruct (roundHalfUp_bounds (x * pow10 digits) m n) as [H1 H2].
  - setoid_replace (inject_Z m) with (inject_Z m / pow10 digits * pow10 digits)
      by (field; lra).
    apply Qmult_le_compat_r; [exact Hm | lra].
  - setoid_replace (inject_Z n) with (inject_Z n / pow10 digits * pow10 digits)
      by (field; lra).
    apply Qmult_le_compat_r; [exact Hn | lra].
  - split; [| eexists; reflexivity]. split.
    + apply Qle_shift_div_l; [exact Hp |].
      setoid_replace (inject_Z m / pow10 digits * pow10 digits) with (inject_Z m)
        by (field; lra).
      apply inject_Z_le. exact H1.
    + apply Qle_shift_div_r; [exact Hp |].
      setoid_replace (inject_Z n / pow10 digits * pow10 digits) with (inject_Z n)
        by (field; lra).
      apply inject_Z_le. exact H2.
Qed.

Lemma toFixed_range (digits : nat) (x lo hi : Q) (m n : Z) :
  lo == inject_Z m / pow10 digits -> hi == inject_Z n / pow10 digits ->
  0 <= x -> lo <= x <= hi ->
  lo <= toFixed digits x <= hi.
Proof.
  intros Hlo Hhi Hx [H1 H2].
  destruct (toFixed_bounds digits x m n Hx) as [[B1 B2] _].
  - rewrite <- Hlo. exact H1.
  - rewrite <- Hhi. exact H2.
  - rewrite Hlo, Hhi. split; assumption.
Qed.

Lemma toFixed_whole (x : Q) : 0 <= x -> exists z, toFixed 0 x == inject_Z z.
Proof.
  intro Hx. unfold toFixed. rewrite (Qltb_false x 0 Hx).
  exists (roundHalfUp (x * pow10 0)). change (pow10 0) with 1. field.
Qed.

Lemma bindElement_parameters (s : VoiceChat) (now r0 r1 r2 r3 r4 : Q) (el : Element) :
  0 <= r0 < 1 -> 0 <= r1 < 1 -> 0 <= r2 < 1 -> 0 <= r3 < 1 -> 0 <= r4 < 1 ->
  parametersInRange (bindElement s now r0 r1 r2 r3 r4 el).
Proof.
  intros H0 H1 H2 H3 H4. unfold parametersInRange, bindElement. simpl.
  do 5 eexists.
  split; [reflexivity |]. split.
  { apply (toFixed_range 0 _ 0 360 0 360); try (vm_compute; reflexivity); lra. }
  split.
  { apply toFixed_whole. lra. }
  split; [reflexivity |]. split.
  { apply (toFixed_range 2 _ 1 3 100 300); try (vm_compute; reflexivity); lra. }
  split; [reflexivity |]. split.
  { apply (toFixed_range 2 _ 1 (5 # 2) 100 250); try (vm_compute; reflexivity); lra. }
  split; [reflexivity |]. split.
  - apply (toFixed_range 0 _ 45 55 45 55); try (vm_compute; reflexivity); lra.
  - apply (toFixed_range 0 _ 45 55 45 55); try (vm_compute; reflexivity); lra.
Qed.

(** X6.  With [Math.random()] in [0, 1), an element that [initElements] finds
    uninitialised is bound with a whole offset in [0, 360], a speed in
    [1, 3], a scale multiplier in [1, 2.5] and a transform origin in
    [45, 55] x [45, 55] (the upper ends included, by rounding); while audio
    has not started its rotation is 0 and its scale is 1. *)
Theorem bound_parameters_are_in_range (bld : Build) (s : VoiceChat) (q : Lookup)
    (now : Q) (rand : nat -> Q) (i : nat) (el : Element) :
  unitRandom rand ->
  In i (foundVoiceEls q) ->
  nth_error (document s) i = Some el ->
  initialized el = false ->
  exists el',
    nth_error (document (initElements bld s q now rand)) i = Some el'
    /\ initialized el' = true
    /\ parametersInRange el'
    /\ (audioStarted s = false ->
        currentRotation el' = Num 0 /\ currentScale el' = Num 1).
Proof.
  intros Hr Hin Hel Hinit.
  destruct (initLoop_binds s now rand (foundVoiceEls q) (document s) 0 i el
              Hel Hinit Hin) as [k Hk].
  eexists. rewrite initElements_document. split; [exact Hk |].
  split; [reflexivity |]. split.
  - apply bindElement_parameters; apply Hr.
  - intro Ha. unfold bindElement. rewrite Ha. split; reflexivity.
Qed.

Lemma demoRandom_unit : unitRandom demoRandom.
Proof.
  intro k. unfold demoRandom.
  assert (H : (0 <= Z.of_nat (k mod 7) < 7)%Z).
  { pose proof (Nat.mod_upper_bound k 7). lia. }
  destruct H as [H0 H7].
  apply inject_Z_le in H0. change (inject_Z 0) with 0 in H0.
  assert (H7' : inject_Z (Z.of_nat (k mod 7)) <= 6) by (apply (inject_Z_le _ 6); lia).
  split.
  - apply Qle_shift_div_l; lra.
  - apply Qlt_shift_div_r; lra.
Qed.

Lemma bound_parameters_are_in_range_witness :
  exists el',
    nth_error (document (initElements part_000 demoIdle demoLookup 1000 demoRandom)) 0
    = Some el'
    /\ parametersInRange el'.
Proof.
  destruct (bound_parameters_are_in_range part_000 demoIdle demoLookup 1000 demoRandom
              0 freshElement demoRandom_unit) as [el' [H [_ [Hp _]]]].
  - left. reflexivity.
  - reflexivity.
  - reflexivity.
  - exists el'. split; assumption.
Defined.

(** ** The microphone flag, the tracks and the display *)

Lemma enabled_after_enable (v : bool) (stream : MediaStream) (t : Track) :
  In t (getAudioTracks (enableAudioTracks v stream)) -> enabled t = v.
Proof.
  unfold getAudioTracks, enableAudioTracks. intro H.
  apply filter_In in H as [H Ha]. apply in_map_iff in H as [t0 [E _]].
  destruct (isAudio t0) eqn:E0; subst t; [reflexivity |].
  rewrite E0 in Ha. discriminate.
Qed.

Lemma other_tracks_after_enable (v : bool) (stream : MediaStream) :
  filter (fun t => negb (isAudio t)) (enableAudioTracks v stream)
  = filter (fun t => negb (isAudio t)) stream.
Proof.
  unfold enableAudioTracks. induction stream as [|t stream IH]; [reflexivity |].
  simpl. destruct (isAudio t) eqn:E.
  - unfold isAudio at 1. simpl. fold (isAudio t). rewrite E. simpl. exact IH.
  - rewrite E. simpl. rewrite IH. reflexivity.
Qed.

(** X8.  Whenever toggleMic() flips the flag (there is a recorder, or the
    stream has an audio track) and a stream is present, it sets [enabled] of
    every audio track of the stream to the new flag and leaves the other
    tracks alone. *)
Theorem tracks_follow_the_flag (bld : Build) (s : VoiceChat) (wall : Z)
    (stream : MediaStream) :
  audioStream s = Some stream ->
  canFlip s = true ->
  let s' := fst (toggleMic bld s wall) in
  isMicOn s' = negb (isMicOn s)
  /\ audioStream s' = Some (enableAudioTracks (isMicOn s') stream)
  /\ (forall t, In t (getAudioTracks (enableAudioTracks (isMicOn s') stream)) ->
        enabled t = isMicOn s')
  /\ filter (fun t => negb (isAudio t)) (enableAudioTracks (isMicOn s') stream)
     = filter (fun t => negb (isAudio t)) stream.
Proof.
  intros Hs Hc s'. unfold s'. rewrite toggleMic_unfold. simpl.
  destruct (flipMic_flips s Hc) as [Hf _].
  split; [exact Hf |]. split.
  - rewrite Hf. unfold flipMic, canFlip in *. rewrite Hs in *.
    destruct (mediaRecorder s) as [r |].
    + destruct (isMicOn s);
        match goal with |- context [guarded ?a ?b ?c] => destruct (guarded a b c) end;
        reflexivity.
    + simpl in Hc. rewrite Hc. reflexivity.
  - split; [intros t; apply enabled_after_enable | apply other_tracks_after_enable].
Qed.

Lemma tracks_follow_the_flag_witness :
  audioStream (fst (toggleMic part_000 (demoCapturing part_000) 7))
  = Some (enableAudioTracks false demoStream).
Proof.
  assert (Hs : audioStream (demoCapturing part_000) = Some demoStream)
    by (vm_compute; reflexivity).
  assert (Hc : canFlip (demoCapturing part_000) = true) by (vm_compute; reflexivity).
  destruct (tracks_follow_the_flag part_000 (demoCapturing part_000) 7 demoStream Hs Hc)
    as [Hf [Ha _]].
  rewrite Ha, Hf. vm_compute. reflexivity.
Defined.

Lemma updateMicDisplay_shows (bld : Build) (s : VoiceChat) :
  displayCurrent bld (updateMicDisplay bld s).
Proof.
  unfold displayCurrent, updateMicDisplay. simpl. split.
  - destruct (toggleBtn s); reflexivity.
  - destruct bld; [| exact I]. destruct (micStatus s); reflexivity.
Qed.

(** X9.  After every toggleMic() and after every initElements() the display
    shows the flag: a bound toggle button carries "is--on" exactly when the
    microphone is on and "is--off" exactly when it is off, and in
    voice_chat_lib a bound status line reads the matching text. *)
Theorem display_shows_the_flag (bld : Build) (s : VoiceChat) :
  (forall wall,
     let s' := fst (toggleMic bld s wall) in
     displayCurrent bld s'
     /\ forall b, toggleBtn s' = Some b ->
          isOn b = isMicOn s' /\ isOff b = negb (isMicOn s'))
  /\ (forall q now rand,
        let s' := initElements bld s q now rand in
        displayCurrent bld s'
        /\ forall b, toggleBtn s' = Some b ->
             isOn b = isMicOn s' /\ isOff b = negb (isMicOn s')).
Proof.
  assert (H : forall s0,
             displayCurrent bld (updateMicDisplay bld s0)
             /\ forall b, toggleBtn (updateMicDisplay bld s0) = Some b ->
                  isOn b = isMicOn (updateMicDisplay bld s0)
                  /\ isOff b = negb (isMicOn (updateMicDisplay bld s0))).
  { intro s0. split; [apply updateMicDisplay_shows |].
    simpl. intros b Hb. destruct (toggleBtn s0); inversion Hb. split; reflexivity. }
  split.
  - intro wall. rewrite toggleMic_unfold. apply H.
  - intros q now rand. apply H.
Qed.

Lemma toggleMic_keeps_callbacks (bld : Build) (s : VoiceChat) (wall : Z) :
  onToggle (fst (toggleMic bld s wall)) = onToggle s.
Proof.
  rewrite toggleMic_unfold. simpl. unfold flipMic.
  destruct (mediaRecorder s) as [r |].
  - destruct (isMicOn s);
      match goal with |- context [guarded ?a ?b ?c] => destruct (guarded a b c) end;
      reflexivity.
  - destruct (audioStream s) as [stream |]; [| reflexivity].
    destruct (0 <? List.length (getAudioTracks stream))%nat; reflexivity.
Qed.

Lemma callbacks_flipMic (s : VoiceChat) : callbacks (snd (flipMic s)) = [].
Proof.
  unfold flipMic. destruct (mediaRecorder s) as [[rs ro] |].
  - destruct (isMicOn s); destruct rs; reflexivity.
  - destruct (audioStream s) as [stream |]; [| reflexivity].
    destruct (0 <? List.length (getAudioTracks stream))%nat; reflexivity.
Qed.

Lemma recorderCalls_length_app (a b : list Effect) :
  List.length (recorderCalls (a ++ b))
  = (List.length (recorderCalls a) + List.length (recorderCalls b))%nat.
Proof. rewrite recorderCalls_app. apply length_app. Qed.

(** X10.  With a recorder that follows the flag (recording while the
    microphone is on, paused while it is off), any number of toggleMic() calls
    keeps it so: every call makes exactly one recorder call, a pause() on a
    recording recorder or a resume() on a paused one, the flag ends up flipped
    exactly when the number of calls is odd, and an assigned toggle callback
    is called once per call. *)
Theorem recorder_follows_any_number_of_toggles (bld : Build) (walls : list Z) :
  forall (s : VoiceChat) (r : MediaRecorder),
    mediaRecorder s = Some r ->
    inLockstep s = true ->
    let result := toggleRun bld s walls in
    inLockstep (fst result) = true
    /\ (exists r', mediaRecorder (fst result) = Some r'
                   /\ state r' = if isMicOn (fst result) then recording else paused)
    /\ isMicOn (fst result)
       = (if Nat.even (List.length walls) then isMicOn s else negb (isMicOn s))
    /\ List.length (recorderCalls (snd result)) = List.length walls
    /\ (forall m st, In (m, st) (recorderCalls (snd result)) ->
          (m = pause /\ st = recording) \/ (m = resume /\ st = paused))
    /\ (onToggle s = true -> List.length (callbacks (snd result)) = List.length walls).
Proof.
  induction walls as [|wall walls IH]; intros s r Hr Hl.
  - simpl. split; [exact Hl |]. split.
    + exists r. split; [exact Hr |]. unfold inLockstep in Hl. rewrite Hr in Hl.
      destruct (state r), (isMicOn s); simpl in Hl; try discriminate; reflexivity.
    + repeat split; try reflexivity. intros m st [].
  - cbn [toggleRun].
    pose proof (toggleMic_unfold bld s wall) as Eu.
    destruct (toggleMic bld s wall) as [s1 fx1] eqn:Et.
    injection Eu as Es1 Efx1.
    destruct (flipMic_lockstep s r Hr Hl) as [K1 [R1 L1]].
    destruct (flipMic_flips s) as [F1 _].
    { unfold canFlip. rewrite Hr. reflexivity. }
    assert (Hr1 : mediaRecorder s1
                  = Some {| state := if isMicOn s then paused else recording;
                            onstop := onstop r |}) by (rewrite Es1; exact R1).
    assert (Hl1 : inLockstep s1 = true)
      by (rewrite Es1, updateMicDisplay_inLockstep; exact L1).
    assert (Hm1 : isMicOn s1 = negb (isMicOn s)) by (rewrite Es1; exact F1).
    assert (Ho1 : onToggle s1 = onToggle s).
    { pose proof (toggleMic_keeps_callbacks bld s wall) as H. rewrite Et in H. exact H. }
    destruct (IH s1 _ Hr1 Hl1) as [I1 [I2 [I3 [I4 [I5 I6]]]]].
    destruct (toggleRun bld s1 walls) as [s2 fx2]. cbn [fst snd] in *.
    split; [exact I1 |]. split; [exact I2 |]. split.
    { rewrite I3, Hm1. cbn [List.length]. rewrite Nat.even_succ, <- Nat.negb_even.
      destruct (Nat.even (List.length walls)); simpl;
        [reflexivity | apply negb_involutive]. }
    assert (Ec : recorderCalls fx1
                 = [if isMicOn s then (pause, recording) else (resume, paused)]).
    { rewrite Efx1, recorderCalls_app, recorderCalls_fire, app_nil_r. exact K1. }
    split.
    { rewrite recorderCalls_length_app, Ec, I4. reflexivity. }
    split.
    { intros m st Hin. rewrite recorderCalls_app, Ec in Hin.
      destruct Hin as [E | Hin]; [| apply (I5 m st Hin)].
      destruct (isMicOn s); inversion E; auto. }
    intro Ho. rewrite callbacks_app, length_app, I6 by (rewrite Ho1; exact Ho).
    rewrite Efx1, callbacks_app, callbacks_flipMic, callbacks_fire.
    change (onToggle (fst (flipMic s))) with (onToggle (updateMicDisplay bld (fst (flipMic s)))).
    rewrite <- Es1, Ho1, Ho. reflexivity.
Qed.

Lemma recorder_follows_any_number_of_toggles_witness :
  isMicOn (fst (toggleRun part_000 (demoCapturing part_000) [1; 2; 3]%Z)) = false
  /\ List.length (recorderCalls (snd (toggleRun part_000 (demoCapturing part_000)
                                        [1; 2; 3]%Z))) = 3%nat.
Proof.
  destruct (recorder_follows_any_number_of_toggles part_000 [1; 2; 3]%Z
              (demoCapturing part_000) {| state := recording; onstop := false |})
    as [_ [_ [Hm [Hc _]]]].
  - vm_compute. reflexivity.
  - vm_compute. reflexivity.
  - split; [rewrite Hm; vm_compute; reflexivity | exact Hc].
Defined.

(** ** What end() leaves behind *)

Lemma invoke_stop_inactive (r : MediaRecorder) : state (invoke stop r) = inactive.
Proof. destruct r as [[| |] o]; reflexivity. Qed.

Lemma end_recorder (bld : Build) (s : VoiceChat) (wall : Z) (r' : MediaRecorder) :
  mediaRecorder (fst (end_ bld s wall)) = Some r' -> state r' = inactive.
Proof.
  unfold end_. simpl. destruct (mediaRecorder s) as [r |]; [| discriminate].
  destruct (isActive r) eqn:Ea; intro H; inversion H; subst r'.
  - apply invoke_stop_inactive.
  - unfold isActive in Ea. destruct (state r); simpl in Ea; try discriminate. reflexivity.
Qed.

(** X11.  After end() every track of the stream is stopped, the audio context
    is closed, both bound buttons are disabled and the recorder, if there is
    one, is inactive; the microphone flag, the started flag, the start time,
    the smoothed amplitude, the buffered fragments, the pending frame id and
    the elements are left as they were. *)
Theorem end_stops_capture (bld : Build) (s : VoiceChat) (wall : Z) :
  let s' := fst (end_ bld s wall) in
  (forall stream, audioStream s = Some stream ->
     audioStream s' = Some (map stopTrack stream)
     /\ forall t, In t (map stopTrack stream) -> stopped t = true)
  /\ (forall ctx, audioContext s = Some ctx ->
        audioContext s' = Some {| ctxState := closed |})
  /\ (forall b, toggleBtn s' = Some b -> disabled b = true)
  /\ (forall b, endBtn s' = Some b -> disabled b = true)
  /\ (forall r, mediaRecorder s' = Some r -> state r = inactive)
  /\ isMicOn s' = isMicOn s /\ audioStarted s' = audioStarted s
  /\ startTime s' = startTime s /\ smoothedAmplitude s' = smoothedAmplitude s
  /\ recordedChunks s' = recordedChunks s /\ animationId s' = animationId s
  /\ document s' = document s.
Proof.
  cbv zeta. split.
  { intros stream Hs. simpl. rewrite Hs. split; [reflexivity |].
    intros t Ht. apply in_map_iff in Ht as [t0 [<- _]]. reflexivity. }
  split. { intros ctx Hc. simpl. rewrite Hc. reflexivity. }
  split. { simpl. intros b Hb. destruct (toggleBtn s); inversion Hb. reflexivity. }
  split. { simpl. intros b Hb. destruct (endBtn s); inversion Hb. reflexivity. }
  split. { intros r Hr. apply (end_recorder bld s wall r Hr). }
  repeat split.
Qed.

Lemma recorderCalls_cancel (ids : list nat) :
  recorderCalls (map CancelAnimationFrame ids) = [].
Proof. induction ids as [|i ids IH]; [reflexivity | exact IH]. Qed.

Lemma end_without_active (bld : Build) (s : VoiceChat) (wall : Z) :
  (forall r, mediaRecorder s = Some r -> state r = inactive) ->
  callbacks (snd (end_ bld s wall)) = (if onEnd s then [noAudioNotice wall] else [])
  /\ recorderCalls (snd (end_ bld s wall)) = []
  /\ mediaRecorder (fst (end_ bld s wall)) = mediaRecorder s.
Proof.
  intro Hin.
  assert (Hi : forall r, mediaRecorder s = Some r -> isActive r = false).
  { intros r Hr. unfold isActive. rewrite (Hin r Hr). reflexivity. }
  split; [| split].
  - rewrite end_callbacks. destruct (mediaRecorder s) as [r |]; [| reflexivity].
    rewrite (Hi r eq_refl). reflexivity.
  - unfold end_. cbn [snd]. rewrite recorderCalls_app, recorderCalls_cancel. simpl.
    destruct (mediaRecorder s) as [r |]; [rewrite (Hi r eq_refl) |];
      apply recorderCalls_fire.
  - unfold end_. cbn [fst mediaRecorder].
    destruct (mediaRecorder s) as [r |]; [rewrite (Hi r eq_refl) |]; reflexivity.
Qed.

(** X12.  A second end() finds no active recorder, whatever the first one
    found: it makes no recorder call and calls an assigned end callback at
    once with the notification that has no clip, also when the first call has
    left a clip to be delivered by the stop handler. *)
Theorem ending_twice_reports_no_clip (bld : Build) (s : VoiceChat) (wall1 wall2 : Z) :
  let second := end_ bld (fst (end_ bld s wall1)) wall2 in
  callbacks (snd second) = (if onEnd s then [noAudioNotice wall2] else [])
  /\ recorderCalls (snd second) = []
  /\ mediaRecorder (fst second) = mediaRecorder (fst (end_ bld s wall1)).
Proof.
  cbv zeta.
  change (onEnd s) with (onEnd (fst (end_ bld s wall1))).
  apply end_without_active. intros r Hr. apply (end_recorder bld s wall1 r Hr).
Qed.

(** ** When start() asks for the microphone *)

(** X13.  start() asks for the microphone exactly when audio has not
    started.  So a second start() before the first request is answered asks
    again; once a request is granted, start() asks no more, not even after
    end(); only after reset() does start() ask again. *)
Theorem start_asks_only_while_not_started (bld : Build) (s : VoiceChat)
    (q q' : Lookup) (now now' : Q) (rand rand' : nat -> Q) :
  snd (start bld s q now rand) = negb (audioStarted s)
  /\ snd (start bld (fst (start bld s q now rand)) q' now' rand') = negb (audioStarted s)
  /\ (forall stream now0 now1 dataArray frame rec wall wall',
        let granted := fst (audioGranted bld s stream now0 now1 dataArray frame rec wall) in
        snd (start bld granted q now rand) = false
        /\ snd (start bld (fst (end_ bld granted wall')) q now rand) = false
        /\ snd (start bld (fst (reset bld (fst (end_ bld granted wall')))) q now rand)
           = true).
Proof.
  split; [reflexivity |]. split; [reflexivity |].
  intros. cbv zeta. repeat split.
Qed.

(** ** reset() *)

Lemma option_map_const_twice {A B : Type} (c : B) (o : option A) :
  option_map (fun _ => c) (option_map (fun _ => c) o) = option_map (fun _ => c) o.
Proof. destruct o; reflexivity. Qed.

(** X14.  reset() is idempotent: a second reset() changes nothing and has no
    effect on the browser (it cancels no frame and stops no recorder). *)
Theorem reset_is_idempotent (bld : Build) (s : VoiceChat) :
  fst (reset bld (fst (reset bld s))) = fst (reset bld s)
  /\ snd (reset bld (fst (reset bld s))) = [].
Proof.
  destruct s as [cfg str ctx an mic aid on amp st lf vels tb eb ms md bound started obs
                 rec chunks os ot oe tbb ebb doc].
  destruct aid as [[|n] |], rec as [[[| |] o] |], tb as [b1 |], eb as [b2 |],
    ms as [t1 |], md as [t2 |], tbb, ebb, bld;
    split; reflexivity.
Qed.

(** X15.  reset() clears neither the smoothed amplitude nor the elements: a
    session started after reset() keeps every initialised element as it was
    (same random parameters, rotation and scale), and the first frame of the
    new session smooths from the amplitude the old session ended with. *)
Theorem restart_keeps_elements_and_amplitude (bld : Build) (s : VoiceChat) (q : Lookup)
    (now : Q) (rand : nat -> Q) :
  let started := fst (start bld (fst (reset bld s)) q now rand) in
  smoothedAmplitude started = smoothedAmplitude s
  /\ (forall i el, nth_error (document s) i = Some el -> initialized el = true ->
        nth_error (document started) i = Some el)
  /\ (forall stream now0 now1 dataArray frame rec wall,
        smoothedAmplitude
          (fst (audioGranted bld started stream now0 now1 dataArray frame rec wall))
        = smoothStep (config s) (smoothedAmplitude s) (amplitudeNormalized dataArray)).
Proof.
  cbv zeta. split; [reflexivity |]. split.
  - intros i el Hel Hi. unfold start. cbn [fst]. rewrite initElements_document.
    apply initLoop_keeps_initialized; assumption.
  - intros. reflexivity.
Qed.

Lemma restart_keeps_elements_and_amplitude_witness :
  nth_error (document (fst (start part_000 (fst (reset part_000 (demoCapturing part_000)))
                              demoLookup 2000 demoRandom))) 0
  = Some (demoElement part_000).
Proof.
  apply (proj1 (proj2 (restart_keeps_elements_and_amplitude part_000
                         (demoCapturing part_000) demoLookup 2000 demoRandom))).
  - vm_compute. reflexivity.
  - vm_compute. reflexivity.
Defined.

(** X16.  reset() drops the recorder only while it is still running.  After
    end() the stopped recorder therefore survives reset(), and toggleMic()
    then turns the flag off although there is no stream; a session started
    after that records on enabled tracks while the flag says off. *)
Theorem stopped_recorder_survives_reset (bld : Build) (s : VoiceChat) (r : MediaRecorder)
    (wall wall' : Z) :
  mediaRecorder s = Some r ->
  state r <> inactive ->
  let idle := fst (reset bld (fst (end_ bld s wall))) in
  let toggled := fst (toggleMic bld idle wall') in
  isMicOn idle = true
  /\ audioStream idle = None
  /\ mediaRecorder idle = Some {| state := inactive; onstop := true |}
  /\ isMicOn toggled = false
  /\ recorderCalls (snd (toggleMic bld idle wall')) = []
  /\ (forall q now rand stream now0 now1 dataArray frame wall'',
        let restarted :=
          fst (audioGranted bld (fst (start bld toggled q now rand)) stream now0 now1
                 dataArray frame recorderStarted wall'') in
        isMicOn restarted = false
        /\ mediaRecorder restarted = Some {| state := recording; onstop := false |}
        /\ audioStream restarted = Some stream
        /\ inLockstep restarted = false)
  /\ mediaRecorder (fst (reset bld s)) = None.
Proof.
  intros Hr Hst. cbv zeta.
  assert (Ha : isActive r = true).
  { unfold isActive. destruct (state r); simpl; try reflexivity. contradiction. }
  assert (Hn : negb (RecorderState_eqb (state r) inactive) = true).
  { destruct (state r); simpl; try reflexivity. contradiction. }
  assert (Hidle : mediaRecorder (fst (reset bld (fst (end_ bld s wall))))
                  = Some {| state := inactive; onstop := true |}).
  { unfold reset, end_. cbn [fst mediaRecorder]. rewrite Hr, Ha.
    assert (E : invoke stop {| state := state r; onstop := true |}
                = {| state := inactive; onstop := true |}).
    { destruct (state r); reflexivity. }
    rewrite E. reflexivity. }
  split; [reflexivity |]. split; [reflexivity |]. split; [exact Hidle |].
  assert (Hflip : flipMic (fst (reset bld (fst (end_ bld s wall))))
                  = (setMic (fst (reset bld (fst (end_ bld s wall)))) false None
                       (Some {| state := inactive; onstop := true |}), [])).
  { unfold flipMic. rewrite Hidle. reflexivity. }
  split. { rewrite toggleMic_unfold, Hflip. reflexivity. }
  split. { rewrite recorderCalls_toggleMic, Hflip. reflexivity. }
  split.
  - intros. cbv zeta. rewrite toggleMic_unfold, Hflip. repeat split.
  - unfold reset. cbn [fst mediaRecorder]. rewrite Hr, Hn. reflexivity.
Qed.

Lemma stopped_recorder_survives_reset_witness :
  isMicOn (fst (toggleMic part_000
                  (fst (reset part_000 (fst (end_ part_000 (demoCapturing part_000) 8))))
                  9)) = false.
Proof.
  refine (proj1 (proj2 (proj2 (proj2
            (stopped_recorder_survives_reset part_000 (demoCapturing part_000)
               {| state := recording; onstop := false |} 8 9 _ _))))).
  - vm_compute. reflexivity.
  - discriminate.
Defined.

(** ** The clip *)

Lemma newBlob_app (a b : list Blob) (mime : string) :
  size (newBlob (a ++ b) mime) = (size (newBlob a mime) + size (newBlob b mime))%N.
Proof.
  unfold newBlob. simpl. induction a as [|x a IH]; simpl; [reflexivity |].
  rewrite IH. lia.
Qed.

Lemma dataAvailable_chunks (s : VoiceChat) (data : option Blob) :
  startTime (dataAvailable s data) = startTime s
  /\ onEnd (dataAvailable s data) = onEnd s
  /\ exists kept,
       recordedChunks (dataAvailable s data) = recordedChunks s ++ kept
       /\ size (newBlob kept "audio/webm") = match data with Some b => size b | None => 0%N end
       /\ forall c, In c kept -> (0 < size c)%N.
Proof.
  unfold dataAvailable. destruct data as [d |].
  - destruct (0 <? size d)%N eqn:E.
    + repeat split. exists [d]. simpl. repeat split; [lia |].
      intros c [<- | []]. apply N.ltb_lt. exact E.
    + repeat split. exists []. rewrite app_nil_r. repeat split; [| intros c []].
      apply N.ltb_ge in E. simpl. lia.
  - repeat split. exists []. rewrite app_nil_r. repeat split. intros c [].
Qed.

Lemma dataEvents_chunks (datas : list (option Blob)) :
  forall s : VoiceChat,
    startTime (dataEvents s datas) = startTime s
    /\ onEnd (dataEvents s datas) = onEnd s
    /\ exists kept,
         recordedChunks (dataEvents s datas) = recordedChunks s ++ kept
         /\ size (newBlob kept "audio/webm") = delivered datas
         /\ forall c, In c kept -> (0 < size c)%N.
Proof.
  induction datas as [|d datas IH]; intro s.
  - repeat split. exists []. rewrite app_nil_r. repeat split. intros c [].
  - change (dataEvents s (d :: datas)) with (dataEvents (dataAvailable s d) datas).
    destruct (IH (dataAvailable s d)) as [H1 [H2 [k2 [H3 [H4 H5]]]]].
    destruct (dataAvailable_chunks s d) as [G1 [G2 [k1 [G3 [G4 G5]]]]].
    rewrite H1, H2, G1, G2. repeat split.
    exists (k1 ++ k2). rewrite H3, G3, <- app_assoc. split; [reflexivity |]. split.
    + rewrite newBlob_app, G4, H4. reflexivity.
    + intros c Hc. apply in_app_or in Hc as [Hc | Hc]; [apply G5 | apply H5]; exact Hc.
Qed.

(** X17.  The clip that the stop handler hands to the end callback holds
    exactly what the recorder delivered: its size is the size of the fragments
    buffered before plus the total size of the data of all [dataavailable]
    events since (events without data or with empty data add no fragment);
    the metadata repeat that size with the type "audio/webm", and the duration
    is the time from the start time to the stop event. *)
Theorem clip_holds_the_delivered_data (bld : Build) (s : VoiceChat)
    (datas : list (option Blob)) (now : Q) (wall : Z) (io : StopIO) (n : Notification) :
  In n (callbacks (recorderStopped bld (dataEvents s datas) now wall io)) ->
  exists b m,
    audioBlob n = Some b /\ audioMeta n = Some m
    /\ size b = (size (newBlob (recordedChunks s) "audio/webm") + delivered datas)%N
    /\ metaSize m = size b
    /\ type b = "audio/webm"%string /\ mimeType m = "audio/webm"%string
    /\ duration m = now - toNumber (startTime s)
    /\ timestamp n = wall.
Proof.
  intro Hin.
  destruct (dataEvents_chunks datas s) as [Ht [_ [kept [Hk [Hs _]]]]].
  assert (Hsize : size (newBlob (recordedChunks (dataEvents s datas)) "audio/webm")
                  = (size (newBlob (recordedChunks s) "audio/webm") + delivered datas)%N).
  { rewrite Hk, newBlob_app, Hs. reflexivity. }
  unfold recorderStopped in Hin. rewrite Ht in Hin. destruct bld.
  - rewrite callbacks_fire in Hin. destruct (onEnd (dataEvents s datas)); [| destruct Hin].
    destruct Hin as [<- | []]. do 2 eexists. simpl.
    repeat split; try reflexivity. exact Hsize.
  - destruct (readBinary io); [| destruct Hin].
    destruct (readDataURL io); [| destruct Hin].
    destruct (analyzeAudio (decoding io)); rewrite callbacks_fire in Hin;
      (destruct (onEnd (dataEvents s datas)); [| destruct Hin]);
      destruct Hin as [<- | []]; do 2 eexists; simpl;
      repeat split; try reflexivity; exact Hsize.
Qed.

Lemma clip_holds_the_delivered_data_witness :
  exists n b,
    callbacks (recorderStopped voice_chat_lib
                 (dataEvents (fst (end_ voice_chat_lib (demoCapturing voice_chat_lib) 9))
                    [Some {| size := 0; type := "audio/webm" |}; None;
                     Some {| size := 4096; type := "audio/webm" |}])
                 5000 10 demoStopIO) = [n]
    /\ audioBlob n = Some b /\ size b = 4096%N.
Proof.
  assert (Hc : exists n,
             callbacks (recorderStopped voice_chat_lib
                 (dataEvents (fst (end_ voice_chat_lib (demoCapturing voice_chat_lib) 9))
                    [Some {| size := 0; type := "audio/webm" |}; None;
                     Some {| size := 4096; type := "audio/webm" |}])
                 5000 10 demoStopIO) = [n]).
  { vm_compute. eexists. reflexivity. }
  destruct Hc as [n Hc].
  destruct (clip_holds_the_delivered_data voice_chat_lib
              (fst (end_ voice_chat_lib (demoCapturing voice_chat_lib) 9))
              [Some {| size := 0; type := "audio/webm" |}; None;
               Some {| size := 4096; type := "audio/webm" |}]
              5000 10 demoStopIO n) as [b [m [Hb [_ [Hs _]]]]].
  - rewrite Hc. left. reflexivity.
  - exists n, b. split; [exact Hc |]. split; [exact Hb |].
    rewrite Hs. vm_compute. reflexivity.
Defined.

(** ** The readable metadata *)

(** X18.  For a duration that is not negative, formatDuration prints whole
    minutes and seconds with 0 <= sec < 60 and 60 * min + sec equal to the
    duration in whole seconds, rounded down. *)
Theorem formatDuration_splits_whole_seconds (ms : Q) :
  0 <= ms ->
  let min := fst (formatDuration ms) in
  let sec := snd (formatDuration ms) in
  (0 <= min)%Z /\ (0 <= sec < 60)%Z
  /\ (60 * min + sec = Qfloor (ms / 1000))%Z
  /\ inject_Z (60 * min + sec) * 1000 <= ms < inject_Z (60 * min + sec + 1) * 1000.
Proof.
  intro Hms. unfold formatDuration. cbn [fst snd].
  set (total := Qfloor (ms / 1000)).
  assert (Ht : (0 <= total)%Z).
  { unfold total. rewrite <- (Qfloor_Z 0). apply Qfloor_resp_le.
    change (inject_Z 0) with 0. apply Qle_shift_div_l; lra. }
  assert (Hmin : Qfloor (inject_Z total / 60) = (total / 60)%Z).
  { change 60 with (inject_Z 60). symmetry. apply Zdiv_Qdiv. }
  rewrite Hmin, (Z.rem_mod_nonneg total 60) by lia.
  pose proof (Z.div_mod total 60 ltac:(lia)) as Hdm.
  pose proof (Z.mod_pos_bound total 60 ltac:(lia)) as Hmod.
  assert (Hsum : (60 * (total / 60) + total mod 60 = total)%Z) by lia.
  split; [apply Z.div_pos; lia |]. split; [exact Hmod |]. split; [exact Hsum |].
  rewrite Hsum. unfold total.
  pose proof (Qfloor_le (ms / 1000)) as Hlo.
  pose proof (Qlt_floor (ms / 1000)) as Hhi.
  assert (E : ms == ms / 1000 * 1000) by (field).
  split.
  - rewrite E at 2. apply Qmult_le_compat_r; [exact Hlo | lra].
  - rewrite E at 1. apply Qmult_lt_compat_r; [lra | exact Hhi].
Qed.

Lemma formatDuration_splits_whole_seconds_witness :
  (60 * fst (formatDuration 125999) + snd (formatDuration 125999) = 125)%Z.
Proof.
  assert (H : 0 <= 125999) by lra.
  rewrite (proj1 (proj2 (proj2 (formatDuration_splits_whole_seconds 125999 H)))).
  vm_compute. reflexivity.
Defined.

Lemma toFixed_error (digits : nat) (x : Q) :
  0 <= x -> Qabs (toFixed digits x - x) <= (1 # 2) / pow10 digits.
Proof.
  intro Hx. pose proof (pow10_pos digits) as Hp.
  unfold toFixed. rewrite (Qltb_false x 0 Hx). unfold roundHalfUp.
  set (y := x * pow10 digits).
  pose proof (Qfloor_le (y + (1 # 2))) as Hlo.
  pose proof (Qlt_floor (y + (1 # 2))) as Hhi.
  rewrite inject_Z_plus in Hhi. change (inject_Z 1) with 1 in Hhi.
  set (z := inject_Z (Qfloor (y + (1 # 2)))) in *.
  assert (E : z / pow10 digits - x == (z - y) / pow10 digits).
  { unfold y. field. lra. }
  rewrite E. apply Qabs_Qle_condition. split.
  - apply Qle_shift_div_l; [exact Hp |].
    setoid_replace (- ((1 # 2) / pow10 digits) * pow10 digits) with (- (1 # 2))
      by (field; lra).
    lra.
  - apply Qle_shift_div_r; [exact Hp |].
    setoid_replace ((1 # 2) / pow10 digits * pow10 digits) with (1 # 2) by (field; lra).
    lra.
Qed.

Lemma bytes_between (bytes : N) (lo hi : Z) :
  (lo <= Z.of_N bytes <= hi)%Z ->
  inject_Z lo <= inject_Z (Z.of_N bytes) <= inject_Z hi.
Proof. intros [H1 H2]. split; apply inject_Z_le; assumption. Qed.

Lemma tenth_of_a_unit : (1 # 2) / pow10 1 == 1 # 20.
Proof. vm_compute. reflexivity. Qed.

(** X19.  formatBytes picks the unit by the thresholds 1024, 1024^2 and
    1024^3: below 1024 it prints the byte count itself; from there on it
    prints the size in KB, MB or GB rounded to one decimal, a value within
    0.05 of the exact quotient that is at least 1 and, for KB and MB, at most
    1024 (1024.0 itself is printed just below the next threshold). *)
Theorem formatBytes_picks_the_unit (bytes : N) :
  let b := inject_Z (Z.of_N bytes) in
  let v := fst (formatBytes bytes) in
  let u := snd (formatBytes bytes) in
  ((bytes < 1024)%N -> v = b /\ u = "Bytes"%string)
  /\ ((1024 <= bytes < 1048576)%N ->
      u = "KB"%string /\ 1 <= v <= 1024 /\ Qabs (v - b / 1024) <= 1 # 20)
  /\ ((1048576 <= bytes < 1073741824)%N ->
      u = "MB"%string /\ 1 <= v <= 1024 /\ Qabs (v - b / 1048576) <= 1 # 20)
  /\ ((1073741824 <= bytes)%N ->
      u = "GB"%string /\ 1 <= v /\ Qabs (v - b / 1073741824) <= 1 # 20).
Proof.
  cbv zeta. unfold formatBytes.
  split; [| split; [| split]].
  - intro H. apply N.ltb_lt in H. rewrite H. split; reflexivity.
  - intros [H1 H2].
    assert (E1 : (bytes <? 1024)%N = false) by (apply N.ltb_ge; exact H1).
    assert (E2 : (bytes <? 1048576)%N = true) by (apply N.ltb_lt; exact H2).
    rewrite E1, E2. cbn [fst snd].
    destruct (bytes_between bytes 1024 1048576) as [B1 B2]; [lia |].
    change (inject_Z 1024) with 1024 in B1. change (inject_Z 1048576) with 1048576 in B2.
    assert (Hx : 1 <= inject_Z (Z.of_N bytes) / 1024 <= 1024).
    { split; [apply Qle_shift_div_l | apply Qle_shift_div_r]; lra. }
    split; [reflexivity |]. split.
    + apply (toFixed_range 1 _ 1 1024 10 10240);
        [vm_compute; reflexivity | vm_compute; reflexivity | lra | lra].
    + rewrite <- tenth_of_a_unit. apply toFixed_error. lra.
  - intros [H1 H2].
    assert (E1 : (bytes <? 1024)%N = false) by (apply N.ltb_ge; lia).
    assert (E2 : (bytes <? 1048576)%N = false) by (apply N.ltb_ge; exact H1).
    assert (E3 : (bytes <? 1073741824)%N = true) by (apply N.ltb_lt; exact H2).
    rewrite E1, E2, E3. cbn [fst snd].
    destruct (bytes_between bytes 1048576 1073741824) as [B1 B2]; [lia |].
    change (inject_Z 1048576) with 1048576 in B1.
    change (inject_Z 1073741824) with 1073741824 in B2.
    assert (Hx : 1 <= inject_Z (Z.of_N bytes) / 1048576 <= 1024).
    { split; [apply Qle_shift_div_l | apply Qle_shift_div_r]; lra. }
    split; [reflexivity |]. split.
    + apply (toFixed_range 1 _ 1 1024 10 10240);
        [vm_compute; reflexivity | vm_compute; reflexivity | lra | lra].
    + rewrite <- tenth_of_a_unit. apply toFixed_error. lra.
  - intro H1.
    assert (E1 : (bytes <? 1024)%N = false) by (apply N.ltb_ge; lia).
    assert (E2 : (bytes <? 1048576)%N = false) by (apply N.ltb_ge; lia).
    assert (E3 : (bytes <? 1073741824)%N = false) by (apply N.ltb_ge; exact H1).
    rewrite E1, E2, E3. cbn [fst snd].
    destruct (bytes_between bytes 1073741824 (Z.of_N bytes)) as [B1 _]; [lia |].
    change (inject_Z 1073741824) with 1073741824 in B1.
    assert (Hx : 1 <= inject_Z (Z.of_N bytes) / 1073741824).
    { apply Qle_shift_div_l; lra. }
    split; [reflexivity |]. split.
    + apply (toFixed_range 1 _ 1 (inject_Z (Z.of_N bytes)) 10 (Z.of_N bytes * 10)).
      * vm_compute. reflexivity.
      * rewrite inject_Z_mult. change (inject_Z 10) with 10. change (pow10 1) with 10.
        field.
      * lra.
      * split; [exact Hx |]. apply Qle_shift_div_r; lra.
    + rewrite <- tenth_of_a_unit. apply toFixed_error. lra.
Qed.

Lemma formatBytes_picks_the_unit_witness :
  formatBytes 1048575 = (toFixed 1 (1048575 / 1024), "KB"%string)
  /\ toFixed 1 (1048575 / 1024) == 1024.
Proof.
  destruct (formatBytes_picks_the_unit 1048575) as [_ [H _]].
  destruct H as [Hu [_ _]]; [lia |].
  split; [| vm_compute; reflexivity].
  rewrite (surjective_pairing (formatBytes 1048575)). rewrite Hu.
  vm_compute. reflexivity.
Defined.

(** ** The analysis of the clip *)

Lemma abs_sum_bounds (channel : list Q) (c : Q) :
  ((forall x, In x channel -> Qabs x <= c) ->
   Spec.sum (map Qabs channel) <= lengthQ channel * c)
  /\ ((forall x, In x channel -> c <= Qabs x) ->
      lengthQ channel * c <= Spec.sum (map Qabs channel))
  /\ 0 <= Spec.sum (map Qabs channel).
Proof.
  induction channel as [|a l [IH1 [IH2 IH3]]].
  - unfold lengthQ. simpl. change (inject_Z 0) with 0.
    split; [| split]; intros; lra.
  - cbn [map Spec.sum fold_right].
    change (fold_right Qplus 0 (map Qabs l)) with (Spec.sum (map Qabs l)).
    pose proof (lengthQ_cons a l) as Hl. pose proof (Qabs_nonneg a) as Ha.
    split; [| split].
    + intro H. rewrite Hl.
      assert (H1 := H a (or_introl eq_refl)).
      assert (H2 := IH1 (fun x Hx => H x (or_intror Hx))). lra.
    + intro H. rewrite Hl.
      assert (H1 := H a (or_introl eq_refl)).
      assert (H2 := IH2 (fun x Hx => H x (or_intror Hx))). lra.
    + lra.
Qed.

Lemma analyzeChannel_closed (channelData : list Q) :
  channelData <> [] ->
  exists m,
    avgAmplitude (analyzeChannel channelData) = Num m
    /\ m == Spec.sum (map Qabs channelData) / lengthQ channelData
    /\ isMostlySilence (analyzeChannel channelData) = Qltb m (2 # 100)
    /\ 0 < lengthQ channelData.
Proof.
  intro Hne. unfold analyzeChannel. simpl.
  rewrite (lengthQ_nonzero channelData Hne). simpl.
  eexists. split; [reflexivity |]. split.
  - rewrite fold_left_sum. field.
    apply Qeq_bool_neq. apply (lengthQ_nonzero channelData Hne).
  - split; [reflexivity |].
    destruct channelData as [|a l]; [contradiction |].
    rewrite lengthQ_cons. pose proof (lengthQ_nonneg l). lra.
Qed.

(** X20.  For a clip of at least one sample the mean amplitude lies between
    the smallest and the largest absolute sample: if every sample is within
    [c] of zero the mean is at most [c], and if every sample is at least [c]
    away from zero the mean is at least [c].  Hence a clip whose samples are
    all below 0.02 in absolute value is classified as silence, and a clip
    whose samples are all at or above 0.02 is not. *)
Theorem analysis_is_bounded_by_the_samples (channelData : list Q) :
  channelData <> [] ->
  exists m,
    avgAmplitude (analyzeChannel channelData) = Num m
    /\ 0 <= m
    /\ (forall c, (forall x, In x channelData -> Qabs x <= c) -> m <= c)
    /\ (forall c, (forall x, In x channelData -> c <= Qabs x) -> c <= m)
    /\ ((forall x, In x channelData -> Qabs x < 2 # 100) ->
        isMostlySilence (analyzeChannel channelData) = true)
    /\ ((forall x, In x channelData -> 2 # 100 <= Qabs x) ->
        isMostlySilence (analyzeChannel channelData) = false).
Proof.
  intro Hne. destruct (analyzeChannel_closed channelData Hne) as [m [Hm [Em [Hs Hn]]]].
  exists m. split; [exact Hm |].
  assert (Hup : forall c, (forall x, In x channelData -> Qabs x <= c) -> m <= c).
  { intros c H. rewrite Em. apply Qle_shift_div_r; [exact Hn |].
    pose proof (proj1 (abs_sum_bounds channelData c) H). lra. }
  assert (Hlow : forall c, (forall x, In x channelData -> c <= Qabs x) -> c <= m).
  { intros c H. rewrite Em. apply Qle_shift_div_l; [exact Hn |].
    pose proof (proj1 (proj2 (abs_sum_bounds channelData c)) H). lra. }
  split.
  { rewrite Em. apply Qle_shift_div_l; [exact Hn |].
    pose proof (proj2 (proj2 (abs_sum_bounds channelData 0))). lra. }
  split; [exact Hup |]. split; [exact Hlow |]. split.
  - intro H. rewrite Hs. apply Qltb_true.
    (* the largest absolute sample is itself below the threshold *)
    assert (Hmax : exists c, c < 2 # 100 /\ forall x, In x channelData -> Qabs x <= c).
    { clear - H. induction channelData as [|a l IH].
      - exists 0. split; [lra | intros x []].
      - destruct IH as [c [Hc Hall]]; [intros x Hx; apply H; right; exact Hx |].
        pose proof (H a (or_introl eq_refl)) as Ha.
        destruct (Qlt_le_dec c (Qabs a)) as [Hlt | Hle].
        + exists (Qabs a). split; [exact Ha |].
          intros x [<- | Hx]; [apply Qle_refl |]. pose proof (Hall x Hx). lra.
        + exists c. split; [exact Hc |].
          intros x [<- | Hx]; [exact Hle | apply Hall; exact Hx]. }
    destruct Hmax as [c [Hc Hall]]. pose proof (Hup c Hall). lra.
  - intro H. rewrite Hs. apply Qltb_false. apply Hlow. exact H.
Qed.

Lemma analysis_is_bounded_by_the_samples_witness :
  isMostlySilence (analyzeChannel [1 # 100; - (1 # 200); 0]) = true.
Proof.
  destruct (analysis_is_bounded_by_the_samples [1 # 100; - (1 # 200); 0])
    as [m [_ [_ [_ [_ [H _]]]]]]; [discriminate |].
  apply H. intros x [<- | [<- | [<- | []]]]; vm_compute; reflexivity.
Defined.

(** ** The configuration object *)

Section Objects.

Context {A : Type}.

Lemma get_assign_same (k : string) (v : A) (o : Obj A) : get k (assign k v o) = Some v.
Proof.
  induction o as [|[k' v'] o IH]; simpl.
  - rewrite String.eqb_refl. reflexivity.
  - destruct (String.eqb k k') eqn:E; simpl.
    + rewrite String.eqb_refl. reflexivity.
    + rewrite E. exact IH.
Qed.

Lemma get_assign_other (k k' : string) (v : A) (o : Obj A) :
  k <> k' -> get k' (assign k v o) = get k' o.
Proof.
  intro Hne. induction o as [|[k0 v0] o IH]; simpl.
  - destruct (String.eqb k' k) eqn:E; [| reflexivity].
    apply String.eqb_eq in E. subst. contradiction.
  - destruct (String.eqb k k0) eqn:E; simpl.
    + apply String.eqb_eq in E. subst k0.
      destruct (String.eqb k' k) eqn:E'; [| reflexivity].
      apply String.eqb_eq in E'. subst. contradiction.
    + rewrite IH. reflexivity.
Qed.

Lemma assign_same_value (k : string) (v : A) (o : Obj A) :
  get k o = Some v -> assign k v o = o.
Proof.
  induction o as [|[k' v'] o IH]; simpl; [discriminate |].
  destruct (String.eqb k k') eqn:E.
  - intro H. inversion H. apply String.eqb_eq in E. subst. reflexivity.
  - intro H. rewrite (IH H). reflexivity.
Qed.

Lemma get_assign_defined (k k' : string) (v : A) (o : Obj A) :
  get k' o <> None -> get k' (assign k v o) <> None.
Proof.
  intro H. destruct (String.eqb k k') eqn:E.
  - apply String.eqb_eq in E. subst. rewrite get_assign_same. discriminate.
  - apply String.eqb_neq in E. rewrite (get_assign_other k k' v o E). exact H.
Qed.

(** A loop of assignments, with the keys for which [skip] holds left out. *)
Lemma loop_untouched (skip : string -> bool) (from : Obj A) :
  forall (to : Obj A) (k : string),
    ~ In k (map fst from) ->
    get k (fold_left (fun acc kv => if skip (fst kv) then acc
                                    else assign (fst kv) (snd kv) acc) from to)
    = get k to.
Proof.
  induction from as [|[k0 v0] from IH]; intros to k Hk; simpl; [reflexivity |].
  assert (Hne : k0 <> k) by (intro E; apply Hk; left; exact E).
  assert (Hrest : ~ In k (map fst from)) by (intro H; apply Hk; right; exact H).
  rewrite IH by exact Hrest.
  destruct (skip k0); [reflexivity | apply get_assign_other; exact Hne].
Qed.

Lemma loop_assigned (skip : string -> bool) (from : Obj A) :
  forall (to : Obj A) (k : string) (v : A),
    distinctKeys from -> In (k, v) from -> skip k = false ->
    get k (fold_left (fun acc kv => if skip (fst kv) then acc
                                    else assign (fst kv) (snd kv) acc) from to)
    = Some v.
Proof.
  unfold distinctKeys.
  induction from as [|[k0 v0] from IH]; intros to k v Hd Hin Hs; [contradiction |].
  simpl in Hd. inversion Hd as [| x l Hnotin Hd']; subst.
  destruct Hin as [E | Hin].
  - inversion E; subst k0 v0. simpl. rewrite Hs.
    rewrite (loop_untouched skip from _ k Hnotin). apply get_assign_same.
  - simpl. apply IH; assumption.
Qed.

Lemma loop_defined (skip : string -> bool) (from : Obj A) :
  forall (to : Obj A) (k : string),
    get k to <> None ->
    get k (fold_left (fun acc kv => if skip (fst kv) then acc
                                    else assign (fst kv) (snd kv) acc) from to)
    <> None.
Proof.
  induction from as [|[k0 v0] from IH]; intros to k H; simpl; [exact H |].
  apply IH. destruct (skip k0); [exact H | apply get_assign_defined; exact H].
Qed.

Lemma loop_fixed (skip : string -> bool) (from : Obj A) :
  forall to : Obj A,
    (forall k v, In (k, v) from -> skip k = false -> get k to = Some v) ->
    fold_left (fun acc kv => if skip (fst kv) then acc
                             else assign (fst kv) (snd kv) acc) from to
    = to.
Proof.
  induction from as [|[k0 v0] from IH]; intros to H; simpl; [reflexivity |].
  destruct (skip k0) eqn:Es.
  - apply IH. intros k v Hin. apply H. right. exact Hin.
  - rewrite (assign_same_value k0 v0 to (H k0 v0 (or_introl eq_refl) Es)).
    apply IH. intros k v Hin. apply H. right. exact Hin.
Qed.

End Objects.

(** X22.  setOptions() overrides exactly the keys it is given.  A tunable
    that the options do not name keeps its value and one they name takes the
    given value; the same holds key by key inside "elements", so that giving
    one element binding leaves the other bindings in place, and options
    without "elements" leave all of them. *)
Theorem setOptions_overrides_exactly_the_given_keys (i : Instance) (o : Options) :
  let before := configObject i in
  let after := configObject (setOptions i o) in
  (forall k, ~ In k (map fst (settings o)) ->
     get k (tunables after) = get k (tunables before))
  /\ (distinctKeys (settings o) ->
      forall k v, In (k, v) (settings o) -> k <> "elements"%string ->
        get k (tunables after) = Some v)
  /\ (elementsOption o = None -> elements after = elements before)
  /\ (forall e, elementsOption o = Some e ->
        (forall k, ~ In k (map fst e) ->
           get k (elements after) = get k (elements before))
        /\ (distinctKeys e ->
            forall k v, In (k, v) e -> get k (elements after) = Some v)).
Proof.
  cbv zeta. unfold setOptions, mergeOptions. cbn [configObject tunables elements].
  split; [| split; [| split]].
  - intros k Hk.
    exact (loop_untouched (fun k => String.eqb k "elements") (settings o) _ k Hk).
  - intros Hd k v Hin Hne.
    apply String.eqb_neq in Hne.
    exact (loop_assigned (fun k => String.eqb k "elements") (settings o) _ k v
             Hd Hin Hne).
  - intro Hn. rewrite Hn. reflexivity.
  - intros e He. rewrite He. split.
    + intros k Hk. exact (loop_untouched (fun _ => false) e _ k Hk).
    + intros Hd k v Hin.
      exact (loop_assigned (fun _ => false) e _ k v Hd Hin eq_refl).
Qed.

Lemma setOptions_overrides_exactly_the_given_keys_witness :
  get "endBtn" (elements (configObject
                  (setOptions (construct part_000 noOptions [])
                     {| settings := [("dynamicLerpMin"%string, 1 # 10)];
                        elementsOption := Some [("toggleBtn"%string, element 7)] |})))
  = Some (selector "#endChatBtn")
  /\ get "toggleBtn" (elements (configObject
                  (setOptions (construct part_000 noOptions [])
                     {| settings := [("dynamicLerpMin"%string, 1 # 10)];
                        elementsOption := Some [("toggleBtn"%string, element 7)] |})))
     = Some (element 7).
Proof.
  destruct (setOptions_overrides_exactly_the_given_keys
              (construct part_000 noOptions [])
              {| settings := [("dynamicLerpMin"%string, 1 # 10)];
                 elementsOption := Some [("toggleBtn"%string, element 7)] |})
    as [_ [_ [_ H]]].
  destruct (H [("toggleBtn"%string, element 7)] eq_refl) as [H1 H2].
  split.
  - rewrite H1; [reflexivity |]. simpl. intros [E | []]. discriminate E.
  - apply H2; [| left; reflexivity].
    unfold distinctKeys. simpl. constructor; [intros [] | constructor].
Defined.

Lemma readConfig_defined (c : ConfigObject) :
  (forall k, In k (map fst defaultTunables) -> get k (tunables c) <> None) ->
  exists cfg, readConfig c = Some cfg.
Proof.
  intro H. unfold readConfig.
  destruct (get "amplitudeSmoothFactorVar" (tunables c)) eqn:E1;
    [| exfalso; apply (H "amplitudeSmoothFactorVar"%string); [simpl; tauto | exact E1]].
  destruct (get "baseRotationDivisor" (tunables c)) eqn:E2;
    [| exfalso; apply (H "baseRotationDivisor"%string); [simpl; tauto | exact E2]].
  destruct (get "dynamicLerpMin" (tunables c)) eqn:E3;
    [| exfalso; apply (H "dynamicLerpMin"%string); [simpl; tauto | exact E3]].
  destruct (get "dynamicLerpAudioMultiplier" (tunables c)) eqn:E4;
    [| exfalso; apply (H "dynamicLerpAudioMultiplier"%string); [simpl; tauto | exact E4]].
  destruct (get "maxAdditionalRotation" (tunables c)) eqn:E5;
    [| exfalso; apply (H "maxAdditionalRotation"%string); [simpl; tauto | exact E5]].
  destruct (get "baseScaleMultiplier" (tunables c)) eqn:E6;
    [| exfalso; apply (H "baseScaleMultiplier"%string); [simpl; tauto | exact E6]].
  eexists. reflexivity.
Qed.

Lemma mergeOptions_keeps_defined (c : ConfigObject) (o : Options) (k : string) :
  get k (tunables c) <> None -> get k (tunables (mergeOptions c o)) <> None.
Proof.
  intro H. unfold mergeOptions. cbn [tunables].
  exact (loop_defined (fun k => String.eqb k "elements") (settings o) _ k H).
Qed.

(** X23.  Options whose values are numbers never make a tunable go missing:
    after the constructor and any number of setOptions() calls with such
    options, the six tunables the animation reads are all defined in the
    configuration object (the two loops only assign, they delete no key), and
    the session works with exactly their current values.  Options that store
    another value (undefined, a string) under the key of a tunable are outside
    [Options], and outside this statement. *)
Theorem tunables_never_go_missing (bld : Build) (o : Options) (page : list Element)
    (os : list Options) :
  let i := setOptionsAll (construct bld o page) os in
  exists cfg,
    readConfig (configObject i) = Some cfg
    /\ config (session i) = cfg
    /\ get "amplitudeSmoothFactorVar" (tunables (configObject i))
       = Some (amplitudeSmoothFactorVar cfg)
    /\ get "baseRotationDivisor" (tunables (configObject i))
       = Some (baseRotationDivisor cfg).
Proof.
  cbv zeta.
  assert (Inv : forall os i,
             (forall k, In k (map fst defaultTunables) ->
                get k (tunables (configObject i)) <> None) ->
             readConfig (configObject i) = Some (config (session i)) ->
             (forall k, In k (map fst defaultTunables) ->
                get k (tunables (configObject (setOptionsAll i os))) <> None)
             /\ readConfig (configObject (setOptionsAll i os))
                = Some (config (session (setOptionsAll i os)))).
  { clear. induction os as [|o1 os IH]; intros i Hk Hr; [split; assumption |].
    change (setOptionsAll i (o1 :: os)) with (setOptionsAll (setOptions i o1) os).
    apply IH.
    - intros k Hin. apply mergeOptions_keeps_defined. apply Hk. exact Hin.
    - unfold setOptions. cbn [configObject session]. unfold refresh.
      destruct (readConfig_defined (mergeOptions (configObject i) o1)) as [cfg Hc].
      + intros k Hin. apply mergeOptions_keeps_defined. apply Hk. exact Hin.
      + rewrite Hc. reflexivity. }
  destruct (Inv os (construct bld o page)) as [Hk Hr].
  - intros k Hin. unfold construct. cbn [configObject].
    apply mergeOptions_keeps_defined.
    simpl in Hin. simpl.
    repeat (destruct Hin as [<- | Hin]; [discriminate |]). contradiction.
  - unfold construct. cbn [configObject session]. unfold refresh.
    destruct (readConfig_defined (mergeOptions (defaultObject bld) o)) as [cfg Hc].
    + intros k Hin. apply mergeOptions_keeps_defined.
      simpl in Hin. simpl.
      repeat (destruct Hin as [<- | Hin]; [discriminate |]). contradiction.
    + rewrite Hc. reflexivity.
  - exists (config (session (setOptionsAll (construct bld o page) os))).
    split; [exact Hr |]. split; [reflexivity |].
    unfold readConfig in Hr.
    destruct (get "amplitudeSmoothFactorVar" _); [| discriminate].
    destruct (get "baseRotationDivisor" _); [| discriminate].
    destruct (get "dynamicLerpMin" _); [| discriminate].
    destruct (get "dynamicLerpAudioMultiplier" _); [| discriminate].
    destruct (get "maxAdditionalRotation" _); [| discriminate].
    destruct (get "baseScaleMultiplier" _); [| discriminate].
    inversion Hr as [Hcfg]. split; reflexivity.
Qed.

Lemma refresh_twice (s : VoiceChat) (c : ConfigObject) :
  refresh (refresh s c) c = refresh s c.
Proof. unfold refresh. destruct (readConfig c); reflexivity. Qed.

(** X24.  setOptions() is idempotent: applying the same options (an object,
    so with distinct keys) a second time changes neither the configuration
    object nor the session. *)
Theorem setOptions_is_idempotent (i : Instance) (o : Options) :
  distinctKeys (settings o) ->
  (forall e, elementsOption o = Some e -> distinctKeys e) ->
  setOptions (setOptions i o) o = setOptions i o.
Proof.
  intros Hd He.
  assert (Hc : mergeOptions (mergeOptions (configObject i) o) o
               = mergeOptions (configObject i) o).
  { unfold mergeOptions. cbn [tunables elements]. f_equal.
    - apply (loop_fixed (fun k => String.eqb k "elements")).
      intros k v Hin Hs.
      exact (loop_assigned (fun k => String.eqb k "elements") (settings o) _ k v
               Hd Hin Hs).
    - destruct (elementsOption o) as [e |] eqn:Ee; [| reflexivity].
      apply (loop_fixed (fun _ => false)).
      intros k v Hin _.
      exact (loop_assigned (fun _ => false) e _ k v (He e eq_refl) Hin eq_refl). }
  unfold setOptions. cbn [configObject session]. rewrite Hc.
  rewrite refresh_twice. reflexivity.
Qed.

Lemma setOptions_is_idempotent_witness :
  setOptions (setOptions (construct voice_chat_lib noOptions [])
                {| settings := [("baseRotationDivisor"%string, 8)];
                   elementsOption := None |})
    {| settings := [("baseRotationDivisor"%string, 8)]; elementsOption := None |}
  = setOptions (construct voice_chat_lib noOptions [])
      {| settings := [("baseRotationDivisor"%string, 8)]; elementsOption := None |}.
Proof.
  apply setOptions_is_idempotent.
  - unfold distinctKeys. simpl. constructor; [intros [] | constructor].
  - intros e H. discriminate H.
Defined.

Lemma setOptionsAll_keeps_session (os : list Options) :
  forall (i : Instance) (cfg : Config),
    withConfig (session (setOptionsAll i os)) cfg = withConfig (session i) cfg.
Proof.
  induction os as [|o os IH]; intros i cfg; [reflexivity |].
  change (setOptionsAll i (o :: os)) with (setOptionsAll (setOptions i o) os).
  rewrite IH. unfold setOptions. cbn [session]. unfold refresh.
  destruct (readConfig _); reflexivity.
Qed.

Lemma getInstanceAll_existing (bld : Build) (page : list Element)
    (calls : list (option Options)) :
  forall i : Instance,
    getInstanceAll bld (Some i) calls page = Some (setOptionsAll i (given calls)).
Proof.
  induction calls as [|[o |] calls IH]; intro i; [reflexivity | |].
  - change (getInstanceAll bld (Some i) (Some o :: calls) page)
      with (getInstanceAll bld (Some (setOptions i o)) calls page).
    rewrite IH. reflexivity.
  - change (getInstanceAll bld (Some i) (None :: calls) page)
      with (getInstanceAll bld (Some i) calls page).
    rewrite IH. reflexivity.
Qed.

(** X25.  getInstance() is a singleton accessor.  Over any series of calls,
    with or without options, the instance is constructed once, by the first
    call; every later call returns that instance, with the options given so
    far merged into its configuration as by setOptions().  Nothing but the
    configuration of the session is touched by the later calls: started
    flag, stream, recorder, times, amplitude and elements stay as they
    were. *)
Theorem getInstance_constructs_once (bld : Build) (first : option Options)
    (calls : list (option Options)) (page : list Element) (i0 : Instance) :
  let o := match first with Some o => o | None => noOptions end in
  getInstanceAll bld None (first :: calls) page
  = Some (setOptionsAll (construct bld o page) (given calls))
  /\ (exists i, getInstanceAll bld (Some i0) calls page = Some i
        /\ configObject i = configObject (setOptionsAll i0 (given calls))
        /\ withConfig (session i) (config (session i0)) = session i0).
Proof.
  cbv zeta. split.
  - change (getInstanceAll bld None (first :: calls) page)
      with (getInstanceAll bld (Some (getInstance bld None first page)) calls page).
    rewrite getInstanceAll_existing. reflexivity.
  - exists (setOptionsAll i0 (given calls)).
    split; [apply getInstanceAll_existing |]. split; [reflexivity |].
    rewrite setOptionsAll_keeps_session. destruct (session i0). reflexivity.
Qed.

(** ** Invariants of a session *)

Lemma flipMic_chunks (s : VoiceChat) :
  recordedChunks (fst (flipMic s)) = recordedChunks s.
Proof.
  unfold flipMic. destruct (mediaRecorder s) as [r |].
  - destruct (isMicOn s);
      match goal with |- context [guarded ?a ?b ?c] => destruct (guarded a b c) end;
      reflexivity.
  - destruct (audioStream s) as [stream |]; [| reflexivity].
    destruct (0 <? List.length (getAudioTracks stream))%nat; reflexivity.
Qed.

Lemma step_fragments (bld : Build) (s s' : VoiceChat) :
  step bld s s' ->
  (forall c, In c (recordedChunks s) -> (0 < size c)%N) ->
  forall c, In c (recordedChunks s') -> (0 < size c)%N.
Proof.
  intros Hstep H.
  destruct Hstep as [s q now rand | s stream now0 now1 dataArray frame rec wall Hlen
                    | s | s a now dataArray frame Hs Hlen | s q now rand | s wall
                    | s wall | s data | s | s | s x y z];
    try exact H.
  - unfold audioGranted. simpl. destruct rec; simpl; try (intros c []). exact H.
  - unfold updateAnimation. rewrite Hs. exact H.
  - rewrite toggleMic_unfold. simpl. rewrite flipMic_chunks. exact H.
  - destruct (dataAvailable_chunks s data) as [_ [_ [kept [Hk [_ Hpos]]]]].
    rewrite Hk. intros c Hc. apply in_app_or in Hc as [Hc | Hc].
    + apply H. exact Hc.
    + apply Hpos. exact Hc.
  - simpl. intros c [].
Qed.

(** X26.  The invariants of a session.  In every state that an instance
    created with configuration [cfg] reaches through start(), a grant or a
    denial of the microphone, frames, rebinding, toggleMic(), end(), data
    events and reset() (its configuration left as created), with a smoothing
    factor in (0, 1]: the smoothed amplitude is a number in [0, 1]; the
    analyser, once attached, reads 128 bytes per frame; a session whose audio
    has started has a start time; and no buffered fragment is empty. *)
Theorem session_invariants (bld : Build) (cfg : Config) (s : VoiceChat) :
  0 < amplitudeSmoothFactorVar cfg <= 1 ->
  reachable bld cfg s ->
  config s = cfg
  /\ (exists a, smoothedAmplitude s = Num a /\ 0 <= a <= 1)
  /\ (forall an, analyser s = Some an -> frequencyBinCount an = 128%nat)
  /\ (audioStarted s = true -> exists t0, startTime s = Some t0)
  /\ (forall c, In c (recordedChunks s) -> (0 < size c)%N).
Proof.
  intros Ha Hr.
  destruct (reachable_wellFormed bld cfg s Ha Hr) as [Hc [Hf Hamp]].
  split; [exact Hc |]. split; [exact Hamp |]. split.
  { intros an Han. unfold frequencyBinCount. rewrite (Hf an Han). reflexivity. }
  split; [exact (reachable_timed bld cfg s Hr) |].
  clear Ha Hc Hf Hamp. induction Hr as [page | s s' Hr IH Hstep].
  - simpl. intros c [].
  - exact (step_fragments bld s s' Hstep IH).
Qed.

Lemma session_invariants_witness :
  exists a,
    smoothedAmplitude
      (fst (audioGranted part_000 (newVoiceChat defaultConfig [freshElement]) demoStream
              1200 1201 (repeat Byte.x90 128) 1 recorderStarted 1700000000000))
    = Num a /\ 0 <= a <= 1.
Proof.
  assert (Hr : reachable part_000 defaultConfig
                 (fst (audioGranted part_000 (newVoiceChat defaultConfig [freshElement])
                         demoStream 1200 1201 (repeat Byte.x90 128) 1 recorderStarted
                         1700000000000))).
  { apply (reach_step part_000 defaultConfig (newVoiceChat defaultConfig [freshElement])).
    - apply reach_new.
    - apply step_granted. reflexivity. }
  assert (Ha : 0 < amplitudeSmoothFactorVar defaultConfig <= 1)
    by (unfold defaultConfig; simpl; lra).
  exact (proj1 (proj2 (session_invariants part_000 defaultConfig _ Ha Hr))).
Defined.

(** ** The grant and the stop event *)

(** X27.  A recorder that is missing or fails is not fatal.  Whatever the
    page's recorder does (no MediaRecorder, a constructor or a start() that
    throws, or a recorder that records), the grant of the microphone attaches
    the stream and an analyser of FFT size 256, marks audio as started, runs
    the first frame and fires the same start notification; the animation
    state is the one of a run with a working recorder.  A running recorder is
    there afterwards only if this grant started it or an earlier one left it.
    A denial calls no callback and leaves the session as it was, audio not
    started. *)
Theorem recorder_failure_is_not_fatal (bld : Build) (s : VoiceChat)
    (stream : MediaStream) (now0 now1 : Q) (dataArray : list Byte.byte) (frame : nat)
    (rec : Recording) (wall : Z) :
  let s' := fst (audioGranted bld s stream now0 now1 dataArray frame rec wall) in
  let working :=
    fst (audioGranted bld s stream now0 now1 dataArray frame recorderStarted wall) in
  audioStarted s' = true
  /\ audioStream s' = Some stream
  /\ analyser s' = Some {| fftSize := 256 |}
  /\ audioContext s' = Some {| ctxState := running |}
  /\ callbacks (snd (audioGranted bld s stream now0 now1 dataArray frame rec wall))
     = (if onStart s then [startNotice bld wall (isMicOn s) stream] else [])
  /\ (smoothedAmplitude s' = smoothedAmplitude working
      /\ startTime s' = startTime working
      /\ lastFrameTime s' = lastFrameTime working
      /\ document s' = document working
      /\ isMicOn s' = isMicOn working)
  /\ (mediaRecorder working = Some {| state := recording; onstop := false |}
      /\ recordedChunks working = [])
  /\ (forall r, mediaRecorder s' = Some r -> state r <> inactive ->
        rec = recorderStarted \/ mediaRecorder s = Some r)
  /\ fst (audioDenied s) = s
  /\ callbacks (snd (audioDenied s)) = [].
Proof.
  cbv zeta. unfold audioGranted. cbn [fst snd].
  split; [reflexivity |]. split; [reflexivity |]. split; [reflexivity |].
  split; [reflexivity |]. split.
  { rewrite callbacks_fire. simpl. destruct (onStart s); reflexivity. }
  split. { repeat split. }
  split. { split; reflexivity. }
  split.
  { intros r Hr Hst. destruct rec; simpl in Hr.
    - right. exact Hr.
    - right. exact Hr.
    - inversion Hr; subst r. simpl in Hst. contradiction.
    - left. reflexivity. }
  split; reflexivity.
Qed.

(** X28.  The duration reported with the clip counts from the time base of
    the animation, not from the grant.  When a frame comes more than
    MAX_DELTA = 100 ms after the frame before it (a page in the background,
    say), it moves the start time to its own clock reading; if the session is
    then ended, the stop handler reports the time from that frame to the stop
    event as the duration of the clip.  Without such a gap it reports the
    time from the start time that was there. *)
Theorem reported_duration_restarts_after_a_gap (bld : Build) (s : VoiceChat)
    (t0 tl now : Q) (dataArray : list Byte.byte) (frame : nat) (wall wall' : Z)
    (now' : Q) (io : StopIO) (n : Notification) :
  analyser s <> None ->
  startTime s = Some t0 -> lastFrameTime s = Some tl -> ~ tl == 0 ->
  let s1 := updateAnimation s now dataArray frame in
  let s2 := fst (end_ bld s1 wall) in
  In n (callbacks (recorderStopped bld s2 now' wall' io)) ->
  exists m,
    audioMeta n = Some m
    /\ (MAX_DELTA < now - tl -> duration m = now' - now)
    /\ (now - tl <= MAX_DELTA -> duration m = now' - t0).
Proof.
  intros Han Ht0 Htl Hz. cbv zeta. intro Hin.
  destruct (updateAnimation_times s now dataArray frame Han) as [Hs _].
  assert (Hend : startTime (fst (end_ bld (updateAnimation s now dataArray frame) wall))
                 = frameStart s now).
  { unfold end_. cbn [fst startTime]. exact Hs. }
  assert (Hd : exists m, audioMeta n = Some m
                         /\ duration m = now' - toNumber (frameStart s now)).
  { rewrite <- Hend. revert Hin. unfold recorderStopped. destruct bld.
    - rewrite callbacks_fire.
      destruct (onEnd _); [| intros []].
      intros [<- | []]. eexists. split; reflexivity.
    - destruct (readBinary io); [| intros []].
      destruct (readDataURL io); [| intros []].
      destruct (analyzeAudio (decoding io)); rewrite callbacks_fire;
        (destruct (onEnd _); [| intros []]);
        intros [<- | []]; eexists; split; reflexivity. }
  destruct Hd as [m [Hm Hdur]]. exists m. split; [exact Hm |].
  rewrite Hdur. unfold frameStart. rewrite Htl, Ht0. simpl.
  rewrite (nonzero_divisor tl Hz). split; intro Hgap.
  - rewrite (Qltb_true _ _ Hgap). reflexivity.
  - rewrite (Qltb_false _ _ Hgap). reflexivity.
Qed.

Lemma reported_duration_restarts_after_a_gap_witness :
  exists n m,
    callbacks (recorderStopped voice_chat_lib
                 (fst (end_ voice_chat_lib
                         (updateAnimation (demoCapturing voice_chat_lib) 2000 demoBuffer 2)
                         9))
                 5000 10 demoStopIO) = [n]
    /\ audioMeta n = Some m /\ duration m = 5000 - 2000.
Proof.
  assert (Hc : exists n,
             callbacks (recorderStopped voice_chat_lib
                 (fst (end_ voice_chat_lib
                         (updateAnimation (demoCapturing voice_chat_lib) 2000 demoBuffer 2)
                         9))
                 5000 10 demoStopIO) = [n]).
  { vm_compute. eexists. reflexivity. }
  destruct Hc as [n Hc].
  assert (Hl : exists t0, startTime (demoCapturing voice_chat_lib) = Some t0).
  { vm_compute. eexists. reflexivity. }
  destruct Hl as [t0 Ht0].
  destruct (reported_duration_restarts_after_a_gap voice_chat_lib
              (demoCapturing voice_chat_lib) t0 1201 2000 demoBuffer 2 9 10 5000
              demoStopIO n) as [m [Hm [Hgap _]]].
  - vm_compute. discriminate.
  - exact Ht0.
  - vm_compute. reflexivity.
  - intro H. vm_compute in H. discriminate H.
  - rewrite Hc. left. reflexivity.
  - exists n, m. split; [exact Hc |]. split; [exact Hm |].
    apply Hgap. unfold MAX_DELTA. vm_compute. reflexivity.
Defined.

(** X29.  The stop handler calls the end callback at most once (for a
    callback that returns normally), and only with an "end" notification.  In
    the build voice-chat-lib.js it does so whenever a callback is assigned.
    In the build part_000 it does so exactly when both reads of the clip
    succeed, whatever the analysis gives: a clip that cannot be decoded is
    reported in the analysis field of the notification, with details that say
    so, and still comes with the clip, its bytes, its data URL and its file
    name; a read that fails leaves the end callback uncalled. *)
Theorem stop_handler_notifies_at_most_once (bld : Build) (s : VoiceChat) (now : Q)
    (wall : Z) (io : StopIO) :
  let ns := callbacks (recorderStopped bld s now wall io) in
  (List.length ns <= 1)%nat
  /\ (ns <> [] <->
      onEnd s = true
      /\ (bld = voice_chat_lib \/ (readBinary io <> None /\ readDataURL io <> None)))
  /\ (forall n, In n ns ->
        event n = "end"%string
        /\ audioBlob n = Some (newBlob (recordedChunks s) "audio/webm")
        /\ match bld with
           | voice_chat_lib =>
             analysis n = None /\ audioBinary n = None /\ audioBase64 n = None
             /\ fileName n = None /\ details n = "VoiceChat session ended"%string
           | part_000 =>
             audioBinary n = readBinary io /\ audioBase64 n = readDataURL io
             /\ fileName n = Some ("voice-chat-" ++ randomName io ++ ".webm")%string
             /\ match analyzeAudio (decoding io) with
                | resolved a =>
                  analysis n = Some (analysed a)
                  /\ details n = "VoiceChat session ended"%string
                | rejected err =>
                  analysis n = Some (analysisError err)
                  /\ details n
                     = "VoiceChat session ended (audio analysis failed)"%string
                end
           end).
Proof.
  cbv zeta. unfold recorderStopped. destruct bld.
  - rewrite callbacks_fire. destruct (onEnd s); simpl.
    + split; [lia |]. split.
      * split; [intros _; split; [reflexivity | left; reflexivity] | intros _; discriminate].
      * intros n [<- | []]. simpl. repeat split.
    + split; [lia |]. split.
      * split; [intro H; contradiction | intros [H _]; discriminate].
      * intros n [].
  - destruct (readBinary io) as [binary |]; [destruct (readDataURL io) as [base64 |] |].
    + destruct (analyzeAudio (decoding io)) as [a | err]; rewrite callbacks_fire;
        destruct (onEnd s); simpl; (split; [lia |]); split.
      1, 5: split; [intros _; split; [reflexivity | right; split; discriminate]
                   | intros _; discriminate].
      1, 4: intros n [<- | []]; simpl; repeat split.
      1, 3: split; [intro H; contradiction | intros [H _]; discriminate].
      1, 2: intros n [].
    + simpl. split; [lia |]. split; [| intros n []].
      split; [intro H; contradiction |].
      intros [_ [H | [_ H]]]; [discriminate | contradiction].
    + simpl. split; [lia |]. split; [| intros n []].
      split; [intro H; contradiction |].
      intros [_ [H | [H _]]]; [discriminate | contradiction].
Qed.

(** * Binary64: what rounding leaves of the bounds *)

(** ** Powers of two *)

Lemma pow2_pos (z : Z) : 0 < pow2 z.
Proof. apply Qpower_0_lt. reflexivity. Qed.

Lemma pow2_plus (a b : Z) : pow2 (a + b) == pow2 a * pow2 b.
Proof. apply Qpower_plus. discriminate. Qed.

Lemma pow2_le (a b : Z) : (a <= b)%Z -> pow2 a <= pow2 b.
Proof. intro H. apply Qpower_le_compat_l; [exact H | discriminate]. Qed.

Lemma pow2_lt (a b : Z) : (a < b)%Z -> pow2 a < pow2 b.
Proof. intro H. apply Qpower_lt_compat_l; [exact H | reflexivity]. Qed.

Lemma pow2_lt_inv (a b : Z) : pow2 a < pow2 b -> (a < b)%Z.
Proof. intro H. apply (Qpower_lt_compat_l_inv 2); [exact H | reflexivity]. Qed.

Lemma pow2_Z (z : Z) : (0 <= z)%Z -> pow2 z == inject_Z (2 ^ z).
Proof. intro H. unfold pow2. rewrite (Zpower_Qpower 2 z H). reflexivity. Qed.

Lemma pow2_split (a b : Z) : pow2 a == pow2 (a - b) * pow2 b.
Proof. rewrite <- pow2_plus. replace (a - b + b)%Z with a by lia. reflexivity. Qed.

(** ** The binade of a positive number *)

Lemma Q_as_quotient (x : Q) : x * inject_Z (Zpos (Qden x)) == inject_Z (Qnum x).
Proof.
  destruct x as [n d]. unfold Qeq, Qmult, inject_Z. simpl. lia.
Qed.

Lemma ilog2_spec (x : Q) : 0 < x -> pow2 (ilog2 x) <= x < pow2 (ilog2 x + 1).
Proof.
  intro Hx.
  assert (Hn : (0 < Qnum x)%Z).
  { destruct x as [n d]. unfold Qlt in Hx. simpl in *. lia. }
  pose proof (Z.log2_spec (Qnum x) Hn) as [Hn1 Hn2].
  pose proof (Z.log2_spec (Zpos (Qden x)) (Pos2Z.is_pos _)) as [Hd1 Hd2].
  pose proof (Z.log2_nonneg (Qnum x)) as Hln.
  pose proof (Z.log2_nonneg (Zpos (Qden x))) as Hld.
  set (ln := Z.log2 (Qnum x)) in *. set (ld := Z.log2 (Zpos (Qden x))) in *.
  pose proof (Q_as_quotient x) as Hq.
  assert (Qn1 : pow2 ln <= inject_Z (Qnum x)).
  { rewrite pow2_Z by exact Hln. rewrite <- Zle_Qle. exact Hn1. }
  assert (Qn2 : inject_Z (Qnum x) < pow2 (ln + 1)).
  { rewrite pow2_Z by lia. rewrite <- Zlt_Qlt. exact Hn2. }
  assert (Qd1 : pow2 ld <= inject_Z (Zpos (Qden x))).
  { rewrite pow2_Z by exact Hld. rewrite <- Zle_Qle. exact Hd1. }
  assert (Qd2 : inject_Z (Zpos (Qden x)) < pow2 (ld + 1)).
  { rewrite pow2_Z by lia. rewrite <- Zlt_Qlt. exact Hd2. }
  pose proof (pow2_pos ld) as Pld. pose proof (pow2_pos (ld + 1)) as Pld1.
  assert (Hup : x < pow2 (ln - ld + 1)).
  { pose proof (pow2_split (ln + 1) ld) as Hs.
    replace (ln + 1 - ld)%Z with (ln - ld + 1)%Z in Hs by lia.
    pose proof (pow2_pos (ln - ld + 1)) as Pp.
    set (P := pow2 (ln - ld + 1)) in *. set (D := inject_Z (Zpos (Qden x))) in *.
    set (N := inject_Z (Qnum x)) in *. set (L := pow2 ld) in *.
    set (N1 := pow2 (ln + 1)) in *. nra. }
  assert (Hlow : pow2 (ln - ld - 1) < x).
  { pose proof (pow2_split ln (ld + 1)) as Hs.
    replace (ln - (ld + 1))%Z with (ln - ld - 1)%Z in Hs by lia.
    pose proof (pow2_pos (ln - ld - 1)) as Pp.
    set (P := pow2 (ln - ld - 1)) in *. set (D := inject_Z (Zpos (Qden x))) in *.
    set (N := inject_Z (Qnum x)) in *. set (L := pow2 (ld + 1)) in *.
    set (N0 := pow2 ln) in *. nra. }
  unfold ilog2. fold ln ld.
  destruct (Qle_bool (pow2 (ln - ld)) x) eqn:E.
  - apply Qle_bool_iff in E. split; assumption.
  - assert (Hlt : x < pow2 (ln - ld)).
    { apply Qnot_le_lt. intro H. apply Qle_bool_iff in H. congruence. }
    replace (ln - ld - 1 + 1)%Z with (ln - ld)%Z by lia.
    split; [apply Qlt_le_weak; exact Hlow | exact Hlt].
Qed.

Lemma ilog2_unique (x : Q) (e : Z) : pow2 e <= x < pow2 (e + 1) -> ilog2 x = e.
Proof.
  intros [H1 H2].
  assert (Hx : 0 < x) by (pose proof (pow2_pos e); lra).
  destruct (ilog2_spec x Hx) as [S1 S2].
  assert (A : (ilog2 x < e + 1)%Z) by (apply pow2_lt_inv; lra).
  assert (B : (e < ilog2 x + 1)%Z) by (apply pow2_lt_inv; lra).
  lia.
Qed.

Lemma ilog2_below (x : Q) (e : Z) : 0 < x -> x < pow2 (e + 1) -> (ilog2 x <= e)%Z.
Proof.
  intros Hx H. destruct (ilog2_spec x Hx) as [S1 _].
  assert (A : (ilog2 x < e + 1)%Z) by (apply pow2_lt_inv; lra). lia.
Qed.

Lemma ilog2_above (x : Q) (e : Z) : pow2 e <= x -> (e <= ilog2 x)%Z.
Proof.
  intro H. assert (Hx : 0 < x) by (pose proof (pow2_pos e); lra).
  destruct (ilog2_spec x Hx) as [_ S2].
  assert (A : (e < ilog2 x + 1)%Z) by (apply pow2_lt_inv; lra). lia.
Qed.

Lemma ilog2_le (x y : Q) : 0 < x -> x <= y -> (ilog2 x <= ilog2 y)%Z.
Proof.
  intros Hx Hxy. apply ilog2_above. destruct (ilog2_spec x Hx) as [S1 _]. lra.
Qed.

(** ** Rounding to the nearest integer *)

Lemma rte_cases (x : Q) :
  roundTiesToEven x = Qfloor x /\ x - inject_Z (Qfloor x) <= 1 # 2
  \/ roundTiesToEven x = (Qfloor x + 1)%Z /\ 1 # 2 <= x - inject_Z (Qfloor x).
Proof.
  unfold roundTiesToEven.
  destruct (Qcompare (x - inject_Z (Qfloor x)) (1 # 2)) eqn:E.
  - apply Qeq_alt in E. destruct (Z.even (Qfloor x)); [left | right]; split; try reflexivity; lra.
  - apply Qlt_alt in E. left. split; [reflexivity | lra].
  - apply Qgt_alt in E. right. split; [reflexivity | lra].
Qed.

Lemma floor_bounds (x : Q) : inject_Z (Qfloor x) <= x < inject_Z (Qfloor x) + 1.
Proof.
  split; [apply Qfloor_le |].
  pose proof (Qlt_floor x) as H. rewrite inject_Z_plus in H. exact H.
Qed.

Lemma rte_error (x : Q) :
  - (1 # 2) <= inject_Z (roundTiesToEven x) - x <= 1 # 2.
Proof.
  pose proof (floor_bounds x) as [F1 F2].
  destruct (rte_cases x) as [[-> H] | [-> H]].
  - lra.
  - rewrite inject_Z_plus. change (inject_Z 1) with 1. lra.
Qed.

Lemma rte_le (x : Q) (k : Z) : x <= inject_Z k -> (roundTiesToEven x <= k)%Z.
Proof.
  intro H. pose proof (floor_bounds x) as [F1 F2].
  assert (Hf : (Qfloor x <= k)%Z) by (rewrite Zle_Qle; lra).
  destruct (rte_cases x) as [[-> Hc] | [-> Hc]]; [exact Hf |].
  destruct (Z.eq_dec (Qfloor x) k) as [E | E]; [| lia].
  rewrite E in Hc. lra.
Qed.

Lemma rte_ge (x : Q) (k : Z) : inject_Z k <= x -> (k <= roundTiesToEven x)%Z.
Proof.
  intro H. pose proof (floor_bounds x) as [F1 F2].
  assert (Hf : (k <= Qfloor x)%Z).
  { assert (A : (k < Qfloor x + 1)%Z).
    { rewrite Zlt_Qlt, inject_Z_plus. change (inject_Z 1) with 1. lra. }
    lia. }
  destruct (rte_cases x) as [[-> Hc] | [-> Hc]]; lia.
Qed.

Lemma rte_mono (x y : Q) : x <= y -> (roundTiesToEven x <= roundTiesToEven y)%Z.
Proof.
  intro H. pose proof (Qfloor_resp_le x y H) as Hf.
  pose proof (floor_bounds x) as [X1 X2]. pose proof (floor_bounds y) as [Y1 Y2].
  destruct (Z.eq_dec (Qfloor x) (Qfloor y)) as [E | E].
  - unfold roundTiesToEven. rewrite <- E.
    destruct (Qcompare (x - inject_Z (Qfloor x)) (1 # 2)) eqn:Ex;
      destruct (Qcompare (y - inject_Z (Qfloor x)) (1 # 2)) eqn:Ey;
      try (destruct (Z.even (Qfloor x))); try lia;
      first [apply Qeq_alt in Ex | apply Qlt_alt in Ex | apply Qgt_alt in Ex];
      first [apply Qeq_alt in Ey | apply Qlt_alt in Ey | apply Qgt_alt in Ey];
      exfalso; lra.
  - assert (A : (roundTiesToEven x <= Qfloor x + 1)%Z)
      by (destruct (rte_cases x) as [[-> _] | [-> _]]; lia).
    assert (B : (Qfloor y <= roundTiesToEven y)%Z)
      by (destruct (rte_cases y) as [[-> _] | [-> _]]; lia).
    lia.
Qed.

(** ** Rounding to binary64: monotone, idempotent, within half a unit in the last place *)

Lemma scaled (x : Q) (u : Z) : x / pow2 u * pow2 u == x.
Proof. pose proof (pow2_pos u). field. lra. Qed.

Lemma round64_error_ulp (x : Q) :
  - (pow2 (ulpExponent x) * (1 # 2)) <= round64 x - x <= pow2 (ulpExponent x) * (1 # 2).
Proof.
  unfold round64. set (u := ulpExponent x).
  pose proof (rte_error (x / pow2 u)) as [E1 E2].
  pose proof (pow2_pos u) as P. pose proof (scaled x u) as S.
  set (z := x / pow2 u) in *. set (w := pow2 u) in *.
  set (k := inject_Z (roundTiesToEven z)) in *.
  clearbody k. clearbody z. clearbody w.
  split; nra.
Qed.

Lemma round64_le_grid (x : Q) (k c : Z) :
  x <= inject_Z k * pow2 c -> (ulpExponent x <= c)%Z -> round64 x <= inject_Z k * pow2 c.
Proof.
  intros H Hu. unfold round64. set (u := ulpExponent x) in *.
  pose proof (pow2_pos u) as P.
  assert (Hs : pow2 c == inject_Z (2 ^ (c - u)) * pow2 u).
  { rewrite <- pow2_Z by lia. apply pow2_split. }
  assert (Hz : x / pow2 u <= inject_Z (k * 2 ^ (c - u))).
  { rewrite inject_Z_mult. apply Qle_shift_div_r; [exact P |].
    rewrite Hs in H. lra. }
  apply rte_le in Hz. rewrite Zle_Qle, inject_Z_mult in Hz.
  rewrite Hs. set (r := inject_Z (roundTiesToEven (x / pow2 u))) in *.
  set (K := inject_Z k) in *. set (T := inject_Z (2 ^ (c - u))) in *. set (w := pow2 u) in *.
  clearbody r K T w. nra.
Qed.

Lemma round64_ge_grid (x : Q) (k c : Z) :
  inject_Z k * pow2 c <= x -> (ulpExponent x <= c)%Z -> inject_Z k * pow2 c <= round64 x.
Proof.
  intros H Hu. unfold round64. set (u := ulpExponent x) in *.
  pose proof (pow2_pos u) as P.
  assert (Hs : pow2 c == inject_Z (2 ^ (c - u)) * pow2 u).
  { rewrite <- pow2_Z by lia. apply pow2_split. }
  assert (Hz : inject_Z (k * 2 ^ (c - u)) <= x / pow2 u).
  { rewrite inject_Z_mult. apply Qle_shift_div_l; [exact P |].
    rewrite Hs in H. lra. }
  apply rte_ge in Hz. rewrite Zle_Qle, inject_Z_mult in Hz.
  rewrite Hs. set (r := inject_Z (roundTiesToEven (x / pow2 u))) in *.
  set (K := inject_Z k) in *. set (T := inject_Z (2 ^ (c - u))) in *. set (w := pow2 u) in *.
  clearbody r K T w. nra.
Qed.

Lemma round64_zero (x : Q) : x == 0 -> round64 x == 0.
Proof.
  intro H. pose proof (round64_error_ulp x) as [E1 E2].
  unfold round64 in *. set (u := ulpExponent x) in *.
  pose proof (pow2_pos u) as P.
  assert (Hz : x / pow2 u == inject_Z 0).
  { rewrite H. change (inject_Z 0) with 0. field. lra. }
  assert (A : (roundTiesToEven (x / pow2 u) <= 0)%Z) by (apply rte_le; lra).
  assert (B : (0 <= roundTiesToEven (x / pow2 u))%Z) by (apply rte_ge; lra).
  replace (roundTiesToEven (x / pow2 u)) with 0%Z by lia.
  change (inject_Z 0) with 0. lra.
Qed.

Lemma ulpExponent_pos (x : Q) : 0 < x -> ulpExponent x = Z.max (ilog2 x - 52) (-1074).
Proof.
  intro H. unfold ulpExponent.
  assert (E : ilog2 (Qabs x) = ilog2 x).
  { apply ilog2_unique. rewrite Qabs_pos by lra. apply ilog2_spec. exact H. }
  rewrite E. reflexivity.
Qed.

Lemma round64_nonneg (x : Q) : 0 <= x -> 0 <= round64 x.
Proof.
  intro H. unfold round64. set (u := ulpExponent x). pose proof (pow2_pos u) as P.
  assert (Hz : inject_Z 0 <= x / pow2 u).
  { change (inject_Z 0) with 0. apply Qle_shift_div_l; [exact P | lra]. }
  apply rte_ge in Hz. rewrite Zle_Qle in Hz. change (inject_Z 0) with 0 in Hz.
  set (r := inject_Z (roundTiesToEven (x / pow2 u))) in *. clearbody r. nra.
Qed.

Lemma round64_mono (x y : Q) : 0 <= x -> x <= y -> round64 x <= round64 y.
Proof.
  intros Hx Hxy.
  destruct (Qeq_dec x 0) as [Z0 | NZ].
  - rewrite (round64_zero x Z0). apply round64_nonneg. lra.
  - assert (Px : 0 < x) by lra. assert (Py : 0 < y) by lra.
    pose proof (ilog2_le x y Px Hxy) as He.
    pose proof (ulpExponent_pos x Px) as Ux. pose proof (ulpExponent_pos y Py) as Uy.
    destruct (Z.eq_dec (ulpExponent x) (ulpExponent y)) as [E | E].
    + unfold round64. rewrite <- E. set (u := ulpExponent x).
      pose proof (pow2_pos u) as P.
      assert (Hz : x / pow2 u <= y / pow2 u).
      { apply Qle_shift_div_l; [exact P |]. rewrite scaled. exact Hxy. }
      apply rte_mono in Hz. rewrite Zle_Qle in Hz.
      set (a := inject_Z (roundTiesToEven (x / pow2 u))) in *.
      set (b := inject_Z (roundTiesToEven (y / pow2 u))) in *. clearbody a b. nra.
    + assert (Hlt : (ulpExponent x < ulpExponent y)%Z) by lia.
      assert (Hy52 : ulpExponent y = (ilog2 y - 52)%Z) by lia.
      destruct (ilog2_spec x Px) as [_ Sx]. destruct (ilog2_spec y Py) as [Sy _].
      assert (Hmid : pow2 (ilog2 x + 1) <= pow2 (ilog2 y)) by (apply pow2_le; lia).
      apply Qle_trans with (inject_Z 1 * pow2 (ilog2 y)).
      * apply round64_le_grid; [change (inject_Z 1) with 1; lra | lia].
      * apply round64_ge_grid; [change (inject_Z 1) with 1; lra | lia].
Qed.

Lemma round64_fixed (x : Q) (k c : Z) :
  x == inject_Z k * pow2 c -> (0 <= k <= 2 ^ 53)%Z -> (-1074 <= c)%Z -> round64 x == x.
Proof.
  intros Hx Hk Hc.
  assert (Main : forall k c, x == inject_Z k * pow2 c -> (0 < k < 2 ^ 53)%Z ->
                             (-1074 <= c)%Z -> round64 x == x).
  { clear k c Hx Hk Hc. intros k c Hx Hk Hc.
    pose proof (pow2_pos c) as P.
    assert (Px : 0 < x).
    { rewrite Hx. apply Qmult_lt_0_compat; [| exact P].
      change 0 with (inject_Z 0). rewrite <- Zlt_Qlt. lia. }
    assert (Hb : x < pow2 (c + 52 + 1)).
    { rewrite Hx. replace (c + 52 + 1)%Z with (53 + c)%Z by lia. rewrite pow2_plus.
      rewrite (pow2_Z 53) by lia.
      apply Qmult_lt_compat_r; [exact P |]. rewrite <- Zlt_Qlt. lia. }
    pose proof (ilog2_below x (c + 52) Px Hb) as He.
    assert (Hu : (ulpExponent x <= c)%Z) by (rewrite (ulpExponent_pos x Px); lia).
    apply Qle_antisym.
    - rewrite Hx at 2. apply round64_le_grid; [lra | exact Hu].
    - rewrite Hx at 1. apply round64_ge_grid; [lra | exact Hu]. }
  destruct (Z.eq_dec k 0) as [K0 | K0].
  - subst k. assert (Hz : x == 0) by (rewrite Hx; change (inject_Z 0) with 0; ring).
    rewrite (round64_zero x Hz). lra.
  - destruct (Z.eq_dec k (2 ^ 53)) as [K1 | K1].
    + apply (Main (2 ^ 52)%Z (c + 1)%Z); [| lia | lia].
      rewrite Hx, K1. rewrite pow2_plus.
      change (pow2 1) with 2.
      replace (2 ^ 53)%Z with (2 ^ 52 * 2)%Z by reflexivity.
      rewrite inject_Z_mult. change (inject_Z 2) with 2. ring.
    + apply (Main k c); [exact Hx | lia | exact Hc].
Qed.

Lemma round64_grid (x : Q) :
  0 <= x ->
  exists k, round64 x == inject_Z k * pow2 (ulpExponent x) /\ (0 <= k <= 2 ^ 53)%Z.
Proof.
  intro Hx. exists (roundTiesToEven (x / pow2 (ulpExponent x))).
  split; [reflexivity |]. set (u := ulpExponent x). pose proof (pow2_pos u) as P.
  split.
  - apply rte_ge. change (inject_Z 0) with 0. apply Qle_shift_div_l; [exact P | lra].
  - apply rte_le. apply Qle_shift_div_r; [exact P |].
    destruct (Qeq_dec x 0) as [Z0 | NZ].
    + rewrite Z0. apply Qmult_le_0_compat; [| lra].
      change 0 with (inject_Z 0). rewrite <- Zle_Qle. lia.
    + assert (Px : 0 < x) by lra.
      destruct (ilog2_spec x Px) as [_ S].
      assert (Hu : (ilog2 x + 1 <= 53 + u)%Z)
        by (unfold u; rewrite (ulpExponent_pos x Px); lia).
      apply pow2_le in Hu.
      assert (H53 : pow2 (53 + u) == inject_Z (2 ^ 53) * pow2 u)
        by (rewrite pow2_plus, (pow2_Z 53) by lia; reflexivity).
      rewrite H53 in Hu. lra.
Qed.

Lemma ulpExponent_min (x : Q) : (-1074 <= ulpExponent x)%Z.
Proof. unfold ulpExponent. lia. Qed.

Lemma round64_idempotent (x : Q) : 0 <= x -> round64 (round64 x) == round64 x.
Proof.
  intro Hx. destruct (round64_grid x Hx) as [k [Hk Hr]].
  apply (round64_fixed _ k (ulpExponent x) Hk Hr (ulpExponent_min x)).
Qed.

Lemma round64_error (x : Q) (e : Z) :
  0 <= x -> x < pow2 (e + 1) -> (-1022 <= e)%Z ->
  - pow2 (e - 53) <= round64 x - x <= pow2 (e - 53).
Proof.
  intros Hx Hb He.
  destruct (Qeq_dec x 0) as [Z0 | NZ].
  - rewrite (round64_zero x Z0), Z0. pose proof (pow2_pos (e - 53)). lra.
  - assert (Px : 0 < x) by lra.
    pose proof (ilog2_below x e Px Hb) as Hl.
    assert (Hu : (ulpExponent x <= e - 52)%Z) by (rewrite (ulpExponent_pos x Px); lia).
    pose proof (round64_error_ulp x) as [E1 E2].
    apply pow2_le in Hu.
    assert (Hh : pow2 (e - 52) == 2 * pow2 (e - 53)).
    { replace (e - 52)%Z with (1 + (e - 53))%Z by lia. rewrite pow2_plus. reflexivity. }
    lra.
Qed.

(** ** The smoothing update in binary64 *)


Lemma round64_one : round64 1 == 1.
Proof. vm_compute. reflexivity. Qed.

Lemma round64_two : round64 2 == 2.
Proof. vm_compute. reflexivity. Qed.

Lemma round64_above_one : round64 (1 + pow2 (-54)) == 1.
Proof. vm_compute. reflexivity. Qed.

Lemma round64_unit (x : Q) : 0 <= x <= 1 -> 0 <= round64 x <= 1.
Proof.
  intros [H0 H1]. split; [apply round64_nonneg; exact H0 |].
  rewrite <- round64_one. apply round64_mono; assumption.
Qed.

Lemma round64_unit_error (x : Q) :
  0 <= x <= 1 -> - pow2 (-54) <= round64 x - x <= pow2 (-54).
Proof.
  intros [H0 H1]. destruct (Qlt_le_dec x 1) as [Hlt | Hge].
  - apply (round64_error x (-1)); [exact H0 | exact Hlt | lia].
  - assert (E : round64 x == 1).
    { apply Qle_antisym.
      - rewrite <- round64_one. apply round64_mono; assumption.
      - rewrite <- round64_one at 1. apply round64_mono; lra. }
    pose proof (pow2_pos (-54)). lra.
Qed.

Lemma fl_Num (q : Q) : 0 <= q <= 2 -> fl (Num q) = Num (round64 q).
Proof.
  intros [H0 H2]. unfold fl. cbv zeta.
  assert (Hr : 0 <= round64 q <= 2).
  { split; [apply round64_nonneg; exact H0 |].
    rewrite <- round64_two. apply round64_mono; assumption. }
  destruct (Qle_bool (pow2 1024) (Qabs (round64 q))) eqn:E; [| reflexivity].
  apply Qle_bool_iff in E. rewrite Qabs_pos in E by lra.
  pose proof (pow2_lt 1 1024 ltac:(lia)) as Hp. change (pow2 1) with 2 in Hp. lra.
Qed.

Lemma convex_closed (a p x : Q) :
  0 <= a <= 1 -> Qmin p x <= p * (1 - a) + x * a <= Qmax p x.
Proof.
  intros [Ha0 Ha1].
  destruct (Qlt_le_dec p x) as [Hlt | Hle].
  - rewrite (Q.min_l p x), (Q.max_r p x) by lra. split; nra.
  - rewrite (Q.min_r p x), (Q.max_l p x) by lra. split; nra.
Qed.

(** One update in binary64: the result is in [0, 1] and within [5 * 2^-54]
    of the exact value of the formula at the binary64 value of the factor. *)
Lemma smoothStep64_step (cfg : Config) (p x : Q) :
  0 <= amplitudeSmoothFactorVar cfg <= 1 -> 0 <= p <= 1 -> 0 <= x <= 1 ->
  let a := round64 (amplitudeSmoothFactorVar cfg) in
  exists r,
    smoothStep64 cfg (Num p) (Num x) = Num r
    /\ 0 <= r <= 1
    /\ - (5 * pow2 (-54)) <= r - (p * (1 - a) + x * a) <= 5 * pow2 (-54).
Proof.
  intros Halpha Hp Hx. cbv zeta.
  set (a := round64 (amplitudeSmoothFactorVar cfg)).
  assert (Ha : 0 <= a <= 1) by (apply round64_unit; exact Halpha).
  assert (Haa : round64 a == a)
    by (apply round64_idempotent; apply (proj1 Halpha)).
  set (b := round64 (1 - a)).
  assert (Hb : 0 <= b <= 1) by (apply round64_unit; lra).
  assert (Hbb : round64 b == b) by (apply round64_idempotent; lra).
  assert (Eb : - pow2 (-54) <= b - (1 - a) <= pow2 (-54))
    by (apply round64_unit_error; lra).
  set (t1 := round64 (p * b)). set (t2 := round64 (x * a)).
  assert (Hpb : 0 <= p * b <= 1) by nra.
  assert (Hxa : 0 <= x * a <= 1) by nra.
  assert (Ht1 : 0 <= t1 <= b).
  { split; [apply round64_nonneg; lra |].
    rewrite <- Hbb. apply round64_mono; [lra | nra]. }
  assert (Ht2 : 0 <= t2 <= a).
  { split; [apply round64_nonneg; lra |].
    rewrite <- Haa. apply round64_mono; [lra | nra]. }
  assert (E1 : - pow2 (-54) <= t1 - p * b <= pow2 (-54))
    by (apply round64_unit_error; exact Hpb).
  assert (E2 : - pow2 (-54) <= t2 - x * a <= pow2 (-54))
    by (apply round64_unit_error; exact Hxa).
  pose proof (pow2_pos (-54)) as P54.
  assert (P53 : pow2 (-53) == 2 * pow2 (-54)) by reflexivity.
  assert (Hs : 0 <= t1 + t2 <= 1 + pow2 (-54)) by lra.
  assert (P54' : pow2 (-54) < 1) by (vm_compute; reflexivity).
  assert (E3 : - pow2 (-53) <= round64 (t1 + t2) - (t1 + t2) <= pow2 (-53)).
  { apply (round64_error (t1 + t2) 0); [lra | change (pow2 (0 + 1)) with 2; lra | lia]. }
  assert (Hr : 0 <= round64 (t1 + t2) <= 1).
  { split; [apply round64_nonneg; lra |].
    rewrite <- round64_above_one. apply round64_mono; lra. }
  exists (round64 (t1 + t2)). split; [| split; [exact Hr |]].
  - unfold smoothStep64. cbv zeta.
    rewrite (fl_Num (amplitudeSmoothFactorVar cfg)) by lra. fold a.
    cbn [nsub nmul nadd lift2].
    rewrite (fl_Num (1 - a)) by lra. fold b.
    cbn [nsub nmul nadd lift2].
    rewrite (fl_Num (p * b)) by lra. rewrite (fl_Num (x * a)) by lra. fold t1 t2.
    cbn [nsub nmul nadd lift2].
    rewrite (fl_Num (t1 + t2)) by lra. reflexivity.
  - assert (Ep : - pow2 (-54) <= p * (b - (1 - a)) <= pow2 (-54)) by nra.
    split; lra.
Qed.

Lemma smoothStep64_run (cfg : Config) (inputs : list Q) :
  0 <= amplitudeSmoothFactorVar cfg <= 1 ->
  (forall x, In x inputs -> 0 <= x <= 1) ->
  forall p, 0 <= p <= 1 ->
  exists r, fold_left (smoothStep64 cfg) (map Num inputs) (Num p) = Num r /\ 0 <= r <= 1.
Proof.
  intros Ha. induction inputs as [|x inputs IH]; intros Hin p Hp; simpl.
  - exists p. split; [reflexivity | exact Hp].
  - destruct (smoothStep64_step cfg p x Ha Hp (Hin x (or_introl eq_refl)))
      as [r [Hr [Hr01 _]]].
    rewrite Hr. apply IH; [| exact Hr01].
    intros y Hy. apply Hin. right. exact Hy.
Qed.

(** C2, as the code has it.  For a smoothing factor alpha in (0, 1] and a
    prior and an input in [0, 1], one smoothing update, computed in binary64
    as the code computes it, leaves the smoothed amplitude in [0, 1] and
    within 5 * 2^-54 of the interval from min(prior, input) to
    max(prior, input); hence, from 0 and with every input in [0, 1], the
    smoothed amplitude is in [0, 1] after every update of the sequence.  The
    interval itself is kept by the exact value of the formula only. *)
Theorem smoothing_is_bounded_up_to_rounding (cfg : Config) :
  0 < amplitudeSmoothFactorVar cfg <= 1 ->
  (forall prior input : Q,
     0 <= prior <= 1 -> 0 <= input <= 1 ->
     exists r, smoothStep64 cfg (Num prior) (Num input) = Num r
               /\ 0 <= r <= 1
               /\ Qmin prior input - 5 * pow2 (-54) <= r
                  <= Qmax prior input + 5 * pow2 (-54))
  /\
  (forall inputs : list Q,
     (forall x, In x inputs -> 0 <= x <= 1) ->
     forall k : nat,
       exists r, fold_left (smoothStep64 cfg) (map Num (firstn k inputs)) (Num 0) = Num r
                 /\ 0 <= r <= 1).
Proof.
  intro Ha. assert (Ha' : 0 <= amplitudeSmoothFactorVar cfg <= 1) by lra. split.
  - intros p x Hp Hx.
    destruct (smoothStep64_step cfg p x Ha' Hp Hx) as [r [Hr [Hr01 He]]].
    exists r. split; [exact Hr |]. split; [exact Hr01 |].
    pose proof (convex_closed (round64 (amplitudeSmoothFactorVar cfg)) p x
                  (round64_unit _ Ha')) as Hc.
    cbv zeta in He. lra.
  - intros inputs Hin k. apply smoothStep64_run; [exact Ha' | | lra].
    intros x Hx. apply Hin. apply (in_prefix k inputs x Hx).
Qed.

Lemma smoothing_is_bounded_up_to_rounding_witness :
  0 < amplitudeSmoothFactorVar defaultConfig <= 1
  /\ (exists r, smoothStep64 defaultConfig (Num (1 # 2)) (Num 1) = Num r
                /\ 0 <= r <= 1
                /\ Qmin (1 # 2) 1 - 5 * pow2 (-54) <= r <= Qmax (1 # 2) 1 + 5 * pow2 (-54))
  /\ (exists r, fold_left (smoothStep64 defaultConfig)
                  (map Num (firstn 2 [1; 1 # 2; 0])) (Num 0) = Num r
                /\ 0 <= r <= 1).
Proof.
  assert (H : 0 < amplitudeSmoothFactorVar defaultConfig <= 1) by (simpl; lra).
  split; [exact H |]. split.
  - apply (proj1 (smoothing_is_bounded_up_to_rounding defaultConfig H) (1 # 2) 1); lra.
  - apply (proj2 (smoothing_is_bounded_up_to_rounding defaultConfig H) [1; 1 # 2; 0]).
    intros x [<- | [<- | [<- | []]]]; lra.
Defined.

(** C2 as the specification states it does not hold of the code.  With the
    default factor 0.3 and prior = input = 3/16384 the update gives
    6755399441055743 * 2^-65, which is below both (3/16384 is
    6755399441055744 * 2^-65); the smoothing assignment evaluated on the
    kernel's binary64 numbers gives the same value. *)
Lemma smoothing_can_leave_the_interval :
  smoothStep64 defaultConfig (Num (3 # 16384)) (Num (3 # 16384))
  =n= Num (6755399441055743 * pow2 (-65))
  /\ 6755399441055743 * pow2 (-65) < Qmin (3 # 16384) (3 # 16384)
  /\ agrees smoothing64_example (6755399441055743 * pow2 (-65)) = true.
Proof.
  split; [vm_compute; reflexivity |]. split; vm_compute; reflexivity.
Qed.

(** [round64] against the kernel's binary64 numbers: the same quotients,
    products, sums and differences, the subnormal ones included. *)
Lemma round64_agrees_with_the_kernel :
  checkedQuotients = true /\ checkedOperations = true.
Proof. split; vm_compute; reflexivity. Qed.

(** ** A constant buffer in binary64 *)

Lemma round64_pow2 (k : Z) : (-1074 <= k)%Z -> round64 (pow2 k) == pow2 k.
Proof.
  intro H. apply (round64_fixed (pow2 k) 1 k); [| lia | exact H].
  change (inject_Z 1) with 1. ring.
Qed.

Lemma fl_bounded (q : Q) (k : Z) :
  (-1074 <= k < 1024)%Z -> 0 <= q <= pow2 k ->
  fl (Num q) = Num (round64 q) /\ 0 <= round64 q <= pow2 k.
Proof.
  intros Hk [H0 H1].
  assert (Hr : 0 <= round64 q <= pow2 k).
  { split; [apply round64_nonneg; exact H0 |].
    rewrite <- (round64_pow2 k) by lia. apply round64_mono; assumption. }
  split; [| exact Hr]. unfold fl. cbv zeta.
  destruct (Qle_bool (pow2 1024) (Qabs (round64 q))) eqn:E; [| reflexivity].
  apply Qle_bool_iff in E. rewrite Qabs_pos in E by lra.
  pose proof (pow2_lt k 1024 ltac:(lia)). lra.
Qed.

Lemma amplitudeNormalized64_unit (dataArray : list Byte.byte) :
  dataArray <> [] ->
  exists x, amplitudeNormalized64 dataArray = Num x /\ 0 <= x <= 1.
Proof.
  intro Hne.
  destruct (amplitudeNormalized_closed dataArray Hne) as [Hc Hl].
  destruct (amplitudeNormalized_unit dataArray Hne) as [y [Hy Hy01]].
  rewrite Hc in Hy. inversion Hy as [Ey]. clear Hy.
  set (q := sumLoop dataArray / lengthQ dataArray) in *.
  assert (Hq : 0 <= q <= pow2 7).
  { change (pow2 7) with 128. rewrite <- Ey in Hy01.
    assert (E : q == q / 128 * 128) by (field).
    lra. }
  destruct (fl_bounded q 7 ltac:(lia) Hq) as [F1 R1].
  change (pow2 7) with 128 in R1.
  assert (Hq2 : 0 <= round64 q / 128 <= pow2 0).
  { change (pow2 0) with 1.
    assert (E : round64 q == round64 q / 128 * 128) by (field).
    lra. }
  destruct (fl_bounded (round64 q / 128) 0 ltac:(lia) Hq2) as [F2 R2].
  change (pow2 0) with 1 in R2.
  exists (round64 (round64 q / 128)). split; [| exact R2].
  unfold amplitudeNormalized64. cbv zeta. unfold ndiv at 2.
  rewrite (lengthQ_nonzero dataArray Hne). fold q. rewrite F1.
  unfold ndiv. change (Qeq_bool 128 0) with false. cbv iota. exact F2.
Qed.

Lemma decay_nonneg (a : Q) (n : nat) : 0 <= a <= 1 -> 0 <= decay a n.
Proof.
  intro Ha. induction n as [|n IH]; simpl; [lra |].
  apply Qmult_le_0_compat; lra.
Qed.

Lemma abs_step (a r x e d : Q) :
  0 <= a <= 1 -> - d <= e <= d ->
  Qabs ((1 - a) * (r - x) + e) <= (1 - a) * Qabs (r - x) + d.
Proof.
  intros Ha He. apply Qabs_Qle_condition.
  pose proof (Qle_Qabs (r - x)) as U.
  pose proof (Qle_Qabs (- (r - x))) as L. rewrite Qabs_opp in L.
  set (A := Qabs (r - x)) in *. clearbody A. split; nra.
Qed.

(** X1.  While the analyser delivers the same non-empty buffer, the smoothed
    amplitude approaches the buffer's normalized amplitude geometrically, up
    to rounding.  In binary64, from a value in [0, 1] and after n frames, its
    distance to the normalized amplitude is at most (1 - a)^n times the
    distance it started with, plus 5 * 2^-54 / a, where a is the binary64
    value of the smoothing factor (at least 2^-1074 and at most 1). *)
Theorem constant_buffer_is_approached_up_to_rounding (cfg : Config)
    (dataArray : list Byte.byte) (p : Q) (n : nat) :
  pow2 (-1074) <= amplitudeSmoothFactorVar cfg <= 1 ->
  dataArray <> [] ->
  0 <= p <= 1 ->
  let a := round64 (amplitudeSmoothFactorVar cfg) in
  exists x r,
    amplitudeNormalized64 dataArray = Num x /\ 0 <= x <= 1
    /\ Nat.iter n (sampler64 cfg dataArray) (Num p) = Num r /\ 0 <= r <= 1
    /\ 0 < a <= 1
    /\ Qabs (r - x) <= decay a n * Qabs (p - x) + 5 * pow2 (-54) / a.
Proof.
  intros Halpha Hne Hp. cbv zeta.
  pose proof (pow2_pos (-1074)) as Pmin.
  assert (Ha' : 0 <= amplitudeSmoothFactorVar cfg <= 1) by lra.
  set (a := round64 (amplitudeSmoothFactorVar cfg)).
  assert (Ha : 0 < a <= 1).
  { split; [| apply round64_unit; exact Ha'].
    apply Qlt_le_trans with (pow2 (-1074)); [exact Pmin |].
    rewrite <- (round64_pow2 (-1074)) by lia.
    apply round64_mono; lra. }
  destruct (amplitudeNormalized64_unit dataArray Hne) as [x [Hx Hx01]].
  exists x.
  assert (Inv : exists r,
             Nat.iter n (sampler64 cfg dataArray) (Num p) = Num r /\ 0 <= r <= 1
             /\ a * (Qabs (r - x) - decay a n * Qabs (p - x)) <= 5 * pow2 (-54)).
  { pose proof (pow2_pos (-54)) as P54.
    induction n as [|n IH].
    - exists p. split; [reflexivity |]. split; [exact Hp |]. cbn [decay].
      setoid_replace (a * (Qabs (p - x) - 1 * Qabs (p - x))) with 0 by ring. lra.
    - destruct IH as [r [Hr [Hr01 Hg]]].
      destruct (smoothStep64_step cfg r x Ha' Hr01 Hx01) as [r' [Hr' [Hr'01 He]]].
      cbv zeta in He. fold a in He.
      exists r'. split.
      { rewrite Nat.iter_succ, Hr. unfold sampler64. rewrite Hx. exact Hr'. }
      split; [exact Hr'01 |].
      assert (Egap : r' - x == (1 - a) * (r - x) + (r' - (r * (1 - a) + x * a)))
        by ring.
      assert (Habs : Qabs (r' - x) <= (1 - a) * Qabs (r - x) + 5 * pow2 (-54)).
      { rewrite Egap. apply abs_step; [lra | exact He]. }
      cbn [decay].
      pose proof (Qabs_nonneg (r - x)) as N1.
      pose proof (decay_nonneg a n ltac:(lra)) as N2.
      pose proof (Qabs_nonneg (p - x)) as N3.
      set (E' := Qabs (r' - x)) in *. set (E := Qabs (r - x)) in *.
      set (D := Qabs (p - x)) in *. set (B := decay a n) in *.
      set (d := 5 * pow2 (-54)) in *.
      clearbody E' E D B d.
      assert (S1 : a * E' <= a * ((1 - a) * E + d)) by nra.
      assert (S2 : (1 - a) * (a * (E - B * D)) <= (1 - a) * d) by nra.
      nra. }
  destruct Inv as [r [Hr [Hr01 Hg]]].
  exists r. split; [exact Hx |]. split; [exact Hx01 |]. split; [exact Hr |].
  split; [exact Hr01 |]. split; [exact Ha |].
  assert (Hd : Qabs (r - x) - decay a n * Qabs (p - x) <= 5 * pow2 (-54) / a).
  { apply Qle_shift_div_l; [lra |]. rewrite Qmult_comm. exact Hg. }
  lra.
Qed.

Lemma constant_buffer_is_approached_up_to_rounding_witness :
  exists x r,
    amplitudeNormalized64 demoBuffer = Num x
    /\ Nat.iter 3 (sampler64 defaultConfig demoBuffer) (Num 0) = Num r
    /\ Qabs (r - x)
       <= decay (round64 (amplitudeSmoothFactorVar defaultConfig)) 3 * Qabs (0 - x)
          + 5 * pow2 (-54) / round64 (amplitudeSmoothFactorVar defaultConfig).
Proof.
  destruct (constant_buffer_is_approached_up_to_rounding defaultConfig demoBuffer 0 3)
    as [x [r [Hx [_ [Hr [_ [_ Hd]]]]]]].
  - split; vm_compute; discriminate.
  - discriminate.
  - lra.
  - exists x, r. split; [exact Hx |]. split; [exact Hr | exact Hd].
Defined.

(** ** The analysis in binary64 *)

Lemma analysis_reads_absolute_values (a : list Q) :
  forall b : list Q,
    map Qabs a = map Qabs b ->
    analyzeChannel64 a = analyzeChannel64 b /\ analyzeChannel a = analyzeChannel b.
Proof.
  intros b Hab.
  assert (H64 : forall i,
             fold_left (fun sum x => fl (nadd sum (Num (Qabs x)))) a i
             = fold_left (fun sum x => fl (nadd sum (Num (Qabs x)))) b i).
  { revert b Hab. induction a as [|x a IH]; intros [|y b] Hab i;
      try discriminate; [reflexivity |].
    cbn [map] in Hab. injection Hab as Hx Hrest.
    cbn [fold_left]. rewrite Hx. apply IH. exact Hrest. }
  assert (Hex : forall i,
             fold_left (fun sum x => sum + Qabs x) a i
             = fold_left (fun sum x => sum + Qabs x) b i).
  { clear H64. revert b Hab. induction a as [|x a IH]; intros [|y b] Hab i;
      try discriminate; [reflexivity |].
    cbn [map] in Hab. injection Hab as Hx Hrest.
    cbn [fold_left]. rewrite Hx. apply IH. exact Hrest. }
  assert (Hl : lengthQ a = lengthQ b).
  { unfold lengthQ. rewrite <- (length_map Qabs a), Hab, length_map. reflexivity. }
  unfold analyzeChannel64, analyzeChannel. cbv zeta.
  rewrite Hl, H64, Hex. split; reflexivity.
Qed.

Lemma abs_of_negated (l : list Q) : map Qabs (map Qopp l) = map Qabs l.
Proof.
  induction l as [|[n d] l IH]; [reflexivity |].
  cbn [map]. rewrite IH. f_equal.
  unfold Qabs, Qopp. cbn [Qnum Qden]. rewrite Z.abs_opp. reflexivity.
Qed.

(** X21.  The analysis does not depend on the signs of the samples: clips
    whose samples have the same absolute values in the same order get the same
    mean amplitude and the same classification, in exact arithmetic and in
    binary64; so does a clip with every sample negated.  It does depend on
    their order, as the sum is rounded after every addition: a clip of eight
    binary32 samples is classified as silence in one order (mean
    0.019999999999999997, one unit in the last place below 0.02) and as
    signal in another (mean 0.02); the loop evaluated on the kernel's binary64
    numbers gives the same two means. *)
Theorem analysis_ignores_signs_but_not_order :
  (forall a b : list Q,
     map Qabs a = map Qabs b ->
     analyzeChannel64 a = analyzeChannel64 b /\ analyzeChannel a = analyzeChannel b)
  /\ (forall l : list Q,
        analyzeChannel64 (map Qopp l) = analyzeChannel64 l
        /\ analyzeChannel (map Qopp l) = analyzeChannel l)
  /\ Permutation quietClip quietClipReordered
  /\ avgAmplitude (analyzeChannel64 quietClip) =n= Num (round64 (2 # 100) - pow2 (-58))
  /\ isMostlySilence (analyzeChannel64 quietClip) = true
  /\ avgAmplitude (analyzeChannel64 quietClipReordered) =n= Num (round64 (2 # 100))
  /\ isMostlySilence (analyzeChannel64 quietClipReordered) = false
  /\ agrees (analyze64_example quietClipFloats) (round64 (2 # 100) - pow2 (-58)) = true
  /\ agrees (analyze64_example quietClipReorderedFloats) (round64 (2 # 100)) = true.
Proof.
  split; [intros a b; apply analysis_reads_absolute_values |].
  split.
  { intro l. apply analysis_reads_absolute_values. apply abs_of_negated. }
  split.
  { unfold quietClip, quietClipReordered.
    apply (Permutation_cons_app
             [16106127 * pow2 (-52); pow2 (-54); pow2 (-57); pow2 (-57); pow2 (-57)]
             [pow2 (-57); 0]).
    apply Permutation_refl. }
  split; [vm_compute; reflexivity |].
  split; [vm_compute; reflexivity |].
  split; [vm_compute; reflexivity |].
  split; [vm_compute; reflexivity |].
  split; vm_compute; reflexivity.
Qed.
